(** * MWM: a shallow embedding of the LLaMA/Mamba model code and of the
      random-access training dataset, with the properties of its
      specification.

    Sources embedded here:
    - [training/src/pl_module.py]: [PileRandomIODataset] and [Pile];
    - [MIVRA/mwm/llama.py]: [LLaMAConfig], [RMSNorm],
      [precompute_freqs_cis], [apply_rotary_emb], [FlaxLLaMAAttention],
      [S6], [FlaxLLaMAMLP], [MambaBlock], [FlaxLLaMABlock],
      [FlaxLLaMABlockCollection], the default inputs of the model calls,
      the inputs of generation and the id lists of [LLaMATokenizer].

    Conventions.  Python integers are [Z]; array positions are [nat].
    Tensors are nested lists, outermost axis first.  Floating-point
    tensors are read over the real numbers [R]: every rounding and cast
    ([astype]) is the identity, so the theorems speak about the function
    the code computes in exact arithmetic.  A Python exception, or a
    shape error of the array library, is the [None] of an [option]. *)

From Stdlib Require Import ZArith Reals Lra Lia Ascii String.
From stdpp Require Import base list.

(** ** Part I.  The embedding *)

(** *** Python list primitives *)

Module Py.

(** [[x] * n]: the list of [n] copies of [x]; empty when [n <= 0]. *)
Definition repeat {A : Type} (x : A) (n : Z) : list A :=
  replicate (Z.to_nat n) x.

(** [len(l)] as a Python integer. *)
Definition len {A : Type} (l : list A) : Z := Z.of_nat (length l).

(** [l[:-1]]: everything but the last element (empty for an empty list). *)
Definition drop_last {A : Type} (l : list A) : list A :=
  take (length l - 1) l.

(** [l[1:]]. *)
Definition from_1 {A : Type} (l : list A) : list A := drop 1 l.

End Py.

(** *** sortedcontainers.SortedList, as the sorted list of its elements *)

Module SortedList.

Local Open Scope Z_scope.

(** [SortedList.add(v)]: insert [v] after the elements that are [<= v]. *)
Fixpoint add (v : Z) (l : list Z) : list Z :=
  match l with
  | [] => [v]
  | x :: r => if v <? x then v :: l else x :: add v r
  end.

(** [SortedList.bisect_left(v)]: the position of the first element that
    is [>= v] (the length when there is none). *)
Fixpoint bisect_left (l : list Z) (v : Z) : nat :=
  match l with
  | [] => O
  | x :: r => if x <? v then S (bisect_left r v) else O
  end.

End SortedList.

(** *** Vocabulary of the statements about shards *)

Module Shards.

Local Open Scope Z_scope.

(** The sum of a list of row counts. *)
Definition sumZ (l : list Z) : Z := foldr Z.add 0 l.

(** The cumulative row count of the shards [0 .. k] (inclusive). *)
Definition cumulative (counts : list Z) (k : nat) : Z := sumZ (take (S k) counts).

(** The cumulative row count of the shards before shard [k]. *)
Definition before (counts : list Z) (k : nat) : Z := sumZ (take k counts).

(** The running totals [acc + c0], [acc + c0 + c1], ... *)
Fixpoint running (acc : Z) (counts : list Z) : list Z :=
  match counts with
  | [] => []
  | c :: r => (acc + c) :: running (acc + c) r
  end.

(** The three shards of the worked example, with 3, 5 and 2 rows. *)
Definition example : list (string * Z) :=
  [("shard0"%string, 3); ("shard1"%string, 5); ("shard2"%string, 2)].

End Shards.

(** *** pl_module.py: PileRandomIODataset *)

Module PileRandomIODataset.

Local Open Scope Z_scope.

(** The attributes of [self] that the index resolution and the padding
    read.  [length_] is [self.length]. *)
Record t : Type := mk {
  fpaths : list string;
  max_seq_len : Z;
  pad_id : Z;
  length_ : Z;
  index : list string;
  index_keys : list Z
}.

(** One turn of the loop of [__init__]: [num_rows] is the result of
    [SELECT COUNT( * ) FROM rows] on the shard [fpath]. *)
Definition init_step (self : t) (shard : string * Z) : t :=
  let '(fpath, num_rows) := shard in
  let length' := length_ self + num_rows in
  {| fpaths := fpaths self;
     max_seq_len := max_seq_len self;
     pad_id := pad_id self;
     length_ := length';
     index := index self ++ [fpath];
     index_keys := SortedList.add length' (index_keys self) |}.

(** [__init__(fpaths, max_seq_len, pad_id)], the row count of every
    shard being given with its path. *)
Definition __init__ (shards : list (string * Z)) (max_seq_len pad_id : Z) : t :=
  fold_left init_step shards
    {| fpaths := shards.*1; max_seq_len := max_seq_len; pad_id := pad_id;
       length_ := 0; index := []; index_keys := [] |}.

Definition __len__ (self : t) : Z := length_ self.

(** [_get_db_and_idx(idx)].  [self.index[key]] raises [IndexError] when
    [key] is past the end. *)
Definition _get_db_and_idx (self : t) (idx : Z) : option (string * Z) :=
  let key := SortedList.bisect_left (index_keys self) (idx + 1) in
  fpath ← index self !! key;
  key_offset ← (if decide (key = O) then Some 0
                else index_keys self !! (key - 1)%nat);
  let db_key := idx - key_offset in
  Some (fpath, db_key).

(** The part of [__getitem__] after the row is read and its token string
    decoded: the loss weights and the padding. *)
Definition pad_row (self : t) (tokens : list Z) (pred_start : Z)
  : list Z * list Z :=
  let weights :=
    Py.repeat 0 (pred_start - 1) ++ Py.repeat 1 (Py.len tokens - pred_start) in
  let weights := weights ++ Py.repeat 0 (max_seq_len self - Py.len weights) in
  let tokens :=
    tokens ++ Py.repeat (pad_id self) (max_seq_len self + 1 - Py.len tokens) in
  (tokens, weights).

Section GetItem.

(** The storage layer: [rows fpath id] is the result of the [SELECT] on
    the shard [fpath] ([None] when no row has this id, where
    [fetchall()[0]] raises), and [decode] is the decompression of [seq]
    followed by the parsing of its whitespace-separated integers ([None]
    when either raises). *)
Context {Seq : Type}.
Variable rows : string → Z → option (string * Seq * Z).
Variable decode : Seq → option (list Z).

(** [__getitem__(idx)]; the exception handler logs and re-raises. *)
Definition __getitem__ (self : t) (idx : Z)
  : option (list Z * list Z * string) :=
  '(fpath, db_idx) ← _get_db_and_idx self idx;
  '(dataset, seq, pred_start) ← rows fpath db_idx;
  tokens ← decode seq;
  let '(tokens, weights) := pad_row self tokens pred_start in
  Some (tokens, weights, dataset).

End GetItem.

End PileRandomIODataset.

(** *** Vocabulary of the statements about padded rows *)

Module Rows.

Import PileRandomIODataset.
Local Open Scope Z_scope.

(** What the specification asks of the padded row [(tokens', weights)]
    built from [tokens] and [pred_start]: both have the fixed lengths, the
    weight of position [i] (which scores the prediction of token [i + 1])
    is 1 exactly from [pred_start - 1] to [len(tokens) - 2], and [tokens']
    is [tokens] followed by pad ids only. *)
Definition well_padded (self : t) (tokens : list Z) (pred_start : Z)
    (row : list Z * list Z) : Prop :=
  Py.len row.2 = max_seq_len self
  ∧ Py.len row.1 = max_seq_len self + 1
  ∧ (∀ i : nat, Z.of_nat i < max_seq_len self →
       row.2 !! i
       = Some (if decide (pred_start - 1 <= Z.of_nat i < Py.len tokens - 1)
               then 1 else 0))
  ∧ take (length tokens) row.1 = tokens
  ∧ (∀ i : nat, (length tokens <= i < length row.1)%nat →
       row.1 !! i = Some (pad_id self)).

(** A dataset object with the given [max_seq_len] and [pad_id] and no shard. *)
Definition dataset (max_seq_len pad_id : Z) : t := __init__ [] max_seq_len pad_id.

End Rows.

(** *** pl_module.py: Pile *)

Module Pile.

Local Open Scope Z_scope.

(** [on_after_batch_transfer(batch, dataloader_idx)]: the batch tensor is
    the list of its rows; [mask.type(torch.uint8)] is 0 or 1. *)
Definition on_after_batch_transfer {W D : Type}
    (batch : list (list Z) * W * D)
  : list (list Z) * list (list Z) * list (list Z) * W * D :=
  let '(batch, weights, dataset) := batch in
  let x := Py.drop_last <$> batch in
  let y := Py.from_1 <$> batch in
  let mask := (fun row => (fun tok => if decide (tok ≠ 0) then 1 else 0) <$> row) <$> x in
  (x, y, mask, weights, dataset).

End Pile.

(** *** Real-valued tensors *)

Module Tensor.

Local Open Scope R_scope.

(** [sum] over the last axis. *)
Definition sum (l : list R) : R := foldr Rplus 0 l.

(** [mean] over the last axis. *)
Definition mean (l : list R) : R := sum l / INR (length l).

(** The contraction of two vectors over their common axis. *)
Definition dot (a b : list R) : R := sum (zip_with Rmult a b).

(** [c * x] for a scalar [c]. *)
Definition scale (c : R) (x : list R) : list R := Rmult c <$> x.

(** Elementwise sum and product of two vectors. *)
Definition add (a b : list R) : list R := zip_with Rplus a b.
Definition mul (a b : list R) : list R := zip_with Rmult a b.

(** [zeros(n)]. *)
Definition zeros (n : nat) : list R := replicate n 0.

(** A layer [y = W x + b] ([torch.nn.Linear]): [W] is listed by output
    feature, one row of input weights each. *)
Record Linear : Type := { W : list (list R); bias : list R }.

Definition linear (l : Linear) (x : list R) : list R :=
  zip_with Rplus ((fun row => dot row x) <$> W l) (bias l).

(** A layer [y = x K] without bias ([flax.linen.Dense] with
    [use_bias=False]): the kernel is listed by output feature, one column
    of [K] each. *)
Definition dense (K : list (list R)) (x : list R) : list R :=
  (fun col => dot x col) <$> K.

(** [silu(x) = x * sigmoid(x)] and [softplus(x) = log(1 + exp(x))]. *)
Definition sigmoid (x : R) : R := 1 / (1 + exp (- x)).
Definition silu (x : R) : R := x * sigmoid x.
Definition softplus (x : R) : R := ln (1 + exp x).

End Tensor.

(** *** llama.py: RMSNorm *)

Module RMSNorm.

Import Tensor.
Local Open Scope R_scope.

(** The module: [eps] and the learned [kernel] of length [dim]. *)
Record t : Type := mk { dim : nat; eps : R; weight : list R }.

(** [jax.lax.rsqrt], for [y > 0].  At [y <= 0] the code returns an
    infinity or a NaN, which the reals do not have; the statements about
    the norm keep to [y > 0]. *)
Definition rsqrt (y : R) : R := / sqrt y.

(** [_norm(x)] on one feature vector (the last axis of the input). *)
Definition _norm (self : t) (x : list R) : list R :=
  let r := rsqrt (mean (Rsqr <$> x) + eps self) in
  (fun xi => xi * r) <$> x.

(** [__call__(x)]: normalise, then multiply by the kernel. *)
Definition __call__ (self : t) (x : list R) : list R :=
  mul (_norm self x) (weight self).

(** The default [eps] of the class, [1e-6]. *)
Definition default_eps : R := / 1000000.

End RMSNorm.

(** *** Broadcasting of the array library along one axis *)

Module Broadcast.

(** [a * b] along an axis where [a] and [b] have lengths [n] and [m]: the
    lengths agree, or one of them is 1 and that element is repeated;
    otherwise the shapes are incompatible and the operation raises. *)
Definition along {X Y Z : Type} (f : X → Y → option Z)
    (a : list X) (b : list Y) : option (list Z) :=
  if decide (length a = length b) then mapM (fun ab => f ab.1 ab.2) (zip a b)
  else match a, b with
       | [x], _ => mapM (f x) b
       | _, [y] => mapM (fun x => f x y) a
       | _, _ => None
       end.

End Broadcast.

(** *** llama.py: precompute_freqs_cis and apply_rotary_emb *)

Module Rotary.

Local Open Scope R_scope.

(** A [complex64] number, as its real and imaginary parts. *)
Definition C : Type := R * R.

Definition Cmul (a b : C) : C :=
  (a.1 * b.1 - a.2 * b.2, a.1 * b.2 + a.2 * b.1).

(** [np.arange(0, dim, 2)]. *)
Definition arange_by_2 (dim : nat) : list nat :=
  (fun i => (2 * i)%nat) <$> seq 0 ((dim + 1) / 2).

(** The angular rates [1.0 / theta ** (arange(0, dim, 2)[: dim // 2] / dim)]. *)
Definition freqs (dim : nat) (theta : R) : list R :=
  (fun j => 1 / Rpower theta (INR j / INR dim)) <$> take (dim / 2) (arange_by_2 dim).

(** [precompute_freqs_cis(dim, max_position_embedding, theta)]: row [t]
    holds [cos(t * f) + 1j * sin(t * f)] for every rate [f]. *)
Definition precompute_freqs_cis (dim max_position_embedding : nat) (theta : R)
  : list (list C) :=
  (fun t => (fun f => (cos (INR t * f), sin (INR t * f))) <$> freqs dim theta)
    <$> seq 0 max_position_embedding.

(** [x.reshape( *x.shape[:-1], -1, 2)] followed by [jax.lax.complex] of
    the two columns: adjacent coordinates are paired.  An odd length cannot
    be reshaped. *)
Fixpoint to_complex (x : list R) : option (list C) :=
  match x with
  | [] => Some []
  | a :: b :: r => cons (a, b) <$> to_complex r
  | [_] => None
  end.

(** [jnp.stack((real, imag), axis=-1).reshape(..., -1)]. *)
Definition of_complex (z : list C) : list R := z ≫= (fun c => [c.1; c.2]).

(** The rotation of one head vector by one row of the table. *)
Definition rotate (x : list R) (fc : list C) : option (list R) :=
  z ← to_complex x;
  of_complex <$> Broadcast.along (fun a b => Some (Cmul a b)) z fc.

(** The same for a tensor [seq, heads, head_dim] and the rows
    [seq, head_dim / 2]; the head axis of the rows has size 1. *)
Definition rotate_all (x : list (list (list R))) (freqs_cis : list (list C))
  : option (list (list (list R))) :=
  Broadcast.along (fun heads fc => mapM (fun v => rotate v fc) heads) x freqs_cis.

(** [apply_rotary_emb(xq, xk, freqs_cis)], for one element of the batch. *)
Definition apply_rotary_emb (xq xk : list (list (list R)))
    (freqs_cis : list (list C))
  : option (list (list (list R)) * list (list (list R))) :=
  xq_out ← rotate_all xq freqs_cis;
  xk_out ← rotate_all xk freqs_cis;
  Some (xq_out, xk_out).

(** [jnp.take(table, position_ids, axis=0)]: a position past the end of
    the table yields no usable row (the library fills it with NaN). *)
Definition take_rows (table : list (list C)) (position_ids : list nat)
  : option (list (list C)) :=
  mapM (fun p => table !! p) position_ids.

(** The rotation of [xq] and [xk] at the positions [position_ids], as in
    [FlaxLLaMAAttention.__call__]: the rows are taken from the table and
    passed to [apply_rotary_emb]. *)
Definition apply (table : list (list C)) (xq xk : list (list (list R)))
    (position_ids : list nat)
  : option (list (list (list R)) * list (list (list R))) :=
  freqs_cis ← take_rows table position_ids;
  apply_rotary_emb xq xk freqs_cis.

(** The tensor has the shape [seq, heads, dim]. *)
Definition shaped (seq dim : nat) (x : list (list (list R))) : Prop :=
  length x = seq ∧ Forall (Forall (fun v => length v = dim)) x.

End Rotary.

(** *** Vocabulary of the statements about the rotary embedding *)

Module RotarySpec.

Local Open Scope R_scope.

(** The angular rate of frequency [i]: [theta ^ (- 2 i / dim)]. *)
Definition rate (dim : nat) (theta : R) (i : nat) : R :=
  Rpower theta (- (INR (2 * i) / INR dim)).

(** The angles of position [p], one for each of the [dim / 2] pairs. *)
Definition angles (dim : nat) (theta : R) (p : nat) : list R :=
  (fun i => INR p * rate dim theta i) <$> seq 0 (dim / 2).

(** The plane rotation of every adjacent pair of coordinates
    [(x_(2i), x_(2i+1))] by the angle [t_i]. *)
Fixpoint rotate_pairs (ts : list R) (x : list R) : list R :=
  match x, ts with
  | a :: b :: r, t :: ts' =>
      (a * cos t - b * sin t) :: (a * sin t + b * cos t) :: rotate_pairs ts' r
  | _, _ => []
  end.

(** The same on a tensor [seq, heads, dim], position [i] of the sequence
    being rotated by the angles of the position id [pos_i]. *)
Definition rotate_tensor (dim : nat) (theta : R) (pos : list nat)
    (x : list (list (list R))) : list (list (list R)) :=
  zip_with (fun heads p => rotate_pairs (angles dim theta p) <$> heads) x pos.

(** The unit complex number of angle [t]. *)
Definition cis (t : R) : R * R := (cos t, sin t).

End RotarySpec.

(** *** The array library: reshape, sharding, slice update, int32 *)

Module Array.

(** The first [k] consecutive pieces of length [n] of [x]. *)
Fixpoint chunks {A : Type} (k n : nat) (x : list A) : list (list A) :=
  match k with
  | O => []
  | S k' => take n x :: chunks k' n (drop n x)
  end.

(** [x.reshape(k, n)] on an axis of size [k * n]; any other size raises. *)
Definition reshape {A : Type} (k n : nat) (x : list A) : option (list (list A)) :=
  if decide (length x = k * n) then Some (chunks k n x) else None.

(** A value of dtype [int32]: two's complement wrap-around. *)
Definition int32 (z : Z) : Z := ((z + 2 ^ 31) `mod` 2 ^ 32 - 2 ^ 31)%Z.

(** [lax.dynamic_update_slice(operand, update, start)] along the sequence
    axis: a negative start index counts from the end of the axis (the
    size of the axis is added to it), the index is then clamped so that
    the update fits, and an update longer than the operand is a shape
    error. *)
Definition dynamic_update_slice {A : Type} (operand update : list A) (start : Z)
  : option (list A) :=
  if decide (length update <= length operand) then
    let start :=
      if decide (start < 0)%Z then (start + Z.of_nat (length operand))%Z
      else start in
    let s := Z.to_nat (Z.max 0 (Z.min start
                 (Z.of_nat (length operand) - Z.of_nat (length update)))) in
    Some (take s operand ++ update ++ drop (s + length update) operand)
  else None.

(** [shard_map(fn)] over the mesh axis ['sp'] of size [sp], for an operand
    split along its sequence axis: shard [axis_index] runs [fn] on its own
    piece and the pieces are concatenated back.  The axis must divide
    evenly. *)
Definition shard_map {A : Type} (sp : nat) (fn : nat → list A → list A)
    (x : list A) : option (list A) :=
  if decide (sp ≠ O ∧ length x `mod` sp = O)
  then Some (concat (imap fn (chunks sp (length x / sp) x)))
  else None.

End Array.

(** *** llama.py: FlaxLLaMAAttention *)

Module FlaxLLaMAAttention.

Import Tensor.

(** The configuration read by the module, the size [sp] of the mesh axis
    ['sp'], and the kernels of the four [Dense] layers. *)
Record t : Type := mk {
  hidden_size : nat;
  num_attention_heads : nat;
  max_sequence_length : nat;
  theta : R;
  sp : nat;
  wq : list (list R);
  wk : list (list R);
  wv : list (list R);
  wo : list (list R)
}.

(** [setup]. *)
Definition embed_dim (self : t) : nat := hidden_size self.
Definition num_heads (self : t) : nat := num_attention_heads self.
Definition head_dim (self : t) : nat := embed_dim self / num_heads self.

(** [make_causal_mask(jnp.ones((1, n)))]: entry [(i, j)] is [i >= j]. *)
Definition make_causal_mask (n : nat) : list (list bool) :=
  (fun i : nat => (fun j : nat => bool_decide (j <= i)) <$> seq 0 n) <$> seq 0 n.

Definition causal_mask (self : t) : list (list bool) :=
  make_causal_mask (max_sequence_length self).

Definition freqs_cis (self : t) : list (list Rotary.C) :=
  Rotary.precompute_freqs_cis (head_dim self) (max_sequence_length self) (theta self).

(** The keys (or values, or queries) of one position: [heads, head_dim]. *)
Abbreviation slice := (list (list R)) (only parsing).

(** The variables of the ["cache"] collection. *)
Record cache : Type := mk_cache {
  cached_key : list slice;
  cached_value : list slice;
  cache_index : Z
}.

Definition _split_heads (self : t) (hidden_states : list (list R))
  : option (list slice) :=
  mapM (Array.reshape (num_heads self) (head_dim self)) hidden_states.

Definition _merge_heads (self : t) (hidden_states : list slice)
  : option (list (list R)) :=
  mapM (fun heads => if decide (length (concat heads) = embed_dim self)
                     then Some (concat heads) else None) hidden_states.

(** [jnp.zeros(x.shape, x.dtype)]. *)
Definition zeros_like (x : list slice) : list slice :=
  (fun s : slice => (fun v : list R => (fun _ : R => 0%R) <$> v) <$> s) <$> x.

(** The function [fn] of the single-token branch on shard [axis_index],
    for one of the two buffers: the shard that owns the position
    [cur_index] writes the new slice there, the others pass their piece
    through. *)
Definition fn (max_length sp : nat) (new : slice) (cur_index : Z)
    (axis_index : nat) (cached : list slice) : list slice :=
  let sp_size := (max_length / sp)%nat in
  let cur_index := (cur_index - Z.of_nat axis_index * Z.of_nat sp_size)%Z in
  if bool_decide (0 <= cur_index ∧ cur_index < Z.of_nat sp_size)%Z
  then <[Z.to_nat cur_index := new]> cached
  else cached.

(** [_concatenate_to_cache(key, value, query, attention_mask)], threading
    the cache variables: [None] before they exist.  The result is the
    returned triple and the cache after the call. *)
Definition _concatenate_to_cache {M : Type} (self : t) (st : option cache)
    (key value query : list slice) (attention_mask : M)
  : option (list slice * list slice * M * cache) :=
  match st with
  | None =>
      Some (key, value, attention_mask,
            mk_cache (zeros_like key) (zeros_like value) 0)
  | Some c =>
      let max_length := length (cached_key c) in
      let cur_index := cache_index c in
      kv ← (if decide (length query = 1%nat) then
              match key, value with
              | [k], [v] =>
                  key' ← Array.shard_map (sp self)
                           (fn max_length (sp self) k cur_index) (cached_key c);
                  value' ← Array.shard_map (sp self)
                             (fn max_length (sp self) v cur_index) (cached_value c);
                  Some (key', value')
              | _, _ => None
              end
            else
              key' ← Array.dynamic_update_slice (cached_key c) key cur_index;
              value' ← Array.dynamic_update_slice (cached_value c) value cur_index;
              Some (key', value'));
      let '(key, value) := kv in
      let num_updated_cache_vectors := Z.of_nat (length query) in
      Some (key, value, attention_mask,
            mk_cache key value
              (Array.int32 (cache_index c + num_updated_cache_vectors)))
  end.

(** [jnp.broadcast_to(jnp.expand_dims(attention_mask, (-3, -2)), shape)]
    for a mask along the key axis and a shape [(q, k)]. *)
Definition broadcast_to_rows (attention_mask : list bool) (q k : nat)
  : option (list (list bool)) :=
  if decide (length attention_mask = k) then Some (replicate q attention_mask)
  else match attention_mask with
       | [a] => Some (replicate q (replicate k a))
       | _ => None
       end.

(** [combine_masks] of two masks: the broadcast logical and. *)
Definition combine_masks (m1 m2 : list (list bool)) : option (list (list bool)) :=
  Broadcast.along
    (fun r1 r2 => Broadcast.along (fun a b => Some (a && b)) r1 r2) m1 m2.

(** The keys (or values) of head [h] at every position. *)
Definition head (h : nat) (x : list slice) : list (list R) :=
  (fun s : slice => default [] (s !! h)) <$> x.

(** Modelled from the spec: [ring_attention_standard] of
    [lwm.ring_attention], which is imported but not part of the sources.
    Section 4.4: the boolean mask becomes an additive bias, 0 where
    attention is allowed and minus infinity where it is not, and standard
    softmax attention is applied; a disallowed key therefore has weight 0.
    The scores are scaled by the square root of the head dimension. *)
Definition scores (scale : R) (q : list R) (ks : list (list R))
    (mask_row : list bool) : list R :=
  zip_with (fun k (m : bool) => if m then exp (dot q k / scale) else 0%R)
    ks mask_row.

(** Modelled from the spec: the softmax-weighted mean of the values for
    one query of [ring_attention_standard] (section 4.4, standard softmax
    attention).  A query with no allowed key has no softmax over the
    reals: all its weights are 0, and the quotient below is then 0. *)
Definition attend (d : nat) (scale : R) (q : list R) (ks vs : list (list R))
    (mask_row : list bool) : list R :=
  let w := scores scale q ks mask_row in
  (fun c => (sum (zip_with (fun wj vj => wj * default 0 (vj !! c)) w vs)
             / sum w)%R) <$> seq 0 d.

(** Modelled from the spec: [ring_attention_standard] of
    [lwm.ring_attention] on a whole sequence, every query with its row of
    the mask; the shapes must agree. *)
Definition ring_attention_standard (d : nat) (xq xk xv : list slice)
    (attention_mask : list (list bool)) : option (list slice) :=
  if decide (length attention_mask = length xq
             ∧ Forall (fun row => length row = length xk) attention_mask
             ∧ length xv = length xk)
  then Some (zip_with
               (fun heads mask_row =>
                  imap (fun h q =>
                          attend d (sqrt (INR d)) q (head h xk) (head h xv) mask_row)
                       heads)
               xq attention_mask)
  else None.

(** Modelled from the spec: [ring_attention] of [lwm.ring_attention],
    which is imported but not part of the sources.  Section 4.4: queries
    and keys are partitioned into fixed-size chunks; each processing unit
    computes partial attention over its local key/value chunk and passes
    the chunks along a ring, keeping for every query a running maximum, a
    running sum and an output accumulator that are rescaled when the
    maximum grows (a numerically stable softmax over all chunks, the score
    matrix never being formed); key chunks that lie entirely after the
    query chunk are skipped and the others are masked.  The bias is 0
    where attention is allowed and minus infinity where it is not, so that
    a disallowed key has weight 0. *)
Record carry : Type := mk_carry {
  run_max : option R;
  run_sum : R;
  run_out : list R
}.

(** Modelled from the spec: the running maximum of [ring_attention], the
    largest score among the allowed keys of a chunk, if any. *)
Definition chunk_max (s : list R) (allowed : list bool) : option R :=
  foldr (fun (sa : R * bool) (acc : option R) =>
           if sa.2 then Some (match acc with
                              | Some m => Rmax sa.1 m
                              | None => sa.1
                              end)
           else acc)
    None (zip s allowed).

(** Modelled from the spec: the running maximum of [ring_attention] after
    one more chunk. *)
Definition merge_max (a b : option R) : option R :=
  match a, b with
  | Some x, Some y => Some (Rmax x y)
  | Some x, None => Some x
  | None, o => o
  end.

(** Modelled from the spec: the accumulation step of [ring_attention].
    One chunk of scores, allowed flags and values enters the statistics
    of a query: the old sum and accumulator are rescaled to the new
    maximum and the weights of the chunk are added. *)
Definition absorb (d : nat) (c : carry) (s : list R) (allowed : list bool)
    (vs : list (list R)) : carry :=
  match merge_max (run_max c) (chunk_max s allowed) with
  | None => c
  | Some m' =>
      let rescale := match run_max c with
                     | Some m => exp (m - m')%R
                     | None => 0%R
                     end in
      let w := zip_with (fun (sj : R) (a : bool) =>
                           if a then exp (sj - m')%R else 0%R) s allowed in
      mk_carry (Some m') (run_sum c * rescale + sum w)%R
        ((fun k : nat =>
            default 0 (run_out c !! k) * rescale
            + sum (zip_with (fun (wj : R) (vj : list R) =>
                               wj * default 0 (vj !! k)) w vs))%R
         <$> seq 0 d)
  end.

(** Modelled from the spec: the output of a query of [ring_attention]
    once every chunk has been seen. *)
Definition finish (c : carry) : list R :=
  (fun o : R => o / run_sum c)%R <$> run_out c.

(** Modelled from the spec: the fixed-size chunks of [ring_attention],
    chunk number [kc] of size [n] of a list. *)
Definition chunk {A : Type} (n kc : nat) (l : list A) : list A :=
  take n (drop (kc * n) l).

(** Modelled from the spec: the ring of [ring_attention].  The key chunks
    in the order in which the processing unit [dev] sees them: its own
    shard first, then the shards that the ring brings; a shard holds [cps]
    chunks. *)
Definition ring_chunks (sp cps dev : nat) : list nat :=
  rotate dev (seq 0 sp)
  ≫= (fun sh : nat => (fun c : nat => sh * cps + c) <$> seq 0 cps).

(** Modelled from the spec: blockwise attention of [ring_attention] for
    the query at position [i] and one head; the key chunks that start
    after the last position of the query chunk are skipped. *)
Definition blockwise_row (d : nat) (scale : R) (sp q_chunk k_chunk i : nat)
    (q : list R) (ks vs : list (list R)) (allowed : list bool) : list R :=
  let shard := length ks / sp in
  let last_q := i / q_chunk * q_chunk + q_chunk - 1 in
  let visits :=
    filter (fun kc : nat => kc * k_chunk <= last_q)
      (ring_chunks sp (shard / k_chunk) (i / shard)) in
  let s := (fun k : list R => dot q k / scale)%R <$> ks in
  finish
    (foldl (fun (c : carry) (kc : nat) =>
              absorb d c (chunk k_chunk kc s) (chunk k_chunk kc allowed)
                (chunk k_chunk kc vs))
       (mk_carry None 0%R (zeros d)) visits).

(** Modelled from the spec: the mask of [ring_attention] for the query at
    position [i], made of the bias, the causal order and the segments. *)
Definition blockwise_allowed (attention_bias : list bool) (segment_ids : list Z)
    (i : nat) : list bool :=
  zip_with andb
    (zip_with andb attention_bias
       ((fun j : nat => bool_decide (j <= i)) <$> seq 0 (length attention_bias)))
    ((fun sk : Z => bool_decide (default 0%Z (segment_ids !! i) = sk))
     <$> segment_ids).

(** Modelled from the spec: [ring_attention] of [lwm.ring_attention] on a
    whole sequence spread over the [sp] processing units; the mesh axis
    must divide the sequence and the chunk sizes must divide a shard. *)
Definition ring_attention (d sp q_chunk k_chunk : nat) (xq xk xv : list slice)
    (attention_bias : list bool) (segment_ids : list Z) : option (list slice) :=
  let n := length xk in
  if decide (sp ≠ O ∧ q_chunk ≠ O ∧ k_chunk ≠ O
             ∧ n `mod` sp = O
             ∧ (n / sp) `mod` q_chunk = O ∧ (n / sp) `mod` k_chunk = O
             ∧ length xq = n ∧ length xv = n
             ∧ length attention_bias = n ∧ length segment_ids = n)
  then Some (imap (fun (i : nat) (heads : slice) =>
                     imap (fun (h : nat) (q : list R) =>
                             blockwise_row d (sqrt (INR d)) sp q_chunk k_chunk
                               i q (head h xk) (head h xv)
                               (blockwise_allowed attention_bias segment_ids i))
                          heads)
               xq)
  else None.

(** The mask of the decoding branch (a cache exists): a causal mask
    shifted by the cache index, over the whole buffer, combined with the
    attention mask. *)
Definition decode_mask (c : cache) (attention_mask : list bool)
    (query_length : nat) : option (list (list bool)) :=
  let mask_shift := cache_index c in
  let max_decoder_length := length (cached_key c) in
  let causal_mask :=
    (fun q : nat =>
       (fun k : nat =>
          bool_decide (Z.of_nat k <= Array.int32 (Z.of_nat q + mask_shift))%Z)
       <$> seq 0 max_decoder_length) <$> seq 0 query_length in
  am ← broadcast_to_rows attention_mask query_length max_decoder_length;
  combine_masks am causal_mask.

(** The mask of the other branch: the lower-triangular mask of the module
    cut to the lengths, the attention mask and the segment mask. *)
Definition full_mask (self : t) (attention_mask : list bool)
    (segment_ids : list Z) (query_length key_length : nat)
  : option (list (list bool)) :=
  let causal_mask :=
    take key_length <$> take query_length (causal_mask self) in
  let segment_mask :=
    (fun sq : Z => (fun sk : Z => bool_decide (sq = sk)) <$> segment_ids)
      <$> segment_ids in
  am ← broadcast_to_rows attention_mask
         (query_length `min` max_sequence_length self)
         (key_length `min` max_sequence_length self);
  m ← combine_masks am causal_mask;
  combine_masks m segment_mask.

(** The choice between the two masks, on the presence of the cache. *)
Definition attention_bias_mask (self : t) (st : option cache)
    (attention_mask : list bool) (segment_ids : list Z)
    (query_length key_length : nat) : option (list (list bool)) :=
  match st with
  | Some c => decode_mask c attention_mask query_length
  | None => full_mask self attention_mask segment_ids query_length key_length
  end.

(** The keys, values and mask passed to the attention, and the cache
    after the call: through [_concatenate_to_cache] when a cache exists or
    is being initialised. *)
Definition through_cache (self : t) (st : option cache) (init_cache : bool)
    (xk xv xq : list slice) (attention_mask : list (list bool))
  : option (list slice * list slice * list (list bool) * option cache) :=
  if bool_decide (is_Some st) || init_cache
  then r ← _concatenate_to_cache self st xk xv xq attention_mask;
       Some (r.1.1.1, r.1.1.2, r.1.2, Some r.2)
  else Some (xk, xv, attention_mask, st).

(** [ring_attention_sharded] of lines 709-722: [shard_map] of
    [ring_attention_standard] over the mesh.  The keys and the values are
    split along their sequence axis over the mesh axis ['sp']; the
    queries, the query axis of the mask and the output are split over it
    as well unless the query length is 1 ([q_sp_dim]).  An axis that is
    split must divide evenly by the size of the mesh axis, a shape error
    otherwise.  The shards together compute the attention of every query
    over all the keys.  The other mesh axes (['dp'], ['fsdp'] over the
    batch and ['tp'] over the heads) are taken of size 1. *)
Definition ring_attention_sharded (self : t) (xq xk xv : list slice)
    (attention_mask : list (list bool)) : option (list slice) :=
  let q_sp_dim := bool_decide (length xq ≠ 1%nat) in
  let splits (n : nat) : Prop := sp self ≠ O ∧ (n `mod` sp self = O)%nat in
  if decide ((q_sp_dim → splits (length xq))
             ∧ splits (length xk) ∧ splits (length xv)
             ∧ (q_sp_dim → splits (length attention_mask)))
  then ring_attention_standard (head_dim self) xq xk xv attention_mask
  else None.

(** [__call__] on one element of the batch, on the path of lines 685-725
    (standard attention: [scan_attention] is off or the sequence is not
    longer than the chunk sizes), with [deterministic=True] (both dropouts
    are the identity), [fcm_mask=None] and [output_attentions=False].  The
    sharding constraints do not change values.  The result is the
    attention output and the cache variables after the call. *)
Definition __call__ (self : t) (st : option cache)
    (hidden_states : list (list R)) (attention_mask : list bool)
    (segment_ids : list Z) (position_ids : list nat) (init_cache : bool)
  : option (list (list R) * option cache) :=
  xq ← _split_heads self (dense (wq self) <$> hidden_states);
  xk ← _split_heads self (dense (wk self) <$> hidden_states);
  xv ← _split_heads self (dense (wv self) <$> hidden_states);
  qk ← Rotary.apply (freqs_cis self) xq xk position_ids;
  let xq := qk.1 in
  let xk := qk.2 in
  let query_length := length xq in
  let key_length := length xk in
  attention_mask ← attention_bias_mask self st attention_mask segment_ids
                     query_length key_length;
  '(xk, xv, attention_mask, st') ←
    through_cache self st init_cache xk xv xq attention_mask;
  attn_output ← ring_attention_sharded self xq xk xv attention_mask;
  attn_output ← _merge_heads self attn_output;
  Some (fmap (M:=list) (dense (wo self)) attn_output, st').

(** [__call__] on the other path, lines 634-684 (blockwise ring
    attention: [scan_attention] is on and the sequence is longer than both
    chunk sizes), with the same settings.  The attention mask becomes the
    bias, and the causal order and the segment ids are left to
    [ring_attention]. *)
Definition __call__scan (self : t)
    (scan_query_chunk_size scan_key_chunk_size : nat) (st : option cache)
    (hidden_states : list (list R)) (attention_mask : list bool)
    (segment_ids : list Z) (position_ids : list nat) (init_cache : bool)
  : option (list (list R) * option cache) :=
  xq ← _split_heads self (dense (wq self) <$> hidden_states);
  xk ← _split_heads self (dense (wk self) <$> hidden_states);
  xv ← _split_heads self (dense (wv self) <$> hidden_states);
  qk ← Rotary.apply (freqs_cis self) xq xk position_ids;
  let xq := qk.1 in
  let xk := qk.2 in
  '(xk, xv, attention_bias, st') ←
    (if bool_decide (is_Some st) || init_cache
     then r ← _concatenate_to_cache self st xk xv xq attention_mask;
          Some (r.1.1.1, r.1.1.2, r.1.2, Some r.2)
     else Some (xk, xv, attention_mask, st));
  attn_output ← ring_attention (head_dim self) (sp self)
                  scan_query_chunk_size scan_key_chunk_size
                  xq xk xv attention_bias segment_ids;
  attn_output ← _merge_heads self attn_output;
  Some (fmap (M:=list) (dense (wo self)) attn_output, st').

(** The test that sends [__call__] to the blockwise path. *)
Definition takes_scan_path (scan_attention : bool)
    (scan_query_chunk_size scan_key_chunk_size query_length : nat) : bool :=
  scan_attention
  && bool_decide (scan_query_chunk_size `max` scan_key_chunk_size < query_length).

End FlaxLLaMAAttention.

(** *** Worked examples for the attention module *)

Module AttentionExample.

Import FlaxLLaMAAttention.
Local Open Scope R_scope.

(** A module with one head of dimension 2, a table of 8 positions and a
    mesh axis ['sp'] of size 1; the kernels are the identity. *)
Definition self : t :=
  mk 2 1 8 10000 1 [[1; 0]; [0; 1]] [[1; 0]; [0; 1]] [[1; 0]; [0; 1]]
     [[1; 0]; [0; 1]].

(** A full cache of capacity 2: both positions written, the index at 2. *)
Definition full_cache : cache :=
  mk_cache [[[1; 1]]; [[2; 2]]] [[[3; 3]]; [[4; 4]]] 2.

(** A cache of capacity 2 with one position written. *)
Definition half_cache : cache :=
  mk_cache [[[1; 1]]; [[0; 0]]] [[[3; 3]]; [[0; 0]]] 1.

(** Four tokens, hidden vector and position id, a zero-filled cache with
    room for four positions, and an attention mask that hides nothing. *)
Definition tokens : list (list R * nat) :=
  [([1; 0], 0%nat); ([0; 1], 1%nat); ([1; 1], 2%nat); ([2; 1], 3%nat)].
Definition empty_cache : cache :=
  mk_cache (replicate 4 [[0; 0]]) (replicate 4 [[0; 0]]) 0.
Definition no_mask : list bool := replicate 4 true.

(** One and two new positions of keys, values and queries. *)
Definition key1 : list (list (list R)) := [[[5; 5]]].
Definition value1 : list (list (list R)) := [[[6; 6]]].
Definition query1 : list (list (list R)) := [[[7; 7]]].
Definition key2 : list (list (list R)) := [[[5; 5]]; [[6; 6]]].
Definition value2 : list (list (list R)) := [[[7; 7]]; [[8; 8]]].
Definition query2 : list (list (list R)) := [[[9; 9]]; [[9; 9]]].

End AttentionExample.

(** *** Vocabulary of the statements about incremental decoding *)

Module AttentionSpec.

Import Tensor FlaxLLaMAAttention.

(** The shapes that make a call well formed: the heads tile the hidden
    size, the head dimension is even (for the rotary pairs), the three
    input kernels have one column per hidden feature, and the mesh axis
    ['sp'] is not empty. *)
Record well_formed (self : t) : Prop := mk_well_formed {
  wf_heads : num_heads self * head_dim self = embed_dim self;
  wf_even : Nat.Even (head_dim self);
  wf_wq : length (wq self) = embed_dim self;
  wf_wk : length (wk self) = embed_dim self;
  wf_wv : length (wv self) = embed_dim self;
  wf_sp : sp self ≠ O
}.

(** The heads of the projection of one hidden vector by a kernel. *)
Definition heads_of (self : t) (w : list (list R)) (h : list R)
  : list (list R) :=
  Array.chunks (num_heads self) (head_dim self) (dense w h).

(** The query, key and value of a token: its hidden vector [h] projected,
    and for the first two rotated at its position [p]. *)
Definition query (self : t) (tok : list R * nat) : list (list R) :=
  RotarySpec.rotate_pairs (RotarySpec.angles (head_dim self) (theta self) tok.2)
    <$> heads_of self (wq self) tok.1.

Definition key (self : t) (tok : list R * nat) : list (list R) :=
  RotarySpec.rotate_pairs (RotarySpec.angles (head_dim self) (theta self) tok.2)
    <$> heads_of self (wk self) tok.1.

Definition value (self : t) (tok : list R * nat) : list (list R) :=
  heads_of self (wv self) tok.1.

(** The attention of the query of a token over the keys [ks] and values
    [vs] under the mask row [row], head by head. *)
Definition attended (self : t) (ks vs : list (list (list R)))
    (tok : list R * nat) (row : list bool) : list (list R) :=
  imap (fun h q =>
          attend (head_dim self) (sqrt (INR (head_dim self))) q
            (head h ks) (head h vs) row) (query self tok).

(** Causal attention of token number [i] over the tokens [0 .. i], the
    attention mask cut to these positions, through the output kernel. *)
Definition causal_row (self : t) (attention_mask : list bool)
    (toks : list (list R * nat)) (i : nat) (tok : list R * nat) : list R :=
  dense (wo self)
    (concat (attended self (key self <$> take (S i) toks)
               (value self <$> take (S i) toks) tok (take (S i) attention_mask))).

Definition causal_attention (self : t) (attention_mask : list bool)
    (toks : list (list R * nat)) : list (list R) :=
  imap (causal_row self attention_mask toks) toks.

(** A mask row that lets a query see exactly the first [n] keys, as far as
    the attention mask [am] allows. *)
Definition visible (n : nat) (am row : list bool) : Prop :=
  take n row = take n am ∧ Forall (fun b => b = false) (drop n row).

(** The row of a causal mask over [m] keys for the query at position [n]. *)
Definition causal_upto (m n : nat) : list bool :=
  (fun k : nat => bool_decide (k <= n)) <$> seq 0 m.

(** The state of a cache that holds the keys and values of the first [i]
    tokens of [all] and has room for [m] positions. *)
Definition holds (self : t) (c : cache) (all : list (list R * nat))
    (i m : nat) : Prop :=
  cache_index c = Z.of_nat i
  ∧ length (cached_key c) = m ∧ length (cached_value c) = m
  ∧ take i (cached_key c) = key self <$> take i all
  ∧ take i (cached_value c) = value self <$> take i all.

(** The cache after the tokens [i .. i + L - 1] of [all] are written at
    these positions. *)
Definition written (self : t) (c : cache) (all : list (list R * nat))
    (i L : nat) : cache :=
  mk_cache
    (take i (cached_key c) ++ (key self <$> take L (drop i all))
     ++ drop (i + L) (cached_key c))
    (take i (cached_value c) ++ (value self <$> take L (drop i all))
     ++ drop (i + L) (cached_value c))
    (Z.of_nat i + Z.of_nat L).

(** Decoding token by token: one call of [__call__] per token, each on the
    cache left by the one before, the outputs concatenated. *)
Fixpoint decode (self : t) (st : option cache) (attention_mask : list bool)
    (segment_id : Z) (toks : list (list R * nat))
  : option (list (list R) * option cache) :=
  match toks with
  | [] => Some ([], st)
  | tok :: rest =>
      r ← __call__ self st [tok.1] attention_mask [segment_id] [tok.2] false;
      r' ← decode self r.2 attention_mask segment_id rest;
      Some (r.1 ++ r'.1, r'.2)
  end.

End AttentionSpec.

(** *** llama.py: the module-level Mamba hyperparameters *)

Module Hyper.

Definition d_model : nat := 16.
Definition state_size : nat := 1024.
Definition seq_len : nat := 100.
Definition batch_size : nat := 128.

(** [DIFFERENT_H_STATES_RECURRENT_UPDATE_MECHANISM = 0]. *)
Definition DIFFERENT_H_STATES_RECURRENT_UPDATE_MECHANISM : bool := false.

End Hyper.

(** *** llama.py: S6 *)

(** The class is written against the [torch] API ([nn.Linear],
    [nn.einsum], [F.softplus]); it is read with the meaning these calls
    have there.  The [device] arguments place tensors and do not change
    values. *)

Module S6.

Import Tensor.
Local Open Scope R_scope.

(** The attributes read by [discretization] and [forward]: the sizes, the
    three linear layers, the parameter [A_log] of shape
    [d_model, state_size] and the state [h] of shape
    [batch_size, seq_len, d_model, state_size], which [__init__] fills with
    zeros and nothing in the file assigns afterwards. *)
Record t : Type := mk {
  seq_len : nat;
  d_model : nat;
  state_size : nat;
  fc1 : Linear;
  fc2 : Linear;
  fc3 : Linear;
  A_log : list (list R);
  h : list (list (list (list R)))
}.

(** [nn.zeros(b, l, d, n)]. *)
Definition zeros4 (b l d n : nat) : list (list (list (list R))) :=
  replicate b (replicate l (replicate d (zeros n))).

(** An elementwise operation ([nn.einsum('bldn,bldn->bldn', ..)], [+]) on
    two tensors [b, l, d, n], the first two axes broadcast. *)
Definition ewise4 (f : R → R → R) (a b : list (list (list (list R))))
  : option (list (list (list (list R)))) :=
  Broadcast.along
    (fun al bl : list (list (list R)) =>
       Broadcast.along
         (fun ad bd : list (list R) => Some (zip_with (zip_with f) ad bd))
         al bl)
    a b.

(** [nn.einsum('bln,bldn->bld', C, h)]: the contraction over the state. *)
Definition contract (C : list (list (list R))) (h : list (list (list (list R))))
  : option (list (list (list R))) :=
  Broadcast.along
    (fun Cb (hb : list (list (list R))) =>
       Broadcast.along
         (fun (Cl : list R) (hl : list (list R)) =>
            Some ((fun hd : list R => dot Cl hd) <$> hl))
         Cb hb)
    C h.

(** [rearrange(x, "b l d -> b l d 1") * dB]. *)
Definition times_x (x : list (list (list R))) (dB : list (list (list (list R))))
  : list (list (list (list R))) :=
  zip_with (zip_with (zip_with (fun (xv : R) (row : list R) => Rmult xv <$> row)))
    x dB.

(** The three projections at the head of [forward]. *)
Definition B (self : t) (x : list (list (list R))) : list (list (list R)) :=
  (fun xb : list (list R) => linear (fc2 self) <$> xb) <$> x.

Definition C (self : t) (x : list (list (list R))) : list (list (list R)) :=
  (fun xb : list (list R) => linear (fc3 self) <$> xb) <$> x.

Definition delta (self : t) (x : list (list (list R))) : list (list (list R)) :=
  (fun xb : list (list R) =>
     (fun xl : list R => softplus <$> linear (fc1 self) xl) <$> xb) <$> x.

(** [discretization()]: [A = -exp(A_log)],
    [dB = einsum("bld,bln->bldn", delta, B)] and
    [dA = exp(einsum("bld,dn->bldn", delta, A))]. *)
Definition discretization (self : t) (delta B : list (list (list R)))
  : list (list (list (list R))) * list (list (list (list R))) :=
  let A := (fun row : list R => (fun a : R => - exp a) <$> row) <$> A_log self in
  let dB :=
    zip_with (zip_with (fun (dl Bl : list R) =>
                          (fun dv : R => (fun bn : R => dv * bn) <$> Bl) <$> dl))
      delta B in
  let dA :=
    (fun db : list (list R) =>
       (fun dl : list R =>
          zip_with (fun (dv : R) (Ad : list R) =>
                      (fun a : R => exp (dv * a)) <$> Ad) dl A) <$> db)
    <$> delta in
  (dA, dB).

(** The branch of [forward] under the flag: the stored state [self.h]
    (cut to the batch of [x] when the sizes differ) is multiplied by [dA];
    the new state goes to the global [temp_buffer]. *)
Definition forward_stored (self : t) (x : list (list (list R)))
  : option (list (list (list R)) * list (list (list (list R)))) :=
  let B := B self x in
  let C := C self x in
  let delta := delta self x in
  let '(dA, dB) := discretization self delta B in
  let current_batch_size := length x in
  let h_in := if decide (length (h self) ≠ current_batch_size)
              then take current_batch_size (h self) else h self in
  dAh ← ewise4 Rmult dA h_in;
  h_new ← ewise4 Rplus dAh (times_x x dB);
  y ← contract C h_new;
  Some (y, h_new).

(** The other branch: a fresh zero state at every call. *)
Definition forward_fresh (self : t) (x : list (list (list R)))
  : option (list (list (list R))) :=
  let B := B self x in
  let C := C self x in
  let delta := delta self x in
  let '(dA, dB) := discretization self delta B in
  let h := zeros4 (length x) (seq_len self) (d_model self) (state_size self) in
  dAh ← ewise4 Rmult dA h;
  h ← ewise4 Rplus dAh (times_x x dB);
  contract C h.

(** [forward(x)]. *)
Definition forward (self : t) (x : list (list (list R)))
  : option (list (list (list R))) :=
  if Hyper.DIFFERENT_H_STATES_RECURRENT_UPDATE_MECHANISM
  then fst <$> forward_stored self x
  else forward_fresh self x.

End S6.

(** *** Vocabulary of the statements about the S6 recurrence *)

Module S6Spec.

Import Tensor.
Local Open Scope R_scope.

(** One step of the recurrence of the specification,
    [h_t = dA_t * h_(t-1) + x_t * dB_t], on tensors [d, n]. *)
Definition step (dA_t dB_t : list (list R)) (x_t : list R)
    (h_prev : list (list R)) : list (list R) :=
  zip_with (zip_with Rplus)
    (zip_with (zip_with Rmult) dA_t h_prev)
    (zip_with (fun (xv : R) (row : list R) => Rmult xv <$> row) x_t dB_t).

(** The scan over time from the state [h_prev], with the outputs
    [y_t = C_t . h_t]. *)
Fixpoint scan (h_prev : list (list R)) (dA dB : list (list (list R)))
    (x : list (list R)) (C : list (list R)) : list (list R) :=
  match dA, dB, x, C with
  | dA_t :: dA', dB_t :: dB', x_t :: x', C_t :: C' =>
      let h_t := step dA_t dB_t x_t h_prev in
      ((fun hd : list R => dot C_t hd) <$> h_t) :: scan h_t dA' dB' x' C'
  | _, _, _, _ => []
  end.

(** The recurrence on a batch, started from [h_(-1) = 0], with the
    discretisation of the code. *)
Definition recurrence (self : S6.t) (x : list (list (list R)))
  : list (list (list R)) :=
  let '(dA, dB) := S6.discretization self (S6.delta self x) (S6.B self x) in
  (fun r : list (list (list R)) * list (list (list R)) * list (list R)
                                   * list (list R) =>
     scan (replicate (S6.d_model self) (zeros (S6.state_size self)))
       r.1.1.1 r.1.1.2 r.1.2 r.2)
  <$> zip (zip (zip dA dB) x) (S6.C self x).

(** The output of the first step of the scan for the single input row
    [x_t], that is with [h_(t-1)] replaced by the zero state. *)
Definition first_step (self : S6.t) (x_t : list R) : list R :=
  let delta_t := softplus <$> linear (S6.fc1 self) x_t in
  let B_t := linear (S6.fc2 self) x_t in
  let C_t := linear (S6.fc3 self) x_t in
  let A := (fun row : list R => (fun a : R => - exp a) <$> row)
             <$> S6.A_log self in
  let dB_t := (fun dv : R => (fun bn : R => dv * bn) <$> B_t) <$> delta_t in
  let dA_t := zip_with (fun (dv : R) (Ad : list R) =>
                          (fun a : R => exp (dv * a)) <$> Ad) delta_t A in
  (fun hd : list R => dot C_t hd)
  <$> step dA_t dB_t x_t
        (replicate (S6.d_model self) (zeros (S6.state_size self))).

(** The degenerate block of the worked example: one channel, one state,
    two time steps, [A_log = log 1] as [__init__] sets it, the layers
    [fc2] and [fc3] constant 1 and [fc1] constant 0. *)
Definition example : S6.t :=
  S6.mk 2 1 1
    {| W := [[0]]; bias := [0] |}
    {| W := [[0]]; bias := [1] |}
    {| W := [[0]]; bias := [1] |}
    [[0]]
    (S6.zeros4 Hyper.batch_size 2 1 1).

(** The input 1 at both time steps, for a batch of one. *)
Definition example_x : list (list (list R)) := [[[1]; [1]]].

End S6Spec.

(** *** llama.py: MambaBlock *)

Module MambaBlock.

Import Tensor.
Local Open Scope R_scope.

(** The sub-modules: the three linear layers, the S6 block (built on
    [2 * d_model] channels), the weight [seq_len, seq_len, 3] and the bias
    [seq_len] of [nn.Conv1d(seq_len, seq_len, kernel_size=3, padding=1)],
    and the RMSNorm. *)
Record t : Type := mk {
  seq_len : nat;
  d_model : nat;
  inp_proj : Linear;
  out_proj : Linear;
  D : Linear;
  S6 : S6.t;
  conv_weight : list (list (list R));
  conv_bias : list R;
  norm : RMSNorm.t
}.

(** One row of the input of the convolution with its [padding=1]. *)
Definition pad (row : list R) : list R := 0 :: row ++ [0].

(** The three taps of a kernel on a padded row, at output position [j]. *)
Definition tap (kernel : list R) (padded : list R) (j : nat) : R :=
  sum (imap (fun k wk => wk * default 0 (padded !! (j + k)%nat)) kernel).

(** [self.conv(x_proj)] on one element of the batch.  [nn.Conv1d] reads
    its input as [channels, length]: the channels are the [seq_len] rows of
    [x_proj] (its time steps) and the kernel slides along the columns (its
    features).  Output channel [o] at column [j] is
    [bias_o + sum_c sum_k weight_(o,c,k) * padded_c (j + k)].  A number of
    rows other than [seq_len] is a shape error. *)
Definition conv (self : t) (x_proj : list (list R)) : option (list (list R)) :=
  if decide (length x_proj = seq_len self) then
    let L := length (default [] (x_proj !! 0%nat)) in
    Some (zip_with
            (fun (w_o : list (list R)) (b_o : R) =>
               (fun j : nat =>
                  b_o + sum (zip_with (fun w_oc x_c => tap w_oc (pad x_c) j)
                               w_o x_proj))
               <$> seq 0 L)
            (conv_weight self) (conv_bias self))
  else None.

(** [nn.tril(nn.ones(seq_len, 2 * d_model))], on the module-level
    [seq_len] and [d_model]: entry [(t, j)] is 1 when [j <= t]. *)
Definition mask : list (list R) :=
  (fun t : nat =>
     (fun j : nat => if bool_decide (j <= t)%nat then 1 else 0)
     <$> seq 0 (2 * Hyper.d_model))
  <$> seq 0 Hyper.seq_len.

(** [x_conv * mask] on one element of the batch, with broadcasting. *)
Definition masked (x_conv : list (list R)) : option (list (list R)) :=
  Broadcast.along
    (fun row mrow : list R =>
       Broadcast.along (fun a m : R => Some (a * m)) row mrow)
    x_conv mask.

(** The convolution and the mask that follows it. *)
Definition conv_stage (self : t) (x_proj : list (list R))
  : option (list (list R)) :=
  x_conv ← conv self x_proj;
  masked x_conv.

(** [x * attention_mask.unsqueeze(-1)] when a mask is given. *)
Definition apply_attention_mask (x : list (list (list R)))
    (attention_mask : option (list (list R))) : option (list (list (list R))) :=
  match attention_mask with
  | None => Some x
  | Some am =>
      Broadcast.along
        (fun (xb : list (list R)) (mb : list R) =>
           Broadcast.along
             (fun (xl : list R) (m : R) => Some ((fun v : R => v * m) <$> xl))
             xb mb)
        x am
  end.

(** [forward(x, attention_mask)]. *)
Definition forward (self : t) (x : list (list (list R)))
    (attention_mask : option (list (list R)))
  : option (list (list (list R))) :=
  x ← apply_attention_mask x attention_mask;
  let x := (fun xb : list (list R) => RMSNorm.__call__ (norm self) <$> xb) <$> x in
  let x_proj :=
    (fun xb : list (list R) => linear (inp_proj self) <$> xb) <$> x in
  x_conv ← mapM (conv_stage self) x_proj;
  let x_conv_act :=
    (fun xb : list (list R) => (fun xl : list R => silu <$> xl) <$> xb)
    <$> x_conv in
  x_ssm ← S6.forward (S6 self) x_conv_act;
  let x_residual :=
    (fun xb : list (list R) =>
       (fun xl : list R => silu <$> linear (D self) xl) <$> xb) <$> x in
  let x_combined := zip_with (zip_with (zip_with Rmult)) x_ssm x_residual in
  let x_out :=
    (fun xb : list (list R) => linear (out_proj self) <$> xb) <$> x_combined in
  Some x_out.

End MambaBlock.

(** *** Worked example for the Mamba block *)

Module MambaExample.

Import Tensor.
Local Open Scope R_scope.

(** A block on the module-level sizes (100 time steps, 16 channels) whose
    convolution copies input channel 1 to output channel 0 through the
    middle tap and is zero elsewhere; the linear layers are zero. *)
Definition zero_linear (n_in n_out : nat) : Linear :=
  {| W := replicate n_out (replicate n_in 0); bias := replicate n_out 0 |}.

Definition block : MambaBlock.t :=
  MambaBlock.mk Hyper.seq_len Hyper.d_model
    (zero_linear Hyper.d_model (2 * Hyper.d_model))
    (zero_linear (2 * Hyper.d_model) Hyper.d_model)
    (zero_linear Hyper.d_model (2 * Hyper.d_model))
    (S6.mk Hyper.seq_len (2 * Hyper.d_model) 1
       (zero_linear (2 * Hyper.d_model) (2 * Hyper.d_model))
       (zero_linear (2 * Hyper.d_model) 1)
       (zero_linear (2 * Hyper.d_model) 1)
       (replicate (2 * Hyper.d_model) [0])
       (S6.zeros4 Hyper.batch_size Hyper.seq_len (2 * Hyper.d_model) 1))
    ((fun o : nat =>
        (fun c : nat =>
           if bool_decide (o = 0 ∧ c = 1)%nat then [0; 1; 0] else [0; 0; 0])
        <$> seq 0 Hyper.seq_len)
     <$> seq 0 Hyper.seq_len)
    (replicate Hyper.seq_len 0)
    (RMSNorm.mk Hyper.d_model RMSNorm.default_eps (replicate Hyper.d_model 1)).

(** Two inputs of the convolution, [100, 32]: all zero, and all zero but
    for time step 1, which is all one. *)
Definition quiet : list (list R) :=
  replicate Hyper.seq_len (replicate (2 * Hyper.d_model) 0).

Definition pulse_at_1 : list (list R) :=
  <[1%nat := replicate (2 * Hyper.d_model) 1]> quiet.

End MambaExample.

(** *** Vocabulary of the statements about blockwise attention *)

Module RingSpec.

Import Tensor FlaxLLaMAAttention.
Local Open Scope R_scope.

(** The keys seen by a query, each with its score, its allowed flag and
    its value. *)
Definition entries (s : list R) (allowed : list bool) (vs : list (list R))
  : list (R * bool * list R) :=
  zip (zip s allowed) vs.

(** The softmax weight of an entry relative to the maximum [m]. *)
Definition weight (m : R) (e : R * bool * list R) : R :=
  if e.1.2 then exp (e.1.1 - m) else 0.

(** The sum of the weights, and the weighted sum of column [k] of the
    values. *)
Definition wsum (m : R) (E : list (R * bool * list R)) : R :=
  sum (weight m <$> E).

Definition vsum (m : R) (k : nat) (E : list (R * bool * list R)) : R :=
  sum ((fun e => weight m e * default 0 (e.2 !! k)) <$> E).

(** The running statistics [c] summarise the entries [E]. *)
Definition tracks (d : nat) (c : carry) (E : list (R * bool * list R)) : Prop :=
  match run_max c with
  | Some m =>
      run_sum c = wsum m E
      ∧ run_out c = (fun k : nat => vsum m k E) <$> seq 0 d
  | None =>
      run_sum c = 0 ∧ run_out c = zeros d
      ∧ Forall (fun e : R * bool * list R => e.1.2 = false) E
  end.

End RingSpec.

(** *** Worked example for the two paths of the attention call *)

Module RingExample.

Import FlaxLLaMAAttention.
Local Open Scope R_scope.

(** The identity kernel of size [n]. *)
Definition eye (n : nat) : list (list R) :=
  (fun i : nat =>
     (fun j : nat => if decide (i = j) then 1 else 0) <$> seq 0 n)
  <$> seq 0 n.

(** A module with two heads of dimension 4, a table of 8 positions and a
    mesh axis ['sp'] of size 2; the kernels are the identity. *)
Definition self : t := mk 8 2 8 10000 2 (eye 8) (eye 8) (eye 8) (eye 8).

(** Eight tokens, hidden vector and position id, one segment, and an
    attention mask that hides nothing. *)
Definition tokens : list (list R * nat) := zip (eye 8) (seq 0 8).
Definition no_mask : list bool := replicate 8 true.
Definition one_segment : list Z := replicate 8 0%Z.

End RingExample.

(** *** llama.py: LLaMATokenizer, the functions on lists of token ids *)

Module LLaMATokenizer.

Local Open Scope Z_scope.

(** The attributes read by these functions; [bos_token_id] and
    [eos_token_id] are what the sentencepiece model answers. *)
Record t : Type := mk {
  add_bos_token : bool;
  add_eos_token : bool;
  bos_token_id : Z;
  eos_token_id : Z
}.

(** [build_inputs_with_special_tokens(token_ids_0, token_ids_1=None)]. *)
Definition build_inputs_with_special_tokens (self : t) (token_ids_0 : list Z)
    (token_ids_1 : option (list Z)) : list Z :=
  let bos_token_ids := if add_bos_token self then [bos_token_id self] else [] in
  let output := bos_token_ids ++ token_ids_0 in
  let output := match token_ids_1 with
                | Some ids => output ++ ids
                | None => output
                end in
  let output := if add_eos_token self then output ++ [eos_token_id self]
                else output in
  output.

Section SpecialTokensMask.

(** The method of the parent class, which looks the ids up among the
    special ids when the list already has its special tokens. *)
Variable super_get_special_tokens_mask : list Z → option (list Z) → list Z.

(** [get_special_tokens_mask(token_ids_0, token_ids_1=None,
    already_has_special_tokens=False)]. *)
Definition get_special_tokens_mask (token_ids_0 : list Z)
    (token_ids_1 : option (list Z)) (already_has_special_tokens : bool)
  : list Z :=
  if already_has_special_tokens
  then super_get_special_tokens_mask token_ids_0 token_ids_1
  else match token_ids_1 with
       | None => [1] ++ Py.repeat 0 (Py.len token_ids_0) ++ [1]
       | Some ids =>
           [1] ++ Py.repeat 0 (Py.len token_ids_0) ++ [1; 1]
           ++ Py.repeat 0 (Py.len ids) ++ [1]
       end.

End SpecialTokensMask.

(** [create_token_type_ids_from_sequences(token_ids_0, token_ids_1=None)]. *)
Definition create_token_type_ids_from_sequences (self : t)
    (token_ids_0 : list Z) (token_ids_1 : option (list Z)) : list Z :=
  let eos := [eos_token_id self] in
  match token_ids_1 with
  | None => Py.repeat 0 (Py.len (token_ids_0 ++ eos))
  | Some ids => Py.repeat 0 (Py.len (token_ids_0 ++ eos ++ ids ++ eos))
  end.

End LLaMATokenizer.

(** *** llama.py: LLaMAConfig *)

Module LLaMAConfig.

Local Open Scope Z_scope.

(** Python's [a // b] and [a % b] on integers: both round towards minus
    infinity and raise [ZeroDivisionError] on a zero divisor. *)
Definition floordiv (a b : Z) : option Z :=
  if decide (b = 0) then None else Some (a / b).
Definition pymod (a b : Z) : option Z :=
  if decide (b = 0) then None else Some (a `mod` b).

(** The entries that [get_ranks_and_size] adds to its result beside the
    mesh itself. *)
Record ranks : Type := mk_ranks {
  mp_node_size : Z;
  dp_node_size : Z;
  dp_node_rank : Z;
  mp_node_rank : Z
}.

(** [get_ranks_and_size(mesh)]: [tp] and [sp] are [mesh.shape['tp']] and
    [mesh.shape['sp']]; the three other arguments are what
    [jax.local_device_count()], [jax.process_count()] and
    [jax.process_index()] answer. *)
Definition get_ranks_and_size (tp sp : Z)
    (local_device_count process_count process_index : Z) : option ranks :=
  let mp_size := tp * sp in
  q ← floordiv mp_size local_device_count;
  let mp_node_size := Z.max 1 q in
  dp_node_size ← floordiv process_count mp_node_size;
  dp_node_rank ← floordiv process_index mp_node_size;
  mp_node_rank ← pymod process_index mp_node_size;
  Some (mk_ranks mp_node_size dp_node_size dp_node_rank mp_node_rank).

(** One entry of a [PartitionSpec]: [None], one mesh axis, or a tuple of
    mesh axes. *)
Inductive axis : Type :=
| Unsharded
| Along (name : string)
| AlongAll (names : list string).

(** [get_partition_rules(scan_layers=False, scan_axis=0)]: the ordered
    pairs of a pattern and a [PartitionSpec]; [ValueError] on a scan axis
    other than 0 and 1 when the layers are scanned. *)
Definition get_partition_rules (scan_layers : bool) (scan_axis : Z)
  : option (list (string * list axis)) :=
  let fsdp_sp := AlongAll ["fsdp"; "sp"]%string in
  let tp := Along "tp"%string in
  if scan_layers then
    if decide (scan_axis = 0) then
      Some [ ("transformer/wte/embedding", [tp; fsdp_sp]);
             ("attention/(wq|wk|wv)/kernel", [Unsharded; fsdp_sp; tp]);
             ("attention/wo/kernel", [Unsharded; tp; fsdp_sp]);
             ("feed_forward/w1/kernel", [Unsharded; fsdp_sp; tp]);
             ("feed_forward/w2/kernel", [Unsharded; tp; fsdp_sp]);
             ("feed_forward/w3/kernel", [Unsharded; fsdp_sp; tp]);
             ("attention_norm/kernel", [Unsharded; Unsharded]);
             ("ffn_norm/kernel", [Unsharded; Unsharded]);
             ("transformer/ln_f/kernel", [Unsharded]);
             ("lm_head/kernel", [fsdp_sp; tp]);
             (".*", [Unsharded]) ]%string
    else if decide (scan_axis = 1) then
      Some [ ("transformer/wte/embedding", [tp; fsdp_sp]);
             ("attention/(wq|wk|wv)/kernel", [fsdp_sp; Unsharded; tp]);
             ("attention/wo/kernel", [tp; Unsharded; fsdp_sp]);
             ("feed_forward/w1/kernel", [fsdp_sp; Unsharded; tp]);
             ("feed_forward/w2/kernel", [tp; Unsharded; fsdp_sp]);
             ("feed_forward/w3/kernel", [fsdp_sp; Unsharded; tp]);
             ("attention_norm/kernel", [Unsharded; Unsharded]);
             ("ffn_norm/kernel", [Unsharded; Unsharded]);
             ("transformer/ln_f/kernel", [Unsharded]);
             ("lm_head/kernel", [fsdp_sp; tp]);
             (".*", [Unsharded]) ]%string
    else None
  else
    Some [ ("transformer/wte/embedding", [tp; fsdp_sp]);
           ("attention/(wq|wk|wv)/kernel", [fsdp_sp; tp]);
           ("attention/wo/kernel", [tp; fsdp_sp]);
           ("feed_forward/w1/kernel", [fsdp_sp; tp]);
           ("feed_forward/w2/kernel", [tp; fsdp_sp]);
           ("feed_forward/w3/kernel", [fsdp_sp; tp]);
           ("attention_norm/kernel", [Unsharded]);
           ("ffn_norm/kernel", [Unsharded]);
           ("transformer/ln_f/kernel", [Unsharded]);
           ("lm_head/kernel", [fsdp_sp; tp]);
           (".*", [Unsharded]) ]%string.

(** One value of [LLAMA_STANDARD_CONFIGS]. *)
Record standard_config : Type := mk_standard {
  vocab_size : Z;
  hidden_size : Z;
  intermediate_size : Z;
  num_hidden_layers : Z;
  num_attention_heads : Z;
  max_sequence_length : Z;
  initializer_range : R;
  rms_norm_eps : R;
  use_cache : bool;
  tie_word_embeddings : bool
}.

Definition LLAMA_STANDARD_CONFIGS : list (string * standard_config) :=
  [ ("200m"%string,
     mk_standard 32000 1024 2048 14 8 2048 (2 / 100) (/ 1000000) true false);
    ("1b"%string,
     mk_standard 32000 2048 5504 22 16 2048 (2 / 100) (/ 1000000) true false);
    ("3b"%string,
     mk_standard 32000 3200 8640 26 32 2048 (2 / 100) (/ 1000000) true false);
    ("7b"%string,
     mk_standard 32000 4096 11008 32 32 4096 (2 / 100) (/ 1000000) true false);
    ("13b"%string,
     mk_standard 32000 5120 13824 40 40 2048 (2 / 100) (/ 1000000) true false);
    ("30b"%string,
     mk_standard 32000 6656 17920 60 52 2048 (2 / 100) (/ 1000000) true false);
    ("65b"%string,
     mk_standard 32000 8192 22016 80 64 2048 (2 / 100) (/ 100000) true false);
    ("debug"%string,
     mk_standard 32000 256 256 2 2 2048 (2 / 100) (/ 1000000) true false) ].

(** [LLAMA_STANDARD_CONFIGS[path]] when [path in LLAMA_STANDARD_CONFIGS]. *)
Fixpoint lookup (path : string) (d : list (string * standard_config))
  : option standard_config :=
  match d with
  | [] => None
  | (k, v) :: r => if String.eqb path k then Some v else lookup path r
  end.

(** [path.split('::', 1)] unpacked into two names: the text before and
    after the first ['::']; without one the unpacking raises. *)
Fixpoint split_once (s : string) : option (string * string) :=
  match s with
  | EmptyString => None
  | String a r =>
      match r with
      | EmptyString => None
      | String b r' =>
          if Ascii.eqb a ":"%char && Ascii.eqb b ":"%char then Some (EmptyString, r')
          else (fun p : string * string => (String a p.1, p.2)) <$> split_once r
      end
  end.

(** The dict that [load_config] passes to [cls.from_dict]: a standard
    one, or the one read from the pickle or the json file at [load_path]. *)
Inductive source : Type :=
| Standard (d : standard_config)
| Pickle (load_path : string)
| Json (load_path : string).

(** [load_config(path)], up to the reading of the file. *)
Definition load_config (path : string) : option source :=
  match lookup path LLAMA_STANDARD_CONFIGS with
  | Some d => Some (Standard d)
  | None =>
      '(load_type, load_path) ← split_once path;
      if String.eqb load_type "pickle"%string then Some (Pickle load_path)
      else if String.eqb load_type "json"%string then Some (Json load_path)
      else None
  end.

End LLaMAConfig.

(** *** Vocabulary of the statements about the configuration *)

Module ConfigSpec.

(** The text holds a colon. *)
Fixpoint has_colon (s : string) : bool :=
  match s with
  | EmptyString => false
  | String a r => Ascii.eqb a ":"%char || has_colon r
  end.

(** The pattern names a parameter inside the stack of layers. *)
Definition in_layer (pattern : string) : bool :=
  String.prefix "attention"%string pattern
  || String.prefix "feed_forward"%string pattern
  || String.prefix "ffn_norm"%string pattern.

(** The specification with one more unsharded axis at position [i]. *)
Definition with_axis_at (i : nat) (spec : list LLaMAConfig.axis)
  : list LLaMAConfig.axis :=
  take i spec ++ LLaMAConfig.Unsharded :: drop i spec.

End ConfigSpec.

(** *** llama.py: the default inputs of the model calls and the inputs of
    generation, on one row of the batch *)

Module Inputs.

Local Open Scope Z_scope.

(** [jnp.cumsum(x, axis=-1)] on an [int32] row. *)
Fixpoint cumsum_from (acc : Z) (x : list Z) : list Z :=
  match x with
  | [] => []
  | a :: r => let s := Array.int32 (acc + a) in s :: cumsum_from s r
  end.

Definition cumsum (x : list Z) : list Z := cumsum_from 0 x.

(** [jnp.arange(n)] with dtype [int32]. *)
Definition arange (n : nat) : list Z :=
  (fun i : nat => Array.int32 (Z.of_nat i)) <$> seq 0 n.

(** [jnp.broadcast_to(x, (batch_size, n))] along the last axis: the row
    has [n] entries, or one entry that is repeated; otherwise the shapes
    are incompatible. *)
Definition broadcast_to {A : Type} (x : list A) (n : nat) : option (list A) :=
  if decide (length x = n) then Some x
  else match x with
       | [a] => Some (replicate n a)
       | _ => None
       end.

End Inputs.

Module FlaxLLaMAPreTrainedModel.

Import Inputs.
Local Open Scope Z_scope.

(** The head of [__call__] (lines 1205-1216): the attention mask, the
    segment ids and the position ids that are passed to the module, for an
    input row of [sequence_length] tokens.  Position ids cannot be left
    out when [past_key_values] is given. *)
Definition call_inputs (sequence_length : nat)
    (attention_mask segment_ids position_ids : option (list Z))
    (has_past_key_values : bool) : option (list Z * list Z * list Z) :=
  position_ids ←
    match position_ids with
    | Some p => Some p
    | None => if has_past_key_values then None
              else broadcast_to (arange sequence_length) sequence_length
    end;
  let attention_mask := default (replicate sequence_length 1) attention_mask in
  let segment_ids := default (replicate sequence_length 0) segment_ids in
  Some (attention_mask, segment_ids, position_ids).

End FlaxLLaMAPreTrainedModel.

Module FlaxLLaMAForCausalLMModule.

Import Inputs.
Local Open Scope Z_scope.

(** The head of [__call__] (lines 1482-1491): the attention mask, the
    segment ids and the position ids that are passed on when they are left
    out; the position ids count the attended positions before each one. *)
Definition call_inputs (input_ids : list Z)
    (attention_mask segment_ids position_ids : option (list Z))
  : option (list Z * list Z * list Z) :=
  let seq_length := length input_ids in
  let attention_mask := default (replicate seq_length 1) attention_mask in
  let segment_ids := default (replicate seq_length 0) segment_ids in
  position_ids ←
    match position_ids with
    | Some p => Some p
    | None =>
        broadcast_to
          ((fun c : Z => Z.max (Array.int32 (c - 1)) 0) <$> cumsum attention_mask)
          seq_length
    end;
  Some (attention_mask, segment_ids, position_ids).

End FlaxLLaMAForCausalLMModule.

Module FlaxLLaMAForCausalLM.

Import Inputs.
Local Open Scope Z_scope.

(** [prepare_inputs_for_generation(input_ids, max_length, attention_mask)]
    on one row: the extended attention mask and the position ids.  The
    third entry of the result, [past_key_values], is the cache that
    [init_cache] creates and is not part of this model. *)
Definition prepare_inputs_for_generation (input_ids : list Z)
    (max_length : nat) (attention_mask : option (list Z))
  : option (list Z * list Z) :=
  let seq_length := length input_ids in
  let extended_attention_mask := replicate max_length 1 in
  match attention_mask with
  | Some am =>
      let position_ids := (fun c : Z => Array.int32 (c - 1)) <$> cumsum am in
      extended_attention_mask ←
        Array.dynamic_update_slice extended_attention_mask am 0;
      Some (extended_attention_mask, position_ids)
  | None =>
      position_ids ← broadcast_to (arange seq_length) seq_length;
      Some (extended_attention_mask, position_ids)
  end.

(** [update_inputs_for_generation(model_outputs, model_kwargs)]: the cache
    of the outputs replaces that of the arguments, and the position ids
    become [position_ids[:, -1:] + 1]. *)
Definition update_inputs_for_generation {K : Type} (model_outputs : K)
    (model_kwargs : K * list Z) : K * list Z :=
  let position_ids := model_kwargs.2 in
  (model_outputs,
   (fun p : Z => Array.int32 (p + 1))
   <$> drop (length position_ids - 1) position_ids).

End FlaxLLaMAForCausalLM.

(** *** Worked example for the tokens that the attention reads *)

Module MaskExample.

Local Open Scope R_scope.

(** The four tokens of [AttentionExample.tokens] with another token at
    the positions 1 and 3, and an attention mask that hides position 1. *)
Definition other_tokens : list (list R * nat) :=
  [([1; 0], 0%nat); ([5; 5], 1%nat); ([1; 1], 2%nat); ([9; 9], 3%nat)].
Definition mask : list bool := [true; false; true; true].

End MaskExample.

(** *** llama.py: S6.inverse_softplus *)

Module S6Init.

Local Open Scope R_scope.

(** [inverse_softplus(y) = log(exp(y) - 1)], with which [__init__] turns
    samples of the uniform distribution on [0.001, 0.1] into the initial
    [delta]. *)
Definition inverse_softplus (y : R) : R := ln (exp y - 1).

End S6Init.

(** *** llama.py: FlaxLLaMAMLP and FlaxLLaMABlock *)

Module FlaxLLaMAMLP.

Import Tensor.

(** The three kernels, without bias: [w1] and [w3] have
    [intermediate_size] output features, [w2] has [hidden_size]. *)
Record t : Type := mk {
  w1 : list (list R);
  w2 : list (list R);
  w3 : list (list R)
}.

(** [__call__(x, deterministic=True)] on one position: the dropout is the
    identity. *)
Definition __call__ (self : t) (x : list R) : list R :=
  dense (w2 self) (mul (silu <$> dense (w1 self) x) (dense (w3 self) x)).

End FlaxLLaMAMLP.

Module FlaxLLaMABlock.

Import Tensor.

Record t : Type := mk {
  attention : FlaxLLaMAAttention.t;
  feed_forward : FlaxLLaMAMLP.t;
  attention_norm : RMSNorm.t;
  ffn_norm : RMSNorm.t
}.

(** [a + b] on two tensors [seq, features], with broadcasting. *)
Definition add2 (a b : list (list R)) : option (list (list R)) :=
  Broadcast.along
    (fun ra rb : list R => Broadcast.along (fun u v : R => Some (u + v)%R) ra rb)
    a b.

(** [__call__] on one element of the batch, with [deterministic=True],
    [fcm_mask=None], the attention on its standard path and the
    feed-forward applied directly ([scan_mlp] off, or a sequence shorter
    than [scan_mlp_chunk_size]).  The result is the hidden states and the
    cache variables of the attention after the call. *)
Definition __call__ (self : t) (st : option FlaxLLaMAAttention.cache)
    (hidden_states : list (list R)) (attention_mask : list bool)
    (segment_ids : list Z) (position_ids : list nat) (init_cache : bool)
  : option (list (list R) * option FlaxLLaMAAttention.cache) :=
  attn_outputs ←
    FlaxLLaMAAttention.__call__ (attention self) st
      (RMSNorm.__call__ (attention_norm self) <$> hidden_states)
      attention_mask segment_ids position_ids init_cache;
  let attn_output := attn_outputs.1 in
  hidden_states ← add2 hidden_states attn_output;
  let feed_forward_input := RMSNorm.__call__ (ffn_norm self) <$> hidden_states in
  let feed_forward_hidden_states :=
    FlaxLLaMAMLP.__call__ (feed_forward self) <$> feed_forward_input in
  hidden_states ← add2 hidden_states feed_forward_hidden_states;
  Some (hidden_states, attn_outputs.2).

End FlaxLLaMABlock.

(** *** Vocabulary of the statements about the transformer block *)

Module BlockSpec.

Import Tensor.

(** The tokens as the attention of the block gets them: the hidden vector
    through the attention norm, with the position id. *)
Definition normed (self : FlaxLLaMABlock.t) (toks : list (list R * nat))
  : list (list R * nat) :=
  (fun t : list R * nat =>
     (RMSNorm.__call__ (FlaxLLaMABlock.attention_norm self) t.1, t.2)) <$> toks.

(** The feed-forward half of the block on one position: the residual sum
    of the hidden vector and of the feed-forward of its normalised
    version. *)
Definition fed (self : FlaxLLaMABlock.t) (h : list R) : list R :=
  zip_with Rplus h
    (FlaxLLaMAMLP.__call__ (FlaxLLaMABlock.feed_forward self)
       (RMSNorm.__call__ (FlaxLLaMABlock.ffn_norm self) h)).

(** The two sequences have the same length and the same tokens at
    position [i] and at the positions up to [i] that the attention mask
    lets through. *)
Definition agree (i : nat) (am : list bool) (toks toks' : list (list R * nat))
  : Prop :=
  length toks' = length toks
  ∧ (∀ j : nat, j <= i → am !! j = Some true → toks !! j = toks' !! j)
  ∧ toks !! i = toks' !! i.

(** A norm over [H] features: a positive [eps] (the square root is then
    taken of a positive number) and a kernel of length [H]. *)
Definition fits_norm (H : nat) (n : RMSNorm.t) : Prop :=
  (0 < RMSNorm.eps n)%R ∧ length (RMSNorm.weight n) = H.

(** The block can be called on the tokens: its attention is well formed,
    its kernels return [H] features, its two norms are over [H] features,
    the position ids are inside its table, which has room for the
    sequence, the mesh axis ['sp'] divides the length of the sequence, and
    every hidden vector has [H] features. *)
Definition fits (H : nat) (toks : list (list R * nat))
    (self : FlaxLLaMABlock.t) : Prop :=
  AttentionSpec.well_formed (FlaxLLaMABlock.attention self)
  ∧ length (FlaxLLaMAAttention.wo (FlaxLLaMABlock.attention self)) = H
  ∧ length (FlaxLLaMAMLP.w2 (FlaxLLaMABlock.feed_forward self)) = H
  ∧ fits_norm H (FlaxLLaMABlock.attention_norm self)
  ∧ fits_norm H (FlaxLLaMABlock.ffn_norm self)
  ∧ (length toks `mod` FlaxLLaMAAttention.sp (FlaxLLaMABlock.attention self)
     = 0)%nat
  ∧ length toks
    <= FlaxLLaMAAttention.max_sequence_length (FlaxLLaMABlock.attention self)
  ∧ Forall (fun tok : list R * nat =>
              tok.2 < FlaxLLaMAAttention.max_sequence_length
                        (FlaxLLaMABlock.attention self)
              ∧ length tok.1 = H) toks.

End BlockSpec.

(** *** llama.py: FlaxLLaMABlockCollection *)

Module FlaxLLaMABlockCollection.

(** [__call__] on one element of the batch, with [deterministic=True] (no
    forgetful causal mask) and without the optional outputs: the blocks
    are applied in order, each with its own parameters and its own cache
    variables.  The loop over the blocks and the scan over the layers both
    compute this. *)
Fixpoint __call__
    (layers : list (FlaxLLaMABlock.t * option FlaxLLaMAAttention.cache))
    (hidden_states : list (list R)) (attention_mask : list bool)
    (segment_ids : list Z) (position_ids : list nat) (init_cache : bool)
  : option (list (list R) * list (option FlaxLLaMAAttention.cache)) :=
  match layers with
  | [] => Some (hidden_states, [])
  | (block, st) :: rest =>
      layer_outputs ← FlaxLLaMABlock.__call__ block st hidden_states
                        attention_mask segment_ids position_ids init_cache;
      outputs ← __call__ rest layer_outputs.1 attention_mask segment_ids
                  position_ids init_cache;
      Some (outputs.1, layer_outputs.2 :: outputs.2)
  end.

End FlaxLLaMABlockCollection.

(** *** Worked example for the transformer block *)

Module BlockExample.

Local Open Scope R_scope.

(** A block on the attention module of [AttentionExample], with identity
    kernels in the feed-forward and unit kernels in the two norms. *)
Definition block : FlaxLLaMABlock.t :=
  FlaxLLaMABlock.mk AttentionExample.self
    (FlaxLLaMAMLP.mk [[1; 0]; [0; 1]] [[1; 0]; [0; 1]] [[1; 0]; [0; 1]])
    (RMSNorm.mk 2 RMSNorm.default_eps [1; 1])
    (RMSNorm.mk 2 RMSNorm.default_eps [1; 1]).

End BlockExample.

(** *** A Mamba block for two time steps *)

Module ShortMambaExample.

Import Tensor.
Local Open Scope R_scope.

(** The block of [MambaExample] rebuilt for sequences of two time steps,
    with a zero convolution. *)
Definition block : MambaBlock.t :=
  MambaBlock.mk 2 Hyper.d_model
    (MambaBlock.inp_proj MambaExample.block)
    (MambaBlock.out_proj MambaExample.block)
    (MambaBlock.D MambaExample.block)
    (MambaBlock.S6 MambaExample.block)
    [[[0; 0; 0]; [0; 0; 0]]; [[0; 0; 0]; [0; 0; 0]]]
    [0; 0]
    (MambaBlock.norm MambaExample.block).

(** One batch element of two time steps. *)
Definition x : list (list (list R)) :=
  [[replicate Hyper.d_model 0; replicate Hyper.d_model 0]].

End ShortMambaExample.

(** ** Part II.  Properties *)

(** *** Index resolution of the dataset *)

Section Resolve.

Import PileRandomIODataset.
Local Open Scope Z_scope.

Lemma add_largest (v : Z) (l : list Z) :
  Forall (fun x => x <= v) l → SortedList.add v l = l ++ [v].
Proof.
  induction l as [|x r IH]; intros Hall; [reflexivity|].
  inversion Hall as [|? ? Hx Hr]; subst. simpl.
  destruct (Z.ltb_spec v x); [lia|].
  by rewrite IH.
Qed.

Lemma sumZ_nonneg (l : list Z) :
  Forall (fun c => 0 <= c) l → 0 <= Shards.sumZ l.
Proof. induction 1; simpl; lia. Qed.

Lemma sumZ_app (l1 l2 : list Z) :
  Shards.sumZ (l1 ++ l2) = Shards.sumZ l1 + Shards.sumZ l2.
Proof. induction l1; simpl; lia. Qed.

(** What the loop of [__init__] builds from a state whose keys are all
    below the running length: the paths in order, and the running totals,
    which [SortedList.add] leaves in insertion order because a row count
    is never negative. *)
Lemma init_loop (shards : list (string * Z)) (self : t) :
  Forall (fun s => 0 <= s.2) shards →
  Forall (fun x => x <= length_ self) (index_keys self) →
  index (fold_left init_step shards self) = index self ++ shards.*1
  ∧ index_keys (fold_left init_step shards self)
    = index_keys self ++ Shards.running (length_ self) (shards.*2)
  ∧ length_ (fold_left init_step shards self)
    = length_ self + Shards.sumZ (shards.*2).
Proof.
  revert self. induction shards as [|[fpath n] r IH]; intros self Hn Hk; simpl.
  - rewrite !app_nil_r. repeat split; try done. lia.
  - inversion Hn as [|? ? Hn0 Hr]; subst. simpl in Hn0.
    assert (Hk' : Forall (fun x => x <= length_ self + n) (index_keys self))
      by (eapply Forall_impl; [exact Hk|simpl; intros; lia]).
    destruct (IH (init_step self (fpath, n)) Hr) as (Hi & Hks & Hl).
    + simpl. rewrite add_largest by done.
      apply Forall_app. split; [done|]. repeat constructor. lia.
    + simpl in Hi, Hks, Hl. rewrite Hi, Hks, Hl. rewrite add_largest by done.
      rewrite <- !app_assoc. simpl. repeat split; try done.
      symmetry. apply Z.add_assoc.
Qed.

Lemma init_fields (shards : list (string * Z)) (msl pid : Z) :
  Forall (fun s => 0 <= s.2) shards →
  index (__init__ shards msl pid) = shards.*1
  ∧ index_keys (__init__ shards msl pid) = Shards.running 0 (shards.*2)
  ∧ __len__ (__init__ shards msl pid) = Shards.sumZ (shards.*2).
Proof.
  intros Hn. unfold __init__, __len__.
  edestruct (init_loop shards) as (Hi & Hk & Hl); [exact Hn| |].
  2: { rewrite Hi, Hk, Hl. simpl. done. }
  constructor.
Qed.

Lemma running_lookup (acc : Z) (counts : list Z) (k : nat) :
  (k < length counts)%nat →
  Shards.running acc counts !! k = Some (acc + Shards.cumulative counts k).
Proof.
  revert acc k. induction counts as [|c r IH]; intros acc k Hk; simpl in *; [lia|].
  destruct k as [|k]; simpl.
  - unfold Shards.cumulative. simpl. f_equal. lia.
  - rewrite IH by lia. unfold Shards.cumulative. simpl. f_equal. lia.
Qed.

Lemma running_length (acc : Z) (counts : list Z) :
  length (Shards.running acc counts) = length counts.
Proof. revert acc. induction counts; intros; simpl; auto. Qed.

(** The bisection finds the shard whose range of global indices holds [g]. *)
Lemma bisect_running (acc g : Z) (counts : list Z) :
  Forall (fun c => 0 <= c) counts →
  acc <= g < acc + Shards.sumZ counts →
  (SortedList.bisect_left (Shards.running acc counts) (g + 1) < length counts)%nat
  ∧ acc + Shards.before counts
            (SortedList.bisect_left (Shards.running acc counts) (g + 1)) <= g
  ∧ g < acc + Shards.cumulative counts
            (SortedList.bisect_left (Shards.running acc counts) (g + 1)).
Proof.
  revert acc. induction counts as [|c r IH]; intros acc Hn Hg; simpl in *; [lia|].
  inversion Hn as [|? ? Hc Hr]; subst.
  destruct (Z.ltb_spec (acc + c) (g + 1)) as [Hlt|Hge].
  - destruct (IH (acc + c) Hr) as (Hk & Hlo & Hhi); [lia|].
    unfold Shards.before, Shards.cumulative in *. simpl. split; [lia|]. lia.
  - unfold Shards.before, Shards.cumulative. simpl.
    split; lia.
Qed.

(** Past the last row the bisection runs off the end of the list. *)
Lemma bisect_running_past (acc g : Z) (counts : list Z) :
  Forall (fun c => 0 <= c) counts →
  acc + Shards.sumZ counts <= g →
  SortedList.bisect_left (Shards.running acc counts) (g + 1) = length counts.
Proof.
  revert acc. induction counts as [|c r IH]; intros acc Hn Hg; simpl in *; [done|].
  inversion Hn as [|? ? Hc Hr]; subst.
  pose proof (sumZ_nonneg r Hr).
  destruct (Z.ltb_spec (acc + c) (g + 1)); [|lia].
  rewrite IH; [done|done|lia].
Qed.

Lemma before_mono (counts : list Z) (j k : nat) :
  Forall (fun c => 0 <= c) counts →
  (j <= k)%nat → Shards.before counts j <= Shards.before counts k.
Proof.
  intros Hn Hjk. unfold Shards.before.
  rewrite <- (take_drop j (take k counts)).
  rewrite take_take, Nat.min_l, sumZ_app by lia.
  assert (0 <= Shards.sumZ (drop j (take k counts))); [|lia].
  apply sumZ_nonneg. by apply Forall_drop, Forall_take.
Qed.

Lemma before_succ (counts : list Z) (k : nat) :
  Shards.before counts (S k) = Shards.cumulative counts k.
Proof. reflexivity. Qed.

Lemma resolve_in_range (shards : list (string * Z)) (msl pid g : Z) :
  Forall (fun s => 0 <= s.2) shards →
  0 <= g < Shards.sumZ (shards.*2) →
  ∃ (k : nat) (fpath : string),
    _get_db_and_idx (__init__ shards msl pid) g
    = Some (fpath, g - Shards.before (shards.*2) k)
    ∧ shards.*1 !! k = Some fpath
    ∧ g < Shards.cumulative (shards.*2) k
    ∧ (∀ j : nat, (j < k)%nat → Shards.cumulative (shards.*2) j <= g).
Proof.
  intros Hn Hg.
  assert (Hc : Forall (fun c => 0 <= c) (shards.*2))
    by (apply Forall_fmap; exact Hn).
  destruct (init_fields shards msl pid Hn) as (Hi & Hk & _).
  destruct (bisect_running 0 g (shards.*2) Hc) as (Hlt & Hlo & Hhi); [lia|].
  set (k := SortedList.bisect_left (Shards.running 0 (shards.*2)) (g + 1)) in *.
  assert (Hlen : (k < length (shards.*1))%nat)
    by (rewrite length_fmap; rewrite length_fmap in Hlt; exact Hlt).
  destruct (lookup_lt_is_Some_2 _ _ Hlen) as [fpath Hf].
  exists k, fpath. split; [|split; [exact Hf|split; [lia|]]].
  - unfold _get_db_and_idx. rewrite Hi, Hk. fold k. rewrite Hf. simpl.
    destruct (decide (k = O)) as [->|Hk0]; simpl.
    + do 3 f_equal.
    + rewrite running_lookup by lia. simpl. do 2 f_equal.
      rewrite <- before_succ. replace (S (k - 1)) with k by lia. lia.
  - intros j Hj. rewrite <- before_succ.
    pose proof (before_mono (shards.*2) (S j) k Hc ltac:(lia)). lia.
Qed.

Lemma resolve_past_end (shards : list (string * Z)) (msl pid g : Z) :
  Forall (fun s => 0 <= s.2) shards →
  Shards.sumZ (shards.*2) <= g →
  _get_db_and_idx (__init__ shards msl pid) g = None.
Proof.
  intros Hn Hg.
  assert (Hc : Forall (fun c => 0 <= c) (shards.*2))
    by (apply Forall_fmap; exact Hn).
  destruct (init_fields shards msl pid Hn) as (Hi & Hk & _).
  unfold _get_db_and_idx. rewrite Hi, Hk.
  rewrite bisect_running_past by (done || lia).
  rewrite (lookup_ge_None_2 (shards.*1)); [done|].
  rewrite !length_fmap. lia.
Qed.

(** C5.  For shards with row counts [c_0 .. c_(k-1)] and a global index
    [0 <= g < sum c_i], [_get_db_and_idx] returns the smallest shard whose
    cumulative count exceeds [g], with local row id [g] minus the
    cumulative count of the previous shard; at [g = sum c_i] it fails.  On
    the counts [3, 5, 2]: 0 -> (shard0, 0), 2 -> (shard0, 2),
    3 -> (shard1, 0), 9 -> (shard2, 1), and 10 fails. *)
Theorem resolve_smallest_shard :
  (∀ (shards : list (string * Z)) (msl pid g : Z),
     Forall (fun s => 0 <= s.2) shards →
     0 <= g < Shards.sumZ (shards.*2) →
     ∃ (k : nat) (fpath : string),
       _get_db_and_idx (__init__ shards msl pid) g
       = Some (fpath, g - Shards.before (shards.*2) k)
       ∧ shards.*1 !! k = Some fpath
       ∧ g < Shards.cumulative (shards.*2) k
       ∧ (∀ j : nat, (j < k)%nat → Shards.cumulative (shards.*2) j <= g))
  ∧ (∀ (shards : list (string * Z)) (msl pid : Z),
       Forall (fun s => 0 <= s.2) shards →
       _get_db_and_idx (__init__ shards msl pid) (Shards.sumZ (shards.*2)) = None)
  ∧ (∀ msl pid : Z,
       let resolve := _get_db_and_idx (__init__ Shards.example msl pid) in
       resolve 0 = Some ("shard0"%string, 0)
       ∧ resolve 2 = Some ("shard0"%string, 2)
       ∧ resolve 3 = Some ("shard1"%string, 0)
       ∧ resolve 9 = Some ("shard2"%string, 1)
       ∧ resolve 10 = None).
Proof.
  split; [exact resolve_in_range|split].
  - intros shards msl pid Hn. apply resolve_past_end; [exact Hn|lia].
  - intros msl pid. repeat split; reflexivity.
Qed.

Lemma resolve_smallest_shard_witness :
  ∃ (k : nat) (fpath : string),
    _get_db_and_idx (__init__ Shards.example 8 0) 9
    = Some (fpath, 9 - Shards.before (Shards.example.*2) k)
    ∧ Shards.example.*1 !! k = Some fpath
    ∧ 9 < Shards.cumulative (Shards.example.*2) k
    ∧ (∀ j : nat, (j < k)%nat → Shards.cumulative (Shards.example.*2) j <= 9).
Proof.
  apply (proj1 resolve_smallest_shard Shards.example 8 0 9).
  - repeat constructor; simpl; lia.
  - simpl. lia.
Defined.

End Resolve.

(** *** Loss weights and padding of a row *)

Section PadRow.

Import PileRandomIODataset.
Local Open Scope Z_scope.

Lemma len_app {A : Type} (l1 l2 : list A) :
  Py.len (l1 ++ l2) = Py.len l1 + Py.len l2.
Proof. unfold Py.len. rewrite length_app. lia. Qed.

Lemma len_repeat {A : Type} (x : A) (n : Z) :
  Py.len (Py.repeat x n) = Z.max 0 n.
Proof. unfold Py.len, Py.repeat. rewrite length_replicate. lia. Qed.

Lemma len_nonneg {A : Type} (l : list A) : 0 <= Py.len l.
Proof. unfold Py.len. lia. Qed.

Lemma repeat_lookup {A : Type} (x : A) (n : Z) (i : nat) :
  Py.repeat x n !! i = if decide (Z.of_nat i < n) then Some x else None.
Proof.
  unfold Py.repeat. destruct (decide (Z.of_nat i < n)).
  - apply lookup_replicate_2. lia.
  - apply lookup_ge_None_2. rewrite length_replicate. lia.
Qed.

(** The three runs of the weights of a row. *)
Lemma pad_row_weights (self : t) (tokens : list Z) (pred_start : Z) :
  (pad_row self tokens pred_start).2
  = Py.repeat 0 (pred_start - 1)
    ++ Py.repeat 1 (Py.len tokens - pred_start)
    ++ Py.repeat 0 (max_seq_len self
                    - (Z.max 0 (pred_start - 1)
                       + Z.max 0 (Py.len tokens - pred_start))).
Proof.
  unfold pad_row. simpl. rewrite <- app_assoc.
  by rewrite len_app, !len_repeat.
Qed.

(** The weight at position [i] when the row is well formed. *)
Lemma pad_row_weight_at (self : t) (tokens : list Z) (pred_start : Z) (i : nat) :
  1 <= pred_start <= max_seq_len self + 1 →
  Py.len tokens <= max_seq_len self + 1 →
  Z.of_nat i < max_seq_len self →
  (pad_row self tokens pred_start).2 !! i
  = Some (if decide (pred_start - 1 <= Z.of_nat i < Py.len tokens - 1)
          then 1 else 0).
Proof.
  intros Hp Hl Hi. rewrite pad_row_weights.
  pose proof (len_nonneg tokens) as Hn.
  destruct (decide (Z.of_nat i < pred_start - 1)) as [Hlt|Hge].
  { rewrite lookup_app_l
      by (apply Nat2Z.inj_lt; fold (Py.len (Py.repeat 0 (pred_start - 1)));
          rewrite len_repeat; lia).
    rewrite repeat_lookup. rewrite decide_True by lia.
    by rewrite decide_False by lia. }
  rewrite lookup_app_r
    by (apply Nat2Z.inj_le; fold (Py.len (Py.repeat 0 (pred_start - 1)));
        rewrite len_repeat; lia).
  assert (Hlen0 : length (Py.repeat 0 (pred_start - 1)) = Z.to_nat (pred_start - 1))
    by (unfold Py.repeat; apply length_replicate).
  rewrite Hlen0.
  destruct (decide (Z.of_nat i < Py.len tokens - 1)) as [Hin|Hout].
  { rewrite lookup_app_l
      by (unfold Py.repeat; rewrite length_replicate; lia).
    rewrite repeat_lookup. rewrite decide_True by lia.
    by rewrite decide_True by lia. }
  rewrite lookup_app_r
    by (unfold Py.repeat; rewrite length_replicate; lia).
  unfold Py.repeat at 1. rewrite length_replicate.
  rewrite repeat_lookup. rewrite decide_True by lia.
  by rewrite decide_False by lia.
Qed.

Lemma pad_row_lengths (self : t) (tokens : list Z) (pred_start : Z) :
  1 <= pred_start <= max_seq_len self + 1 →
  Py.len tokens <= max_seq_len self + 1 →
  Py.len (pad_row self tokens pred_start).2 = max_seq_len self
  ∧ Py.len (pad_row self tokens pred_start).1 = max_seq_len self + 1.
Proof.
  intros Hp Hl. pose proof (len_nonneg tokens) as Hn. split.
  - rewrite pad_row_weights, !len_app, !len_repeat. lia.
  - unfold pad_row. simpl. rewrite len_app, len_repeat. lia.
Qed.

End PadRow.

Section PadRowClaims.

Import PileRandomIODataset.
Local Open Scope Z_scope.

(** C6, as first stated, fails on rows that nothing in [__getitem__]
    rules out.  A row longer than [max_seq_len + 1] is not truncated: ten
    tokens with [pred_start = 2] and [max_seq_len = 8] come back as ten
    tokens and nine weights.  With [pred_start = 0] the run of ones is one
    too long (its last weight scores a pad id), and with
    [pred_start > max_seq_len + 1] the leading zeros alone exceed the fixed
    length. *)
Lemma pad_row_not_always_padded :
  pad_row (Rows.dataset 8 0) [1; 2; 3; 4; 5; 6; 7; 8; 9; 10] 2
  = ([1; 2; 3; 4; 5; 6; 7; 8; 9; 10], [0; 1; 1; 1; 1; 1; 1; 1; 1])
  ∧ ¬ Rows.well_padded (Rows.dataset 8 0) [1; 2; 3; 4; 5; 6; 7; 8; 9; 10] 2
        (pad_row (Rows.dataset 8 0) [1; 2; 3; 4; 5; 6; 7; 8; 9; 10] 2)
  ∧ pad_row (Rows.dataset 8 0) [1; 2; 3; 4; 5] 0
    = ([1; 2; 3; 4; 5; 0; 0; 0; 0], [1; 1; 1; 1; 1; 0; 0; 0])
  ∧ ¬ Rows.well_padded (Rows.dataset 8 0) [1; 2; 3; 4; 5] 0
        (pad_row (Rows.dataset 8 0) [1; 2; 3; 4; 5] 0)
  ∧ pad_row (Rows.dataset 8 0) [1; 2; 3; 4; 5] 11
    = ([1; 2; 3; 4; 5; 0; 0; 0; 0], [0; 0; 0; 0; 0; 0; 0; 0; 0; 0])
  ∧ ¬ Rows.well_padded (Rows.dataset 8 0) [1; 2; 3; 4; 5] 11
        (pad_row (Rows.dataset 8 0) [1; 2; 3; 4; 5] 11).
Proof.
  split; [reflexivity|split].
  { intros (Hw & _). vm_compute in Hw. discriminate Hw. }
  split; [reflexivity|split].
  { intros (_ & _ & Hat & _). specialize (Hat 4%nat ltac:(vm_compute; reflexivity)).
    vm_compute in Hat. discriminate Hat. }
  split; [reflexivity|].
  intros (Hw & _). vm_compute in Hw. discriminate Hw.
Qed.

(** C6 (amended).  For a row with [1 <= pred_start <= max_seq_len + 1]
    and at most [max_seq_len + 1] tokens, the weights have length
    [max_seq_len], are 0 before [pred_start - 1], 1 from there to
    [len(tokens) - 2] and 0 after; the tokens are right-padded with the pad
    id to length [max_seq_len + 1].  For five tokens, [pred_start = 2] and
    [max_seq_len = 8] the weights are [0,1,1,1,0,0,0,0] and the tokens are
    followed by four pad ids. *)
Theorem pad_row_well_padded :
  (∀ (self : t) (tokens : list Z) (pred_start : Z),
     1 <= pred_start <= max_seq_len self + 1 →
     Py.len tokens <= max_seq_len self + 1 →
     Rows.well_padded self tokens pred_start (pad_row self tokens pred_start))
  ∧ (∀ (pad a b c d e : Z),
       pad_row (Rows.dataset 8 pad) [a; b; c; d; e] 2
       = ([a; b; c; d; e; pad; pad; pad; pad], [0; 1; 1; 1; 0; 0; 0; 0])).
Proof.
  split; [|reflexivity].
  intros self tokens pred_start Hp Hl.
  destruct (pad_row_lengths self tokens pred_start Hp Hl) as (Hw & Ht).
  split; [exact Hw|split; [exact Ht|split; [|split]]].
  - intros i Hi. by apply pad_row_weight_at.
  - unfold pad_row. simpl. by rewrite take_app_length.
  - unfold pad_row. simpl. intros i (Hlo & Hhi).
    rewrite lookup_app_r by lia. rewrite repeat_lookup.
    rewrite length_app in Hhi. unfold Py.repeat in Hhi.
    rewrite length_replicate in Hhi. rewrite decide_True; [done|]. lia.
Qed.

Lemma pad_row_well_padded_witness :
  Rows.well_padded (Rows.dataset 8 0) [5; 6; 7; 8; 9] 2
    (pad_row (Rows.dataset 8 0) [5; 6; 7; 8; 9] 2).
Proof.
  apply (proj1 pad_row_well_padded (Rows.dataset 8 0) [5; 6; 7; 8; 9] 2).
  - simpl. lia.
  - vm_compute. discriminate.
Defined.

End PadRowClaims.

(** *** The batch hook of the data module *)

Section BatchTransfer.

Import PileRandomIODataset.
Local Open Scope Z_scope.

Lemma drop_last_lookup {A : Type} (l : list A) (i : nat) :
  (i + 1 < length l)%nat → Py.drop_last l !! i = l !! i.
Proof.
  intros Hi. unfold Py.drop_last. rewrite lookup_take.
  destruct (decide (i < length l - 1)%nat); [done|lia].
Qed.

Lemma drop_last_length {A : Type} (l : list A) :
  length (Py.drop_last l) = (length l - 1)%nat.
Proof. unfold Py.drop_last. rewrite length_take. lia. Qed.

(** C10.  [on_after_batch_transfer] returns [x = b[:, :-1]] and
    [y = b[:, 1:]], so that [y[:, t] = x[:, t + 1]] whenever [t + 1] is a
    column of [x]; the mask is 1 exactly where [x] is not the literal 0.
    The pad id plays no part: on a row padded by [__getitem__] with a
    nonzero pad id the padding is not masked, and a token 0 is. *)
Theorem batch_transfer_shift_and_mask :
  ∀ (W D : Type) (b : list (list Z)) (weights : W) (dataset : D),
    let '(x, y, mask, weights', dataset') :=
      Pile.on_after_batch_transfer (b, weights, dataset) in
    x = Py.drop_last <$> b
    ∧ y = Py.from_1 <$> b
    ∧ weights' = weights ∧ dataset' = dataset
    ∧ (∀ (r c : nat) (xr yr : list Z),
         x !! r = Some xr → y !! r = Some yr →
         (c + 1 < length xr)%nat → yr !! c = xr !! (c + 1)%nat)
    ∧ (∀ (r c : nat) (xr : list Z) (tok : Z),
         x !! r = Some xr → xr !! c = Some tok →
         ∃ mr, mask !! r = Some mr
               ∧ mr !! c = Some (if decide (tok = 0) then 0 else 1))
    ∧ (∀ (r c : nat) (self : t) (tokens : list Z) (pred_start : Z),
         b !! r = Some (pad_row self tokens pred_start).1 →
         pad_id self ≠ 0 →
         (length tokens <= c)%nat →
         Z.of_nat c < max_seq_len self →
         ∃ mr, mask !! r = Some mr ∧ mr !! c = Some 1).
Proof.
  intros W D b weights dataset. simpl.
  assert (Hmask : ∀ (r c : nat) (xr : list Z) (tok : Z),
     (Py.drop_last <$> b) !! r = Some xr → xr !! c = Some tok →
     ∃ mr, ((fun row => (fun tok => if decide (tok ≠ 0) then 1 else 0) <$> row)
              <$> (Py.drop_last <$> b)) !! r = Some mr
           ∧ mr !! c = Some (if decide (tok = 0) then 0 else 1)).
  { intros r c xr tok Hx Ht. eexists. split.
    - rewrite list_lookup_fmap, Hx. reflexivity.
    - rewrite list_lookup_fmap, Ht. simpl. f_equal.
      destruct (decide (tok ≠ 0)), (decide (tok = 0)); done. }
  repeat split; try reflexivity.
  - intros r c xr yr Hx Hy Ht.
    rewrite list_lookup_fmap in Hx, Hy.
    destruct (b !! r) as [row|]; [|discriminate].
    simpl in Hx, Hy. injection Hx as <-. injection Hy as <-.
    rewrite drop_last_length in Ht.
    rewrite drop_last_lookup by lia.
    unfold Py.from_1. rewrite lookup_drop. f_equal. lia.
  - exact Hmask.
  - intros r c self tokens pred_start Hb Hpad Hlo Hhi.
    destruct (Hmask r c (Py.drop_last (pad_row self tokens pred_start).1)
                (pad_id self)) as (mr & Hmr & Hat).
    + by rewrite list_lookup_fmap, Hb.
    + unfold pad_row. simpl.
      assert (Hlen : (c + 1 < length (tokens ++ Py.repeat (pad_id self)
                  (max_seq_len self + 1 - Py.len tokens)))%nat).
      { rewrite length_app. unfold Py.repeat, Py.len.
        rewrite length_replicate. lia. }
      rewrite drop_last_lookup by exact Hlen.
      rewrite lookup_app_r by lia. rewrite repeat_lookup.
      rewrite decide_True; [done|]. unfold Py.len. lia.
    + exists mr. split; [exact Hmr|].
      rewrite Hat. by rewrite decide_False.
Qed.

Lemma batch_transfer_shift_and_mask_witness :
  Pile.on_after_batch_transfer ([[7; 0; 9; 5; 5]], tt, tt)
  = ([[7; 0; 9; 5]], [[0; 9; 5; 5]], [[1; 0; 1; 1]], tt, tt)
  ∧ ∃ mr, [[1; 0; 1; 1]] !! 0%nat = Some mr ∧ mr !! 3%nat = Some 1.
Proof.
  split; [reflexivity|].
  pose proof (batch_transfer_shift_and_mask unit unit [[7; 0; 9; 5; 5]] tt tt) as H.
  simpl in H. destruct H as (_ & _ & _ & _ & _ & _ & Hpad).
  apply (Hpad 0%nat 3%nat (Rows.dataset 4 5) [7; 0; 9] 1).
  - reflexivity.
  - simpl. discriminate.
  - simpl. lia.
  - simpl. lia.
Defined.

End BatchTransfer.

(** *** RMSNorm and the scaling of its input *)

Section RMSNormScale.

Import Tensor RMSNorm.
Local Open Scope R_scope.

Lemma sum_scale (c : R) (l : list R) : sum (Rmult c <$> l) = c * sum l.
Proof.
  induction l as [|x r IH]; [simpl; lra|].
  rewrite fmap_cons.
  change (c * x + sum (Rmult c <$> r) = c * (x + sum r)).
  rewrite IH. lra.
Qed.

Lemma sqr_scale (c : R) (x : list R) :
  Rsqr <$> scale c x = Rmult (c * c) <$> (Rsqr <$> x).
Proof.
  unfold scale. rewrite <- !list_fmap_compose. apply list_fmap_ext.
  intros _ y _. simpl. unfold Rsqr. lra.
Qed.

Lemma mean_sqr_scale (c : R) (x : list R) :
  mean (Rsqr <$> scale c x) = c * c * mean (Rsqr <$> x).
Proof.
  unfold mean. rewrite sqr_scale, sum_scale, !length_fmap.
  unfold Rdiv. lra.
Qed.

Lemma sum_sqr_nonneg (x : list R) : 0 <= sum (Rsqr <$> x).
Proof.
  induction x as [|a x IH]; [simpl; lra|].
  rewrite fmap_cons. change (0 <= Rsqr a + sum (Rsqr <$> x)).
  pose proof (Rle_0_sqr a). lra.
Qed.

Lemma mean_sqr_nonneg (x : list R) : 0 <= mean (Rsqr <$> x).
Proof.
  unfold mean, Rdiv. apply Rmult_le_pos; [apply sum_sqr_nonneg|].
  destruct (length (Rsqr <$> x)) as [|n]; [simpl; rewrite Rinv_0; lra|].
  left. apply Rinv_0_lt_compat. apply lt_0_INR. lia.
Qed.

(** A feature vector that is not zero has a positive mean square. *)
Lemma mean_sqr_pos (x : list R) :
  Exists (fun v => v ≠ 0) x → 0 < mean (Rsqr <$> x).
Proof.
  intros Hx.
  assert (Hs : 0 < sum (Rsqr <$> x)).
  { induction Hx as [a x Ha|a x _ IH]; rewrite fmap_cons;
      change (0 < Rsqr a + sum (Rsqr <$> x)).
    - pose proof (Rlt_0_sqr a Ha). pose proof (sum_sqr_nonneg x). lra.
    - pose proof (Rle_0_sqr a). lra. }
  unfold mean, Rdiv. apply Rmult_lt_0_compat; [done|].
  apply Rinv_0_lt_compat. rewrite length_fmap.
  destruct Hx; simpl length; apply lt_0_INR; lia.
Qed.

(** Scaling the input by [c > 0] is the same as dividing [eps] by [c^2],
    where the square root is taken of a positive number. *)
Lemma norm_scale (self : t) (c : R) (x : list R) :
  0 < c → 0 < mean (Rsqr <$> x) + eps self / (c * c) →
  __call__ self (scale c x)
  = __call__ (mk (dim self) (eps self / (c * c)) (weight self)) x.
Proof.
  intros Hc Hpos. unfold __call__, _norm. simpl. f_equal.
  rewrite mean_sqr_scale. unfold scale. rewrite <- list_fmap_compose.
  apply list_fmap_ext. intros _ y _. simpl. unfold rsqrt.
  replace (c * c * mean (Rsqr <$> x) + eps self)
    with ((c * c) * (mean (Rsqr <$> x) + eps self / (c * c)))
    by (field; lra).
  rewrite sqrt_mult_alt by nra.
  rewrite sqrt_square by lra.
  pose proof (sqrt_lt_R0 _ Hpos) as Hs.
  set (s := sqrt (mean (Rsqr <$> x) + eps self / (c * c))) in *.
  field. split; lra.
Qed.

(** C7, as first stated, fails for the [eps] of the code: with
    [eps = 1e-6] and kernel [1], the one-feature input [1] and its double
    have different norms. *)
Lemma norm_not_scale_invariant :
  __call__ (mk 1 default_eps [1]) (scale 2 [1])
  ≠ __call__ (mk 1 default_eps [1]) [1].
Proof.
  unfold __call__, _norm, mul, scale, mean, rsqrt, default_eps. simpl.
  intros Heq. injection Heq as Heq.
  unfold Rsqr in Heq.
  replace ((2 * 1 * (2 * 1) + 0) / 1 + / 1000000) with (4 + / 1000000) in Heq by lra.
  replace ((1 * 1 + 0) / 1 + / 1000000) with (1 + / 1000000) in Heq by lra.
  set (a := sqrt (4 + / 1000000)) in *.
  set (b := sqrt (1 + / 1000000)) in *.
  assert (Ha : 0 < a) by (apply sqrt_lt_R0; lra).
  assert (Hb : 0 < b) by (apply sqrt_lt_R0; lra).
  assert (Haa : a * a = 4 + / 1000000) by (apply sqrt_sqrt; lra).
  assert (Hbb : b * b = 1 + / 1000000) by (apply sqrt_sqrt; lra).
  assert (Hab : 2 * b = a).
  { apply (Rmult_eq_reg_r (/ a * / b)).
    - transitivity (2 * 1 * / a * 1); [field; split; lra|].
      rewrite Heq. field. split; lra.
    - apply Rmult_integral_contrapositive_currified;
        apply Rinv_neq_0_compat; lra. }
  assert (4 * (b * b) = a * a) by (rewrite <- Hab; lra).
  lra.
Qed.

(** C7 (amended).  For every input [x] with nonzero feature vector, of
    the length of the kernel, every positive scalar [c] and every
    [eps >= 0], the norm of [c * x] with [eps] is the norm of [x] with
    [eps / c^2]; so RMSNorm is scale invariant, [norm(c * x) = norm(x)],
    when [eps = 0].  The feature vector is not zero, so that the square
    root is taken of a positive number. *)
Theorem norm_scale_invariant_up_to_eps :
  ∀ (self : t) (c : R) (x : list R),
    0 < c → 0 <= eps self →
    Exists (fun v => v ≠ 0) x → length (weight self) = length x →
    __call__ self (scale c x)
    = __call__ (mk (dim self) (eps self / (c * c)) (weight self)) x
    ∧ (eps self = 0 → __call__ self (scale c x) = __call__ self x).
Proof.
  intros self c x Hc He Hx _.
  pose proof (mean_sqr_pos x Hx) as Hms.
  assert (Hpos : 0 < mean (Rsqr <$> x) + eps self / (c * c)).
  { assert (0 <= eps self / (c * c)); [|lra].
    unfold Rdiv. apply Rmult_le_pos; [done|].
    left. apply Rinv_0_lt_compat. nra. }
  split; [by apply norm_scale|].
  intros He0. rewrite norm_scale by done. destruct self as [d e w].
  simpl in *. subst e. f_equal. f_equal. unfold Rdiv. lra.
Qed.

Lemma norm_scale_invariant_up_to_eps_witness :
  __call__ (mk 2 0 [1; 1]) (scale 3 [1; 2]) = __call__ (mk 2 0 [1; 1]) [1; 2].
Proof.
  apply (norm_scale_invariant_up_to_eps (mk 2 0 [1; 1]) 3 [1; 2]).
  - lra.
  - simpl. lra.
  - apply Exists_cons_hd. lra.
  - reflexivity.
  - reflexivity.
Defined.

End RMSNormScale.

(** *** Rotary position embedding *)

Section RotaryFacts.

Import Rotary.
Local Open Scope R_scope.

Lemma along_same_length {X Y Z : Type} (f : X → Y → option Z)
    (a : list X) (b : list Y) :
  length a = length b →
  Broadcast.along f a b = mapM (fun ab => f ab.1 ab.2) (zip a b).
Proof. intros H. unfold Broadcast.along. by rewrite decide_True. Qed.

Lemma mapM_total {X Y : Type} (f : X → Y) (l : list X) :
  mapM (fun x => Some (f x)) l = Some (f <$> l).
Proof. induction l as [|x r IH]; [done|]. simpl. by rewrite IH. Qed.

Lemma of_complex_cons (a b : R) (z : list C) :
  of_complex ((a, b) :: z) = a :: b :: of_complex z.
Proof. reflexivity. Qed.

Lemma to_of_complex (z : list C) : to_complex (of_complex z) = Some z.
Proof.
  induction z as [|[a b] r IH]; [done|].
  rewrite of_complex_cons. simpl. by rewrite IH.
Qed.

Lemma to_complex_inv (x : list R) (z : list C) :
  to_complex x = Some z → x = of_complex z.
Proof.
  revert z. induction x as [x IH] using (induction_ltof1 _ length).
  unfold ltof in IH. intros z Hz.
  destruct x as [|a [|b r]]; simpl in Hz.
  - by injection Hz as <-.
  - discriminate.
  - destruct (to_complex r) as [zr|] eqn:Hr; [|discriminate].
    simpl in Hz. injection Hz as <-.
    rewrite of_complex_cons. by rewrite <- (IH r ltac:(simpl; lia) zr Hr).
Qed.

Lemma to_complex_even (x : list R) :
  Nat.Even (length x) → ∃ z, to_complex x = Some z ∧ length x = (2 * length z)%nat.
Proof.
  induction x as [x IH] using (induction_ltof1 _ length).
  unfold ltof in IH. intros Hev.
  destruct x as [|a [|b r]].
  - exists []. done.
  - destruct Hev as [k Hk]. simpl in Hk. lia.
  - destruct (IH r ltac:(simpl; lia)) as (z & Hz & Hl).
    { destruct Hev as [k Hk]. simpl in Hk. exists (k - 1)%nat. lia. }
    exists ((a, b) :: z). simpl. rewrite Hz. split; [done|]. simpl. lia.
Qed.

Lemma of_complex_length (z : list C) : length (of_complex z) = (2 * length z)%nat.
Proof.
  induction z as [|[a b] r IH]; [done|].
  rewrite of_complex_cons. simpl. rewrite IH. lia.
Qed.

(** One rotation, when the vector pairs up with the row. *)
Lemma rotate_zip (x : list R) (z fc : list C) :
  to_complex x = Some z → length z = length fc →
  rotate x fc = Some (of_complex (zip_with Cmul z fc)).
Proof.
  intros Hz Hl. unfold rotate. rewrite Hz. simpl.
  rewrite along_same_length by done.
  rewrite (mapM_total (fun ab => Cmul ab.1 ab.2)). simpl.
  do 2 f_equal. rewrite (zip_with_zip Cmul). apply list_fmap_ext. by intros _ [] _.
Qed.

Import RotarySpec.

Lemma freqs_rates (dim : nat) (theta : R) :
  freqs dim theta = rate dim theta <$> seq 0 (dim / 2).
Proof.
  unfold freqs, arange_by_2. rewrite <- fmap_take, take_seq.
  rewrite Nat.min_l by (apply Nat.Div0.div_le_mono; lia).
  rewrite <- list_fmap_compose. apply list_fmap_ext. intros _ i _. simpl.
  unfold rate. rewrite Rpower_Ropp.
  change (i + (i + 0))%nat with (2 * i)%nat. lra.
Qed.

Lemma table_row (dim maxpos : nat) (theta : R) (p : nat) :
  (p < maxpos)%nat →
  precompute_freqs_cis dim maxpos theta !! p = Some (cis <$> angles dim theta p).
Proof.
  intros Hp. unfold precompute_freqs_cis.
  rewrite list_lookup_fmap, lookup_seq_lt by done. simpl. f_equal.
  rewrite freqs_rates. unfold angles. rewrite <- !list_fmap_compose.
  by apply list_fmap_ext.
Qed.

Lemma angles_length (dim : nat) (theta : R) (p : nat) :
  length (angles dim theta p) = (dim / 2)%nat.
Proof. unfold angles. by rewrite length_fmap, length_seq. Qed.

Lemma angles_plus (dim : nat) (theta : R) (p d : nat) :
  angles dim theta (p + d) = zip_with Rplus (angles dim theta p) (angles dim theta d).
Proof.
  unfold angles. rewrite zip_with_fmap_l, zip_with_fmap_r, zip_with_diag.
  apply list_fmap_ext. intros _ i _. simpl. rewrite plus_INR. lra.
Qed.

(** Multiplying the paired vector by unit complex numbers is the rotation
    of the pairs. *)
Lemma cmul_rotate_pairs (ts : list R) (z : list C) :
  of_complex (zip_with Cmul z (cis <$> ts)) = rotate_pairs ts (of_complex z).
Proof.
  revert ts. induction z as [|[a b] r IH]; intros [|t ts]; try done.
  rewrite fmap_cons. cbn [zip_with]. unfold Cmul at 1, cis at 1.
  cbn [fst snd]. rewrite !of_complex_cons. cbn [rotate_pairs].
  by rewrite IH.
Qed.

Lemma rotate_pairs_length (ts x : list R) :
  length x = (2 * length ts)%nat → length (rotate_pairs ts x) = length x.
Proof.
  revert x. induction ts as [|t ts IH]; intros x Hl.
  - destruct x; [done|simpl in Hl; lia].
  - destruct x as [|a [|b r]]; simpl in Hl; try lia.
    simpl. rewrite IH by lia. done.
Qed.

(** The angles of two successive rotations add up. *)
Lemma rotate_pairs_plus (ts us x : list R) :
  length ts = length us →
  rotate_pairs us (rotate_pairs ts x) = rotate_pairs (zip_with Rplus ts us) x.
Proof.
  revert us x. induction ts as [|t ts IH]; intros [|u us] x Hl; try done.
  - by destruct x as [|? [|? ?]].
  - destruct x as [|a [|b r]]; try done.
    cbn [rotate_pairs zip_with]. rewrite IH by (simpl in Hl; lia).
    rewrite cos_plus, sin_plus. f_equal; [lra|]. f_equal. lra.
Qed.

(** [rotate] by the row of position [p] is the rotation of the pairs. *)
Lemma rotate_row (dim : nat) (theta : R) (p : nat) (x : list R) :
  Nat.Even dim → length x = dim →
  rotate x (cis <$> angles dim theta p) = Some (rotate_pairs (angles dim theta p) x).
Proof.
  intros Hev Hl.
  destruct (to_complex_even x) as (z & Hz & Hlz); [by rewrite Hl|].
  assert (Hd : (dim / 2 = length z)%nat).
  { rewrite <- Hl, Hlz. rewrite Nat.mul_comm. by rewrite Nat.div_mul. }
  rewrite (rotate_zip x z) by (rewrite ?length_fmap, ?angles_length; done).
  rewrite cmul_rotate_pairs. by rewrite <- (to_complex_inv x z Hz).
Qed.

Lemma rotate_heads_spec (dim : nat) (theta : R) (p : nat) (heads : list (list R)) :
  Nat.Even dim → Forall (fun v => length v = dim) heads →
  mapM (fun v => rotate v (cis <$> angles dim theta p)) heads
  = Some (rotate_pairs (angles dim theta p) <$> heads).
Proof.
  intros Hev Hs. induction Hs as [|v heads Hv _ IH]; [done|].
  simpl. rewrite rotate_row by done. simpl. by rewrite IH.
Qed.

Lemma rotate_all_spec (dim : nat) (theta : R) (ps : list nat)
    (x : list (list (list R))) :
  Nat.Even dim → shaped (length ps) dim x →
  rotate_all x ((fun p => cis <$> angles dim theta p) <$> ps)
  = Some (rotate_tensor dim theta ps x).
Proof.
  intros Hev [Hl Hs]. unfold rotate_all.
  rewrite along_same_length by (by rewrite length_fmap).
  unfold rotate_tensor. clear Hl. revert ps.
  induction Hs as [|heads x Hh _ IH]; intros [|p ps]; try done.
  rewrite fmap_cons. cbn [zip zip_with mapM fst snd].
  rewrite rotate_heads_spec by done. simpl.
  change (zip_with pair x ?l) with (zip x l). by rewrite IH.
Qed.

Lemma take_rows_spec (dim maxpos : nat) (theta : R) (ps : list nat) :
  Forall (fun p => (p < maxpos)%nat) ps →
  take_rows (precompute_freqs_cis dim maxpos theta) ps
  = Some ((fun p => cis <$> angles dim theta p) <$> ps).
Proof.
  intros Hp. unfold take_rows. induction Hp as [|p ps Hlt _ IH]; [done|].
  simpl. rewrite table_row by done. simpl. by rewrite IH.
Qed.

Lemma rotate_tensor_shaped (dim : nat) (theta : R) (ps : list nat)
    (x : list (list (list R))) :
  Nat.Even dim → shaped (length ps) dim x →
  shaped (length ps) dim (rotate_tensor dim theta ps x).
Proof.
  intros Hev [Hl Hs]. unfold rotate_tensor. split.
  - rewrite length_zip_with. lia.
  - clear Hl. revert ps. induction Hs as [|heads x Hh _ IH]; intros [|p ps];
      simpl; try constructor; [|apply IH].
    apply Forall_fmap. eapply Forall_impl; [exact Hh|]. simpl. intros v Hv.
    rewrite rotate_pairs_length; [done|]. rewrite angles_length, Hv.
    destruct Hev as [k ->]. rewrite Nat.mul_comm, Nat.div_mul by done. lia.
Qed.

Lemma rotate_tensor_plus (dim : nat) (theta : R) (ps ds : list nat)
    (x : list (list (list R))) :
  length ps = length ds →
  rotate_tensor dim theta ds (rotate_tensor dim theta ps x)
  = rotate_tensor dim theta (zip_with Nat.add ps ds) x.
Proof.
  unfold rotate_tensor. revert ps ds.
  induction x as [|heads x IH]; intros [|p ps] [|d ds] Hl; try done.
  cbn [zip_with]. rewrite IH by (simpl in Hl; lia). f_equal.
  rewrite <- list_fmap_compose. apply list_fmap_ext. intros _ v _. simpl.
  rewrite rotate_pairs_plus by (by rewrite !angles_length).
  by rewrite angles_plus.
Qed.

Lemma apply_spec (dim maxpos : nat) (theta : R) (ps : list nat)
    (xq xk : list (list (list R))) :
  Nat.Even dim → shaped (length ps) dim xq → shaped (length ps) dim xk →
  Forall (fun p => (p < maxpos)%nat) ps →
  apply (precompute_freqs_cis dim maxpos theta) xq xk ps
  = Some (rotate_tensor dim theta ps xq, rotate_tensor dim theta ps xk).
Proof.
  intros Hev Hq Hk Hp. unfold apply, apply_rotary_emb.
  rewrite take_rows_spec by done. simpl.
  by rewrite !rotate_all_spec.
Qed.

(** C8.  [apply_rotary_emb], on the rows that [precompute_freqs_cis] holds
    for the position ids, rotates every adjacent pair of coordinates of
    [q] and [k] by the angle [p * theta ^ (- 2 i / dim)] of its position
    [p] and frequency [i]; and rotating at the positions [p] and then at
    the offsets [d] is rotating at the positions [p + d]. *)
Theorem rotary_pairwise_and_additive :
  ∀ (dim maxpos : nat) (theta : R) (ps ds : list nat)
    (xq xk : list (list (list R))),
    0 < theta →
    Nat.Even dim →
    shaped (length ps) dim xq → shaped (length ps) dim xk →
    length ds = length ps →
    Forall (fun p => (p < maxpos)%nat) (zip_with Nat.add ps ds) →
    let table := precompute_freqs_cis dim maxpos theta in
    let at_p := (rotate_tensor dim theta ps xq, rotate_tensor dim theta ps xk) in
    let at_pd :=
      (rotate_tensor dim theta (zip_with Nat.add ps ds) xq,
       rotate_tensor dim theta (zip_with Nat.add ps ds) xk) in
    apply table xq xk ps = Some at_p
    ∧ apply table at_p.1 at_p.2 ds = Some at_pd
    ∧ apply table xq xk (zip_with Nat.add ps ds) = Some at_pd.
Proof.
  intros dim maxpos theta ps ds xq xk _ Hev Hq Hk Hl Hpd. simpl.
  assert (Hlpd : length (zip_with Nat.add ps ds) = length ps)
    by (rewrite length_zip_with; lia).
  assert (Hp : Forall (fun p => (p < maxpos)%nat) ps
               ∧ Forall (fun p => (p < maxpos)%nat) ds).
  { clear -Hl Hpd. revert ds Hl Hpd.
    induction ps as [|p ps IH]; intros [|d ds] Hl Hpd; try done.
    simpl in Hl, Hpd. inversion Hpd as [|? ? H1 H2]; subst.
    destruct (IH ds ltac:(lia) H2). split; constructor; (lia || done). }
  destruct Hp as [Hp Hd].
  split; [by apply apply_spec|split].
  - rewrite <- !(rotate_tensor_plus dim theta ps ds) by done.
    apply apply_spec; try done; rewrite Hl; by apply rotate_tensor_shaped.
  - rewrite <- Hlpd in Hq, Hk. by apply apply_spec.
Qed.

Lemma rotary_pairwise_and_additive_witness :
  apply (precompute_freqs_cis 2 8 10000) [[[1; 0]]] [[[0; 1]]] [5%nat]
  = Some (rotate_tensor 2 10000 [5%nat] [[[1; 0]]],
          rotate_tensor 2 10000 [5%nat] [[[0; 1]]]).
Proof.
  apply (rotary_pairwise_and_additive 2 8 10000 [3%nat] [2%nat]
           [[[1; 0]]] [[[0; 1]]]).
  - lra.
  - exists 1%nat. reflexivity.
  - split; [reflexivity|]. repeat constructor.
  - split; [reflexivity|]. repeat constructor.
  - reflexivity.
  - repeat constructor.
Defined.

End RotaryFacts.

(** *** The key/value cache *)

Section CacheFacts.

Import FlaxLLaMAAttention.

Lemma chunks_concat {A : Type} (k n : nat) (x : list A) :
  length x = k * n → concat (Array.chunks k n x) = x.
Proof.
  revert x. induction k as [|k IH]; intros x Hl; simpl.
  - destruct x; [done|simpl in Hl; lia].
  - rewrite IH by (rewrite length_drop; lia). apply take_drop.
Qed.

Lemma int32_small (z : Z) :
  (- 2 ^ 31 <= z < 2 ^ 31)%Z → Array.int32 z = z.
Proof. intros Hz. unfold Array.int32. rewrite Z.mod_small; lia. Qed.

(** On the pieces of a buffer, the shards together write position
    [cur_index] when it lies in the buffer and nothing otherwise. *)
Lemma fn_on_chunks (k n i0 max_length sp : nat) (new : list (list R))
    (cur_index : Z) (x : list (list (list R))) :
  (max_length / sp)%nat = n →
  length x = k * n →
  concat (imap (fun i => fn max_length sp new cur_index (i0 + i))
               (Array.chunks k n x))
  = if bool_decide (Z.of_nat (i0 * n) <= cur_index
                    ∧ cur_index < Z.of_nat (i0 * n + length x))%Z
    then <[Z.to_nat (cur_index - Z.of_nat (i0 * n)) := new]> x
    else x.
Proof.
  intros Hn. revert i0 x. induction k as [|k IH]; intros i0 x Hl.
  - destruct x; [|simpl in Hl; lia]. simpl. by case_bool_decide.
  - cbn [Array.chunks]. rewrite imap_cons. cbn [concat].
    rewrite (imap_ext _ (fun i => fn max_length sp new cur_index (S i0 + i)))
      by (intros i c _; simpl; f_equal; lia).
    rewrite IH by (rewrite length_drop; lia).
    rewrite length_drop. unfold fn at 1. rewrite Hn.
    assert (Hx : take n x ++ drop n x = x) by apply take_drop.
    assert (Ht : length (take n x) = n) by (rewrite length_take; lia).
    replace (i0 + 0)%nat with i0 by lia.
    repeat case_bool_decide; try lia.
    + rewrite <- Hx at 3. rewrite insert_app_l by lia.
      do 2 f_equal. lia.
    + rewrite <- Hx at 3.
      rewrite insert_app_r_alt by lia. f_equal. rewrite Ht. f_equal. lia.
    + exact Hx.
Qed.

Lemma shard_map_fn (max_length sp : nat) (new : list (list R)) (cur_index : Z)
    (x : list (list (list R))) :
  sp ≠ O → (length x `mod` sp = 0)%nat → max_length = length x →
  Array.shard_map sp (fn max_length sp new cur_index) x
  = Some (if bool_decide (0 <= cur_index < Z.of_nat (length x))%Z
          then <[Z.to_nat cur_index := new]> x else x).
Proof.
  intros Hsp Hmod ->. unfold Array.shard_map.
  rewrite decide_True by done. f_equal.
  assert (Hl : length x = (sp * (length x / sp))%nat).
  { rewrite (Nat.div_mod_eq (length x) sp) at 1. lia. }
  etrans;
    [exact (fn_on_chunks sp (length x / sp) 0 (length x) sp new cur_index x
              eq_refl Hl)|].
  simpl. rewrite Z.sub_0_r.
  repeat case_bool_decide; try lia; done.
Qed.

(** A write that fits: both buffers receive the new slices at the offsets
    [index .. index + L - 1] and the index advances by [L]. *)
Lemma concatenate_in_capacity {M : Type} (self : t) (c : cache)
    (key value query : list (list (list R))) (mask : M) :
  sp self ≠ O →
  (length (cached_key c) `mod` sp self = 0)%nat →
  length (cached_value c) = length (cached_key c) →
  length key = length query → length value = length query →
  (0 <= cache_index c)%Z →
  (cache_index c + Z.of_nat (length query) <= Z.of_nat (length (cached_key c)))%Z →
  (Z.of_nat (length (cached_key c)) < 2 ^ 31)%Z →
  let i := Z.to_nat (cache_index c) in
  let L := length query in
  let key' := take i (cached_key c) ++ key ++ drop (i + L) (cached_key c) in
  let value' := take i (cached_value c) ++ value ++ drop (i + L) (cached_value c) in
  _concatenate_to_cache self (Some c) key value query mask
  = Some (key', value', mask,
          mk_cache key' value' (cache_index c + Z.of_nat L)).
Proof.
  intros Hsp Hmod Hv Hk Hvl H0 Hfit Hmax. simpl.
  unfold _concatenate_to_cache.
  rewrite int32_small by lia.
  destruct (decide (length query = 1%nat)) as [H1|H1].
  - destruct key as [|k [|? ?]]; simpl in Hk; try lia.
    destruct value as [|v [|? ?]]; simpl in Hvl; try lia.
    rewrite !shard_map_fn by (done || by rewrite Hv).
    simpl. rewrite !bool_decide_true by lia.
    rewrite !insert_take_drop by lia.
    rewrite H1. replace (Z.to_nat (cache_index c) + 1)%nat
      with (S (Z.to_nat (cache_index c))) by lia. done.
  - unfold Array.dynamic_update_slice.
    destruct (decide (cache_index c < 0)%Z) as [|_]; [lia|].
    rewrite !decide_True by lia. simpl.
    rewrite Hv, Hk, Hvl.
    replace (Z.to_nat (Z.max 0 (Z.min (cache_index c)
               (Z.of_nat (length (cached_key c)) - Z.of_nat (length query)))))
      with (Z.to_nat (cache_index c)) by lia.
    done.
Qed.

(** A write past the end: nothing is raised.  The single-token branch
    finds no shard that owns the position and leaves the buffers as they
    are; the other branch has its start index clamped, so that the update
    lands on the last [L] positions.  The index advances all the same. *)
Lemma concatenate_past_capacity {M : Type} (self : t) (c : cache)
    (key value query : list (list (list R))) (mask : M) :
  sp self ≠ O →
  (length (cached_key c) `mod` sp self = 0)%nat →
  length (cached_value c) = length (cached_key c) →
  length key = length query → length value = length query →
  (0 <= cache_index c)%Z →
  (cache_index c + Z.of_nat (length query) < 2 ^ 31)%Z →
  (cache_index c + Z.of_nat (length query) > Z.of_nat (length (cached_key c)))%Z →
  length query <= length (cached_key c) →
  ∃ key' value',
    _concatenate_to_cache self (Some c) key value query mask
    = Some (key', value', mask,
            mk_cache key' value' (cache_index c + Z.of_nat (length query)))
    ∧ (length query = 1%nat →
       key' = cached_key c ∧ value' = cached_value c)
    ∧ (length query ≠ 1%nat →
       key' = take (length (cached_key c) - length query) (cached_key c) ++ key
       ∧ value' = take (length (cached_key c) - length query) (cached_value c)
                  ++ value).
Proof.
  intros Hsp Hmod Hv Hk Hvl H0 H31 Hover Hle.
  unfold _concatenate_to_cache.
  rewrite int32_small by lia.
  destruct (decide (length query = 1%nat)) as [H1|H1].
  - destruct key as [|k [|? ?]]; simpl in Hk; try lia.
    destruct value as [|v [|? ?]]; simpl in Hvl; try lia.
    rewrite !shard_map_fn by (done || by rewrite Hv).
    simpl. rewrite !bool_decide_false by lia.
    eexists _, _. split; [reflexivity|]. split; [done|]. intros; lia.
  - unfold Array.dynamic_update_slice.
    destruct (decide (cache_index c < 0)%Z) as [|_]; [lia|].
    rewrite !decide_True by lia. simpl.
    eexists _, _. split; [reflexivity|]. split; [intros; lia|]. intros _.
    rewrite Hv, Hk, Hvl.
    replace (Z.to_nat (Z.max 0 (Z.min (cache_index c)
               (Z.of_nat (length (cached_key c)) - Z.of_nat (length query)))))
      with (length (cached_key c) - length query)%nat by lia.
    rewrite !drop_ge by lia. by rewrite !app_nil_r.
Qed.

(** C2, as first stated, fails: no call raises on overflow.  On a full
    cache of capacity 2 a single-token call returns the buffers unchanged
    (the new key and value are dropped) and moves the index to 3; on a
    cache with one free position a two-token call has its start clamped
    from 1 to 0, overwrites the stored position and moves the index to 3. *)
Lemma cache_overflow_does_not_fail :
  _concatenate_to_cache AttentionExample.self (Some AttentionExample.full_cache)
    AttentionExample.key1 AttentionExample.value1 AttentionExample.query1 tt
  = Some (cached_key AttentionExample.full_cache,
          cached_value AttentionExample.full_cache, tt,
          mk_cache (cached_key AttentionExample.full_cache)
            (cached_value AttentionExample.full_cache) 3)
  ∧ _concatenate_to_cache AttentionExample.self (Some AttentionExample.half_cache)
      AttentionExample.key2 AttentionExample.value2 AttentionExample.query2 tt
    = Some (AttentionExample.key2, AttentionExample.value2, tt,
            mk_cache AttentionExample.key2 AttentionExample.value2 3).
Proof. split; reflexivity. Qed.

(** An update longer than the whole buffer is the one overflow that does
    raise: the slice update has no place to put it. *)
Lemma concatenate_too_long_fails {M : Type} (self : t) (c : cache)
    (key value query : list (list (list R))) (mask : M) :
  length query ≠ 1%nat → length key > length (cached_key c) →
  _concatenate_to_cache self (Some c) key value query mask = None.
Proof.
  intros H1 Hlong. unfold _concatenate_to_cache.
  rewrite decide_False by done. unfold Array.dynamic_update_slice.
  destruct (decide (length key <= length (cached_key c))); [lia|done].
Qed.

(** C2 (amended).  On an initialised cache, a call with [L] new slices
    such that [cache_index + L > max_length] and [L <= max_length] does not
    fail: for [L = 1] the write is dropped and the buffers are unchanged,
    for the other lengths it is clamped to the last [L] positions of the
    buffers; in both cases the index advances by [L], and nothing wraps
    around to the start of the buffers. *)
Theorem cache_overflow_drops_or_clamps :
  ∀ (M : Type) (self : t) (c : cache)
    (key value query : list (list (list R))) (mask : M),
    sp self ≠ O →
    (length (cached_key c) `mod` sp self = 0)%nat →
    length (cached_value c) = length (cached_key c) →
    length key = length query → length value = length query →
    (0 <= cache_index c)%Z →
    (cache_index c + Z.of_nat (length query) < 2 ^ 31)%Z →
    (cache_index c + Z.of_nat (length query) > Z.of_nat (length (cached_key c)))%Z →
    length query <= length (cached_key c) →
    ∃ key' value',
      _concatenate_to_cache self (Some c) key value query mask
      = Some (key', value', mask,
              mk_cache key' value' (cache_index c + Z.of_nat (length query)))
      ∧ (length query = 1%nat →
         key' = cached_key c ∧ value' = cached_value c)
      ∧ (length query ≠ 1%nat →
         key' = take (length (cached_key c) - length query) (cached_key c) ++ key
         ∧ value' = take (length (cached_key c) - length query) (cached_value c)
                    ++ value).
Proof. intros M. exact (@concatenate_past_capacity M). Qed.

Lemma cache_overflow_drops_or_clamps_witness :
  ∃ key' value',
    _concatenate_to_cache AttentionExample.self (Some AttentionExample.full_cache)
      AttentionExample.key1 AttentionExample.value1 AttentionExample.query1 tt
    = Some (key', value', tt, mk_cache key' value' (2 + 1))
    ∧ (1%nat = 1%nat →
       key' = cached_key AttentionExample.full_cache
       ∧ value' = cached_value AttentionExample.full_cache)
    ∧ (1%nat ≠ 1%nat →
       key' = take (2 - 1) (cached_key AttentionExample.full_cache)
              ++ AttentionExample.key1
       ∧ value' = take (2 - 1) (cached_value AttentionExample.full_cache)
                  ++ AttentionExample.value1).
Proof.
  apply (cache_overflow_drops_or_clamps unit AttentionExample.self
           AttentionExample.full_cache AttentionExample.key1
           AttentionExample.value1 AttentionExample.query1 tt).
  - vm_compute. lia.
  - reflexivity.
  - reflexivity.
  - reflexivity.
  - reflexivity.
  - vm_compute. discriminate.
  - vm_compute. reflexivity.
  - vm_compute. reflexivity.
  - vm_compute. lia.
Defined.

End CacheFacts.

(** *** Incremental decoding against one call over all the tokens *)

Section DecodeFacts.

Import Tensor FlaxLLaMAAttention AttentionSpec.

Variable self : t.
Hypothesis Hwf : well_formed self.

Lemma bind_Some {A B : Type} (x : A) (f : A → option B) : Some x ≫= f = f x.
Proof. reflexivity. Qed.

Lemma dense_length (w : list (list R)) (x : list R) :
  length (dense w x) = length w.
Proof. unfold dense. by rewrite length_fmap. Qed.

Lemma chunks_length {A : Type} (k n : nat) (x : list A) :
  length (Array.chunks k n x) = k.
Proof. revert x. induction k as [|k IH]; intros x; simpl; [done|]. by rewrite IH. Qed.

Lemma chunks_shape {A : Type} (k n : nat) (x : list A) :
  length x = k * n → Forall (fun c => length c = n) (Array.chunks k n x).
Proof.
  revert x. induction k as [|k IH]; intros x Hl; simpl; constructor.
  - rewrite length_take. lia.
  - apply IH. rewrite length_drop. lia.
Qed.

Lemma heads_of_shape (w : list (list R)) (h : list R) :
  length w = embed_dim self →
  length (heads_of self w h) = num_heads self
  ∧ Forall (fun v => length v = head_dim self) (heads_of self w h).
Proof.
  intros Hw. unfold heads_of. split; [apply chunks_length|].
  apply chunks_shape. rewrite dense_length, Hw. symmetry. apply (wf_heads _ Hwf).
Qed.

Lemma split_heads_spec (w : list (list R)) (hs : list (list R)) :
  length w = embed_dim self →
  _split_heads self (dense w <$> hs) = Some (heads_of self w <$> hs).
Proof.
  intros Hw. unfold _split_heads. induction hs as [|h hs IH]; [done|].
  rewrite !fmap_cons. cbn [mapM]. rewrite IH. unfold Array.reshape at 1.
  rewrite decide_True; [done|].
  rewrite dense_length, Hw. symmetry. apply (wf_heads _ Hwf).
Qed.

(** The projections and the rotation of a call, token by token. *)
Lemma rotary_spec (toks : list (list R * nat)) :
  Forall (fun tok => tok.2 < max_sequence_length self) toks →
  Rotary.apply (freqs_cis self)
    (heads_of self (wq self) <$> toks.*1)
    (heads_of self (wk self) <$> toks.*1) (toks.*2)
  = Some (query self <$> toks, key self <$> toks).
Proof.
  intros Hp. unfold freqs_cis.
  assert (Hshape : ∀ w, length w = embed_dim self →
            Rotary.shaped (length (toks.*2)) (head_dim self)
              (heads_of self w <$> toks.*1)).
  { intros w Hw. split; [by rewrite !length_fmap|].
    apply Forall_fmap, Forall_true. intros h. simpl.
    by apply heads_of_shape. }
  rewrite apply_spec;
    [|apply (wf_even _ Hwf)|apply Hshape, (wf_wq _ Hwf)
     |apply Hshape, (wf_wk _ Hwf)|by apply Forall_fmap].
  f_equal. unfold RotarySpec.rotate_tensor, query, key.
  f_equal; clear; induction toks as [|[h p] r IH]; simpl; f_equal; done.
Qed.

Lemma call_unfold (st : option cache) (toks : list (list R * nat))
    (am : list bool) (segs : list Z) (init : bool) :
  Forall (fun tok => tok.2 < max_sequence_length self) toks →
  __call__ self st (toks.*1) am segs (toks.*2) init
  = (m ← attention_bias_mask self st am segs (length toks) (length toks);
     '(xk, xv, m', st') ←
       through_cache self st init (key self <$> toks) (value self <$> toks)
         (query self <$> toks) m;
     out ← ring_attention_sharded self (query self <$> toks) xk xv m';
     out ← _merge_heads self out;
     Some (fmap (M:=list) (dense (wo self)) out, st')).
Proof.
  intros Hp. unfold __call__.
  rewrite !split_heads_spec by apply Hwf.
  rewrite !bind_Some, rotary_spec, bind_Some by done.
  cbn [fst snd]. rewrite !length_fmap.
  replace (heads_of self (wv self) <$> toks.*1) with (value self <$> toks)
    by (by rewrite <- list_fmap_compose).
  done.
Qed.

Lemma along_total {X Y Z : Type} (f : X → Y → Z) (a : list X) (b : list Y) :
  length a = length b →
  Broadcast.along (fun x y => Some (f x y)) a b = Some (zip_with f a b).
Proof.
  intros Hl. rewrite along_same_length by done.
  rewrite (mapM_total (fun ab => f ab.1 ab.2)). f_equal.
  rewrite (zip_with_zip f). apply list_fmap_ext. by intros _ [] _.
Qed.

Lemma combine_masks_spec (m1 m2 : list (list bool)) :
  Forall2 (fun r1 r2 => length r1 = length r2) m1 m2 →
  combine_masks m1 m2 = Some (zip_with (zip_with andb) m1 m2).
Proof.
  intros H2. unfold combine_masks.
  rewrite along_same_length by (by eapply Forall2_length).
  induction H2 as [|r1 r2 m1 m2 Hr _ IH]; [done|].
  cbn [zip zip_with mapM fst snd]. rewrite along_total by done.
  rewrite bind_Some. change (zip_with pair m1 m2) with (zip m1 m2).
  by rewrite IH.
Qed.

Lemma rows_same_length (am : list bool) (f : nat → list bool) (n q0 : nat) :
  (∀ q, length (f q) = length am) →
  Forall2 (fun r1 r2 => length r1 = length r2) (replicate n am) (f <$> seq q0 n).
Proof.
  intros Hf. revert q0. induction n as [|n IH]; intros q0; [constructor|].
  cbn [replicate seq]. rewrite fmap_cons. constructor; [by rewrite Hf|apply IH].
Qed.

Lemma decode_rows (am : list bool) (i : Z) (n q0 : nat) :
  (0 <= i)%Z → (i + Z.of_nat (q0 + n) < 2 ^ 31)%Z →
  zip_with (zip_with andb) (replicate n am)
    ((fun q : nat =>
        (fun k : nat =>
           bool_decide (Z.of_nat k <= Array.int32 (Z.of_nat q + i))%Z)
        <$> seq 0 (length am)) <$> seq q0 n)
  = (fun q : nat => zip_with andb am (causal_upto (length am) (q + Z.to_nat i)))
    <$> seq q0 n.
Proof.
  intros H0. revert q0. induction n as [|n IH]; intros q0 Hb; [done|].
  cbn [replicate seq]. rewrite !fmap_cons. cbn [zip_with]. f_equal.
  - f_equal. unfold causal_upto. apply list_fmap_ext. intros _ k _.
    rewrite int32_small by lia. apply bool_decide_ext. lia.
  - apply IH. lia.
Qed.

Lemma decode_mask_spec (c : cache) (am : list bool) (qlen : nat) :
  length am = length (cached_key c) →
  (0 <= cache_index c)%Z →
  (cache_index c + Z.of_nat qlen < 2 ^ 31)%Z →
  decode_mask c am qlen
  = Some ((fun q : nat =>
             zip_with andb am
               (causal_upto (length am) (q + Z.to_nat (cache_index c))))
          <$> seq 0 qlen).
Proof.
  intros Hl H0 H31. unfold decode_mask, broadcast_to_rows.
  rewrite decide_True by done. rewrite bind_Some. rewrite <- Hl.
  rewrite combine_masks_spec
    by (apply rows_same_length; intros q; by rewrite length_fmap, length_seq).
  f_equal. by apply decode_rows.
Qed.

Lemma visible_causal (am : list bool) (n : nat) :
  visible (S n) am (zip_with andb am (causal_upto (length am) n)).
Proof.
  unfold visible, causal_upto. split.
  - apply list_eq. intros j. rewrite !lookup_take.
    destruct (decide (j < S n)) as [Hj|Hj]; [|done].
    rewrite lookup_zip_with, list_lookup_fmap.
    destruct (am !! j) as [a|] eqn:Ha; [|done]. simpl.
    rewrite lookup_seq_lt by (by eapply lookup_lt_Some). simpl.
    rewrite bool_decide_true by lia. by rewrite andb_true_r.
  - apply Forall_lookup. intros j b. rewrite lookup_drop.
    rewrite lookup_zip_with, list_lookup_fmap.
    destruct (am !! (S n + j)) as [a|] eqn:Ha; [|done]. simpl.
    rewrite lookup_seq_lt by (by eapply lookup_lt_Some). simpl.
    rewrite bool_decide_false by lia. rewrite andb_false_r. congruence.
Qed.

Lemma sum_app (a b : list R) : sum (a ++ b) = (sum a + sum b)%R.
Proof.
  induction a as [|x a IH]; simpl; [lra|]. unfold sum in *. simpl.
  rewrite IH. lra.
Qed.

Lemma sum_zero (a : list R) : Forall (fun x => x = 0%R) a → sum a = 0%R.
Proof.
  induction 1 as [|x a Hx _ IH]; [done|]. unfold sum in *. simpl.
  rewrite IH, Hx. lra.
Qed.

(** The scores beyond the first [n] keys are 0 when the mask hides them. *)
Lemma scores_hidden (scale : R) (q : list R) (ks : list (list R))
    (row : list bool) (n : nat) :
  Forall (fun b => b = false) (drop n row) →
  Forall (fun w => w = 0%R) (drop n (scores scale q ks row)).
Proof.
  intros Hh. unfold scores. rewrite zip_with_drop.
  revert Hh. generalize (drop n ks) as ks', (drop n row) as row'.
  intros ks' row' Hh. revert ks'.
  induction Hh as [|b row' Hb _ IH]; intros [|k ks']; simpl; try constructor.
  - by rewrite Hb.
  - apply IH.
Qed.

Lemma scores_take (scale : R) (q : list R) (ks : list (list R))
    (row : list bool) (n : nat) :
  take n (scores scale q ks row) = scores scale q (take n ks) (take n row).
Proof. unfold scores. apply zip_with_take. Qed.

(** Hidden keys and values take no part in the attention of a query. *)
Lemma attend_visible (d : nat) (scale : R) (q : list R)
    (ks vs : list (list R)) (row : list bool) (n : nat) :
  Forall (fun b => b = false) (drop n row) →
  attend d scale q ks vs row
  = attend d scale q (take n ks) (take n vs) (take n row).
Proof.
  intros Hh. unfold attend. apply list_fmap_ext. intros _ c _.
  pose proof (scores_hidden scale q ks row n Hh) as Hz.
  rewrite <- scores_take.
  set (w := scores scale q ks row) in *.
  f_equal.
  - rewrite <- (take_drop n (zip_with _ w vs)) at 1.
    rewrite sum_app, zip_with_take, zip_with_drop.
    rewrite (sum_zero (zip_with _ (drop n w) _)); [lra|].
    revert Hz. generalize (drop n w) as w', (drop n vs) as vs'.
    intros w' vs' Hz. revert vs'.
    induction Hz as [|x w' Hx _ IH]; intros [|v vs']; simpl; try constructor.
    + rewrite Hx. lra.
    + apply IH.
  - rewrite <- (take_drop n w) at 1. rewrite sum_app, (sum_zero (drop n w)) by done.
    lra.
Qed.

Lemma head_take (h n : nat) (x : list (list (list R))) :
  head h (take n x) = take n (head h x).
Proof. unfold head. apply fmap_take. Qed.

Lemma concat_length_uniform {A : Type} (n : nat) (l : list (list A)) :
  Forall (fun x => length x = n) l → length (concat l) = length l * n.
Proof.
  induction 1 as [|x l Hx _ IH]; [done|].
  simpl. rewrite length_app, IH, Hx. lia.
Qed.

Lemma query_length (tok : list R * nat) :
  length (query self tok) = num_heads self.
Proof.
  unfold query. rewrite length_fmap.
  apply heads_of_shape, (wf_wq _ Hwf).
Qed.

Lemma attended_merge (ks vs : list (list (list R))) (tok : list R * nat)
    (row : list bool) :
  length (concat (attended self ks vs tok row)) = embed_dim self.
Proof.
  rewrite (concat_length_uniform (head_dim self)).
  - unfold attended. rewrite length_imap, query_length. apply (wf_heads _ Hwf).
  - unfold attended. apply Forall_lookup. intros h v.
    rewrite list_lookup_imap. destruct (query self tok !! h); [|done].
    simpl. intros [= <-]. unfold attend. by rewrite length_fmap, length_seq.
Qed.

(** Attention, merge of the heads and output kernel, query by query. *)
Lemma standard_pipeline (toks : list (list R * nat))
    (ks vs : list (list (list R))) (rows : list (list bool))
    (st' : option cache) :
  length rows = length toks →
  Forall (fun row => length row = length ks) rows →
  length vs = length ks →
  (out ← ring_attention_standard (head_dim self) (query self <$> toks) ks vs rows;
   out ← _merge_heads self out;
   Some (fmap (M:=list) (dense (wo self)) out, st'))
  = Some (zip_with (fun tok row =>
                      dense (wo self) (concat (attended self ks vs tok row)))
            toks rows, st').
Proof.
  intros Hl Hr Hv. unfold ring_attention_standard.
  rewrite decide_True by (by rewrite length_fmap). rewrite bind_Some.
  rewrite zip_with_fmap_l.
  assert (Hm : _merge_heads self
                 (zip_with (fun tok row => attended self ks vs tok row) toks rows)
               = Some (zip_with (fun tok row => concat (attended self ks vs tok row))
                         toks rows)).
  { unfold _merge_heads. clear Hl Hr. revert rows.
    induction toks as [|tok toks' IH]; intros [|row rows]; try done.
    cbn [zip_with mapM]. rewrite decide_True by apply attended_merge.
    rewrite bind_Some, IH. done. }
  unfold attended in Hm at 1. rewrite Hm, bind_Some. do 2 f_equal.
  clear. revert rows. induction toks as [|tok toks' IH]; intros [|row rows];
    try done. cbn [zip_with]. rewrite fmap_cons. by rewrite IH.
Qed.

(** The same through [shard_map]: the mesh axis must divide the keys and,
    for more than one query, the queries. *)
Lemma sharded_is_standard (xq xk xv : list (list (list R)))
    (rows : list (list bool)) :
  length rows = length xq → length xv = length xk →
  length xq = 1%nat ∨ (length xq `mod` sp self = 0)%nat →
  (length xk `mod` sp self = 0)%nat →
  ring_attention_sharded self xq xk xv rows
  = ring_attention_standard (head_dim self) xq xk xv rows.
Proof.
  intros Hl Hv Hq Hk. unfold ring_attention_sharded.
  pose proof (wf_sp _ Hwf) as Hsp.
  rewrite decide_True; [done|]. rewrite Hl, Hv.
  split_and!; try done; intros Hn%bool_decide_unpack.
  all: split; [done|]; by destruct Hq.
Qed.

Lemma attention_pipeline (toks : list (list R * nat))
    (ks vs : list (list (list R))) (rows : list (list bool))
    (st' : option cache) :
  length rows = length toks →
  Forall (fun row => length row = length ks) rows →
  length vs = length ks →
  length toks = 1%nat ∨ (length toks `mod` sp self = 0)%nat →
  (length ks `mod` sp self = 0)%nat →
  (out ← ring_attention_sharded self (query self <$> toks) ks vs rows;
   out ← _merge_heads self out;
   Some (fmap (M:=list) (dense (wo self)) out, st'))
  = Some (zip_with (fun tok row =>
                      dense (wo self) (concat (attended self ks vs tok row)))
            toks rows, st').
Proof.
  intros Hl Hr Hv Hq Hk.
  rewrite sharded_is_standard by (by rewrite ?length_fmap).
  by apply standard_pipeline.
Qed.

(** A query that sees the first [i + 1] positions of buffers holding the
    keys and values of the tokens [0 .. i] there attends causally. *)
Lemma attended_causal (toks : list (list R * nat)) (am : list bool)
    (ks vs : list (list (list R))) (i : nat) (tok : list R * nat)
    (row : list bool) :
  visible (S i) am row →
  take (S i) ks = key self <$> take (S i) toks →
  take (S i) vs = value self <$> take (S i) toks →
  dense (wo self) (concat (attended self ks vs tok row)) = causal_row self am toks i tok.
Proof.
  intros [Hrow Hhid] Hk Hv. unfold causal_row, attended. do 2 f_equal.
  apply imap_ext. intros h q _. simpl.
  rewrite (attend_visible _ _ _ _ _ _ (S i)) by done.
  by rewrite <- !head_take, Hk, Hv, Hrow.
Qed.

Lemma zip_with_seq {A B C : Type} (f : A → B → C) (g : nat → B)
    (l : list A) (q0 : nat) :
  zip_with f l (g <$> seq q0 (length l)) = imap (fun j x => f x (g (q0 + j))) l.
Proof.
  revert q0. induction l as [|x l IH]; intros q0; [done|].
  cbn [length seq]. rewrite fmap_cons, imap_cons. cbn [zip_with].
  rewrite IH. f_equal; [by rewrite Nat.add_0_r|].
  apply imap_ext. intros j y _. simpl. f_equal. f_equal. lia.
Qed.

Lemma take_take_le {A : Type} (l : list A) (n m : nat) :
  n <= m → take n (take m l) = take n l.
Proof. intros Hle. rewrite take_take. f_equal. lia. Qed.

Lemma written_holds (c : cache) (all : list (list R * nat)) (i L m : nat) :
  holds self c all i m → i + L <= length all → i + L <= m →
  holds self (written self c all i L) all (i + L) m.
Proof.
  intros (Hi & Hk & Hv & Htk & Htv) Hall Hm. unfold holds, written. simpl.
  assert (Hnew : length (take L (drop i all)) = L)
    by (rewrite length_take, length_drop; lia).
  assert (Hsplit : take (i + L) all = take i all ++ take L (drop i all))
    by (by rewrite take_take_drop).
  split; [lia|]. split; [|split; [|split]].
  - rewrite !length_app, length_take, length_fmap, Hnew, length_drop. lia.
  - rewrite !length_app, length_take, length_fmap, Hnew, length_drop. lia.
  - rewrite app_assoc, take_app_length'.
    + by rewrite Htk, Hsplit, fmap_app.
    + rewrite length_app, length_take, length_fmap, Hnew. lia.
  - rewrite app_assoc, take_app_length'.
    + by rewrite Htv, Hsplit, fmap_app.
    + rewrite length_app, length_take, length_fmap, Hnew. lia.
Qed.

(** One call on a cache that holds the first [i] tokens, for the next [L]
    tokens: every new token attends causally over the tokens up to itself,
    and the cache receives the new keys and values at [i .. i + L - 1]. *)
Lemma call_with_cache (c : cache) (all : list (list R * nat)) (i L m : nat)
    (am : list bool) (segs : list Z) :
  holds self c all i m →
  i + L <= length all → i + L <= m → (Z.of_nat m < 2 ^ 31)%Z →
  (m `mod` sp self = 0)%nat → length am = m →
  L = 1%nat ∨ (L `mod` sp self = 0)%nat →
  Forall (fun tok => tok.2 < max_sequence_length self) all →
  __call__ self (Some c) ((take L (drop i all)).*1) am segs
    ((take L (drop i all)).*2) false
  = Some (imap (fun j tok => causal_row self am all (i + j) tok)
            (take L (drop i all)),
          Some (written self c all i L)).
Proof.
  intros Hc Hall Hm H31 Hsp Ham HL Hp.
  pose proof (written_holds c all i L m Hc Hall Hm) as Hc'.
  destruct Hc as (Hi & Hk & Hv & Htk & Htv).
  set (new := take L (drop i all)) in *.
  assert (Hnew : length new = L)
    by (unfold new; rewrite length_take, length_drop; lia).
  rewrite call_unfold by (unfold new; by apply Forall_take, Forall_drop).
  unfold attention_bias_mask.
  rewrite decode_mask_spec by (rewrite ?Hi, ?Hk; lia || done).
  rewrite bind_Some. unfold through_cache.
  rewrite (bool_decide_true (is_Some (Some c))) by done. cbn [orb].
  rewrite concatenate_in_capacity;
    rewrite ?length_fmap, ?Hk, ?Hv, ?Hi, ?Hnew; try (done || lia || apply Hwf).
  rewrite bind_Some. cbn [fst snd]. rewrite Nat2Z.id.
  rewrite bind_Some. cbv beta iota.
  match goal with
  | |- context [ring_attention_sharded _ _ ?ks ?vs ?rows] =>
      rewrite (attention_pipeline new ks vs rows)
  end.
  - f_equal. f_equal. rewrite <- Hnew at 1. rewrite zip_with_seq.
    apply imap_ext. intros j tok Hj. simpl.
    apply lookup_lt_Some in Hj. rewrite Hnew in Hj.
    destruct Hc' as (_ & _ & _ & Htk' & Htv').
    apply attended_causal.
    + replace (i + j) with (j + i) by lia. rewrite Ham. rewrite <- Ham at 1.
      apply visible_causal.
    + unfold written in Htk'. simpl in Htk'.
      rewrite <- (take_take_le _ (S (i + j)) (i + L)) by lia.
      fold new in Htk'. rewrite Htk'.
      rewrite <- fmap_take. by rewrite take_take_le by lia.
    + unfold written in Htv'. simpl in Htv'.
      rewrite <- (take_take_le _ (S (i + j)) (i + L)) by lia.
      fold new in Htv'. rewrite Htv'.
      rewrite <- fmap_take. by rewrite take_take_le by lia.
  - by rewrite length_fmap, length_seq.
  - apply Forall_fmap, Forall_true. intros q. simpl.
    rewrite length_zip_with. unfold causal_upto.
    rewrite length_fmap, length_seq.
    rewrite !length_app, length_take, length_fmap, Hnew, length_drop. lia.
  - rewrite !length_app, !length_take, !length_fmap, Hnew, !length_drop. lia.
  - by rewrite Hnew.
  - rewrite !length_app, !length_take, !length_fmap, Hnew, !length_drop.
    by replace (i `min` length (cached_key c)
                + (L + (length (cached_key c) - (i + L)))) with m by lia.
Qed.

Lemma causal_upto_take (m n i : nat) :
  n <= m → take n (causal_upto m i) = causal_upto n i.
Proof.
  intros Hle. unfold causal_upto. rewrite <- fmap_take, take_seq.
  by rewrite Nat.min_l.
Qed.

Lemma and_true_row (row : list bool) (n : nat) :
  length row = n → zip_with andb row (replicate n true) = row.
Proof.
  intros Hl. rewrite zip_with_replicate_r by lia.
  rewrite <- (list_fmap_id row) at 2. apply list_fmap_ext.
  intros _ b _. simpl. apply andb_true_r.
Qed.

(** The mask of a call without cache over [n] tokens of one segment. *)
Lemma full_mask_spec (am : list bool) (s : Z) (n : nat) :
  n <= max_sequence_length self → length am = n →
  full_mask self am (replicate n s) n n
  = Some ((fun q : nat => zip_with andb am (causal_upto n q)) <$> seq 0 n).
Proof.
  intros Hn Ham. unfold full_mask, broadcast_to_rows.
  rewrite Nat.min_l by done. rewrite decide_True by done. rewrite bind_Some.
  assert (Hcm : take n <$> take n (causal_mask self) = causal_upto n <$> seq 0 n).
  { unfold causal_mask, make_causal_mask.
    rewrite <- fmap_take, take_seq, Nat.min_l by done.
    rewrite <- list_fmap_compose. apply list_fmap_ext. intros _ q _. simpl.
    by apply (causal_upto_take (max_sequence_length self)). }
  rewrite Hcm.
  rewrite combine_masks_spec
    by (apply rows_same_length; intros q; unfold causal_upto;
        by rewrite length_fmap, length_seq).
  rewrite bind_Some.
  rewrite zip_with_replicate_l by (rewrite length_fmap, length_seq; lia).
  rewrite <- list_fmap_compose.
  rewrite !fmap_replicate. cbv beta.
  rewrite bool_decide_true by done.
  set (rows := (zip_with andb am ∘ causal_upto n) <$> seq 0 n).
  assert (Hrows : Forall (fun r => length r = n) rows).
  { apply Forall_fmap, Forall_true. intros q. simpl.
    rewrite length_zip_with. unfold causal_upto.
    rewrite length_fmap, length_seq. lia. }
  rewrite combine_masks_spec.
  - f_equal. rewrite zip_with_replicate_r
      by (unfold rows; rewrite length_fmap, length_seq; lia).
    transitivity (fmap (M:=list) (fun r : list bool => r) rows);
      [|apply list_fmap_id].
    apply Forall_fmap_ext.
    eapply Forall_impl; [exact Hrows|]. simpl. intros r Hr.
    by apply and_true_row.
  - apply Forall2_same_length_lookup_2.
    + unfold rows. by rewrite length_replicate, length_fmap, length_seq.
    + intros j r1 r2 H1 H2.
      apply lookup_replicate in H2 as [-> _].
      rewrite length_replicate.
      eapply Forall_lookup_1 in Hrows; [|exact H1]. done.
Qed.

(** One call without cache over all the tokens (of one segment): every
    token attends causally over the tokens up to itself.  With
    [init_cache] the call also creates the cache variables, zero-filled,
    with the index at 0. *)
Lemma call_without_cache (toks : list (list R * nat)) (am : list bool)
    (s : Z) (init : bool) :
  length toks <= max_sequence_length self → length am = length toks →
  (length toks `mod` sp self = 0)%nat →
  Forall (fun tok => tok.2 < max_sequence_length self) toks →
  __call__ self None (toks.*1) am (replicate (length toks) s) (toks.*2) init
  = Some (causal_attention self am toks,
          if init
          then Some (mk_cache (zeros_like (key self <$> toks))
                       (zeros_like (value self <$> toks)) 0)
          else None).
Proof.
  intros Hn Ham Hsp Hp. rewrite call_unfold by done.
  unfold attention_bias_mask. rewrite full_mask_spec by done.
  rewrite bind_Some. unfold through_cache.
  rewrite (bool_decide_false (is_Some None)) by (by intros [? ?]).
  cbn [orb].
  set (rows := (fun q : nat => zip_with andb am (causal_upto (length toks) q))
               <$> seq 0 (length toks)).
  assert (Hgo :
    (out ← ring_attention_sharded self (query self <$> toks)
              (key self <$> toks) (value self <$> toks) rows;
     out ← _merge_heads self out;
     Some (fmap (M:=list) (dense (wo self)) out,
           if init
           then Some (mk_cache (zeros_like (key self <$> toks))
                        (zeros_like (value self <$> toks)) 0)
           else None))
    = Some (causal_attention self am toks,
            if init
            then Some (mk_cache (zeros_like (key self <$> toks))
                         (zeros_like (value self <$> toks)) 0)
            else None)).
  { rewrite attention_pipeline.
    - f_equal. f_equal. unfold rows, causal_attention. rewrite zip_with_seq.
      apply imap_ext. intros j tok Hj. simpl.
      apply attended_causal.
      + rewrite <- Ham. apply visible_causal.
      + by rewrite fmap_take.
      + by rewrite fmap_take.
    - unfold rows. by rewrite length_fmap, length_seq.
    - apply Forall_fmap, Forall_true. intros q. simpl.
      rewrite length_zip_with. unfold causal_upto.
      rewrite !length_fmap, length_seq. lia.
    - by rewrite !length_fmap.
    - by right.
    - by rewrite length_fmap. }
  destruct init; simpl; exact Hgo.
Qed.

(** The reference attention reads the attention mask only at the
    positions of the tokens. *)
Lemma causal_attention_mask (toks : list (list R * nat)) (am : list bool) :
  causal_attention self (take (length toks) am) toks
  = causal_attention self am toks.
Proof.
  unfold causal_attention. apply imap_ext. intros j tok Hj.
  apply lookup_lt_Some in Hj. unfold causal_row.
  by rewrite take_take_le by lia.
Qed.

Lemma written_nothing (c : cache) (all : list (list R * nat)) (i : nat) :
  cache_index c = Z.of_nat i → written self c all i 0 = c.
Proof.
  intros Hi. unfold written. destruct c as [K V ix]. simpl in *.
  rewrite !Nat.add_0_r, !take_drop. f_equal. lia.
Qed.

Lemma written_twice (c : cache) (all : list (list R * nat)) (i L1 L2 m : nat) :
  holds self c all i m → i + L1 <= length all → i + L1 <= m →
  written self (written self c all i L1) all (i + L1) L2
  = written self c all i (L1 + L2).
Proof.
  intros (Hi & Hk & Hv & _) Hall Hm.
  assert (Hnew : length (take L1 (drop i all)) = L1)
    by (rewrite length_take, length_drop; lia).
  assert (Hsplit : take (L1 + L2) (drop i all)
                   = take L1 (drop i all) ++ take L2 (drop (i + L1) all)).
  { rewrite <- take_take_drop. by rewrite drop_drop. }
  assert (Hbuf : ∀ (f : list R * nat → list (list R)) (B : list (list (list R))),
    length B = m →
    take (i + L1) (take i B ++ (f <$> take L1 (drop i all)) ++ drop (i + L1) B)
    ++ (f <$> take L2 (drop (i + L1) all))
    ++ drop (i + L1 + L2)
         (take i B ++ (f <$> take L1 (drop i all)) ++ drop (i + L1) B)
    = take i B ++ (f <$> take (L1 + L2) (drop i all)) ++ drop (i + (L1 + L2)) B).
  { intros f B HB.
    assert (Hp : length (take i B ++ (f <$> take L1 (drop i all))) = i + L1)
      by (rewrite length_app, length_take, length_fmap, Hnew; lia).
    rewrite (app_assoc (take i B)). rewrite take_app_length' by done.
    rewrite drop_app_ge by lia. rewrite Hp.
    rewrite drop_drop. rewrite Hsplit, fmap_app, <- !app_assoc.
    do 3 f_equal. f_equal. lia. }
  unfold written. simpl. f_equal.
  - by apply Hbuf.
  - by apply Hbuf.
  - lia.
Qed.

(** Decoding the tokens from number [i] on, one call each, on a cache that
    holds the tokens before. *)
Lemma decode_spec (all : list (list R * nat)) (am : list bool) (seg : Z)
    (m k : nat) :
  ∀ (i : nat) (c : cache),
    i + k = length all →
    holds self c all i m →
    length all <= m → (Z.of_nat m < 2 ^ 31)%Z →
    (m `mod` sp self = 0)%nat → length am = m →
    Forall (fun tok => tok.2 < max_sequence_length self) all →
    decode self (Some c) am seg (drop i all)
    = Some (imap (fun j tok => causal_row self am all (i + j) tok) (drop i all),
            Some (written self c all i k)).
Proof.
  induction k as [|k IH]; intros i c Hik Hc Hm H31 Hsp Ham Hp.
  - rewrite drop_ge by lia. simpl.
    rewrite written_nothing by apply Hc. done.
  - destruct (lookup_lt_is_Some_2 all i ltac:(lia)) as [tok Htok].
    rewrite (drop_S _ _ _ Htok). cbn [decode].
    pose proof (call_with_cache c all i 1 m am [seg] Hc ltac:(lia) ltac:(lia)
                  H31 Hsp Ham ltac:(by left) Hp) as Hcall.
    rewrite (drop_S _ _ _ Htok) in Hcall. cbn [take fmap list_fmap] in Hcall.
    rewrite take_0 in Hcall. cbn [fmap list_fmap fst snd imap] in Hcall.
    change ((take 0 (drop (S i) all)).*1) with (@nil (list R)) in Hcall.
    rewrite Hcall, bind_Some. cbn [fst snd].
    rewrite (IH (S i) (written self c all i 1)); try (done || lia).
    + rewrite bind_Some. cbn [fst snd app]. rewrite imap_cons. f_equal. f_equal.
      * f_equal. apply imap_ext. intros j x _. simpl. f_equal. lia.
      * f_equal. replace (S i) with (i + 1) by lia.
        rewrite (written_twice c all i 1 k m) by (done || lia). done.
    + replace (S i) with (i + 1) by lia. apply written_holds; (done || lia).
Qed.


End DecodeFacts.


(** *** The S6 block *)

Section S6Facts.

Import Tensor.
Local Open Scope R_scope.

Lemma softplus_0 : softplus 0 = ln 2.
Proof. unfold softplus. rewrite exp_0. f_equal; lra. Qed.

Lemma ln_2_pos : 0 < ln 2.
Proof. rewrite <- ln_1. apply ln_increasing; lra. Qed.

Lemma S6_example_forward :
  S6.forward S6Spec.example S6Spec.example_x = Some [[[ln 2]; [ln 2]]].
Proof.
  unfold S6.forward, Hyper.DIFFERENT_H_STATES_RECURRENT_UPDATE_MECHANISM.
  unfold S6.forward_fresh, S6Spec.example, S6Spec.example_x.
  simpl. unfold S6.contract, Broadcast.along. simpl.
  unfold linear, dot, sum. simpl.
  replace (0 * 1 + 0 + 0) with 0 by ring. rewrite softplus_0.
  change (@mret option _ (list (list (list R)))) with (@Some (list (list (list R)))).
  do 4 f_equal; [|f_equal]; f_equal; ring.
Qed.

Lemma S6_example_recurrence :
  S6Spec.recurrence S6Spec.example S6Spec.example_x
  = [[[ln 2]; [exp (- ln 2) * ln 2 + ln 2]]].
Proof.
  unfold S6Spec.recurrence, S6Spec.example, S6Spec.example_x.
  simpl. unfold linear, dot, sum. simpl.
  replace (0 * 1 + 0 + 0) with 0 by ring. rewrite softplus_0, exp_0.
  replace (ln 2 * - (1)) with (- ln 2) by ring.
  do 2 f_equal; [|f_equal]; f_equal; ring.
Qed.

Lemma ewise4_same (f : R → R → R) (a b : list (list (list (list R)))) :
  Forall2 (fun al bl => length al = length bl) a b →
  S6.ewise4 f a b = Some (zip_with (zip_with (zip_with (zip_with f))) a b).
Proof.
  intros H2. unfold S6.ewise4.
  rewrite along_same_length by (by eapply Forall2_length).
  induction H2 as [|al bl a b Hl _ IH]; [done|].
  cbn [zip zip_with mapM fst snd]. rewrite along_total by done.
  rewrite bind_Some. change (zip_with pair a b) with (zip a b).
  by rewrite IH.
Qed.

Lemma contract_same (C : list (list (list R)))
    (h : list (list (list (list R)))) :
  Forall2 (fun Cb hb => length Cb = length hb) C h →
  S6.contract C h
  = Some (zip_with (zip_with (fun (Cl : list R) (hl : list (list R)) =>
                                (fun hd : list R => dot Cl hd) <$> hl)) C h).
Proof.
  intros H2. unfold S6.contract.
  rewrite along_same_length by (by eapply Forall2_length).
  induction H2 as [|Cb hb C h Hl _ IH]; [done|].
  cbn [zip zip_with mapM fst snd]. rewrite along_total by done.
  rewrite bind_Some. change (zip_with pair C h) with (zip C h).
  by rewrite IH.
Qed.

(** On an input with [seq_len] time steps, [forward] computes at every
    time step the first step of the scan on the row of that time alone:
    the state it multiplies by [dA] is the zero tensor, whatever the time. *)
Lemma forward_restarts_from_zero (self : S6.t) (x : list (list (list R))) :
  Forall (fun xb => length xb = S6.seq_len self) x →
  S6.forward self x
  = Some ((fun xb : list (list R) => S6Spec.first_step self <$> xb) <$> x).
Proof.
  intros Hx. unfold S6.forward, Hyper.DIFFERENT_H_STATES_RECURRENT_UPDATE_MECHANISM.
  unfold S6.forward_fresh, S6.discretization.
  rewrite ewise4_same.
  2: { unfold S6.delta, S6.zeros4. induction Hx as [|xb x Hb _ IH]; [constructor|].
       cbn [length replicate]. rewrite !fmap_cons. constructor; [|exact IH].
       by rewrite !length_fmap, length_replicate. }
  rewrite bind_Some. rewrite ewise4_same.
  2: { unfold S6.delta, S6.B, S6.zeros4, S6.times_x.
       induction Hx as [|xb x Hb _ IH]; [constructor|].
       cbn [length replicate]. rewrite !fmap_cons. cbn [zip_with].
       constructor; [|exact IH].
       rewrite !length_zip_with, !length_fmap, length_replicate. lia. }
  rewrite bind_Some. rewrite contract_same.
  2: { unfold S6.delta, S6.B, S6.C, S6.zeros4, S6.times_x.
       induction Hx as [|xb x Hb _ IH]; [constructor|].
       cbn [length replicate]. rewrite !fmap_cons. cbn [zip_with].
       constructor; [|exact IH].
       rewrite !length_zip_with, !length_fmap, length_replicate. lia. }
  f_equal. unfold S6.delta, S6.B, S6.C, S6.zeros4, S6.times_x.
  induction Hx as [|xb x Hb _ IH]; [done|].
  cbn [length replicate]. rewrite !fmap_cons. cbn [zip_with]. f_equal; [|exact IH].
  clear IH. rewrite <- Hb. clear Hb.
  induction xb as [|xl xb IHb]; [done|].
  cbn [length replicate]. rewrite !fmap_cons. cbn [zip_with].
  rewrite IHb. reflexivity.
Qed.

(** C1.  The code does not run the recurrence of the claim.  On the
    degenerate block (one channel, one state, [dA = 1/2], [dB = ln 2],
    [C = 1]) and the input 1, 1, the recurrence started from 0 gives
    [h = ln 2, ln 2 / 2 + ln 2] and the same outputs, an exponential-decay
    accumulation; [forward] returns [ln 2] at both time steps, since it
    multiplies [dA] by a zero state at every time step. *)
Theorem S6_forward_skips_recurrence :
  S6.forward S6Spec.example S6Spec.example_x = Some [[[ln 2]; [ln 2]]]
  ∧ S6Spec.recurrence S6Spec.example S6Spec.example_x
    = [[[ln 2]; [ln 2 / 2 + ln 2]]]
  ∧ S6.forward S6Spec.example S6Spec.example_x
    ≠ Some (S6Spec.recurrence S6Spec.example S6Spec.example_x).
Proof.
  assert (Hrec : S6Spec.recurrence S6Spec.example S6Spec.example_x
                 = [[[ln 2]; [ln 2 / 2 + ln 2]]]).
  { rewrite S6_example_recurrence. rewrite exp_Ropp, exp_ln by lra.
    do 4 f_equal. lra. }
  split; [exact S6_example_forward|split; [exact Hrec|]].
  rewrite S6_example_forward, Hrec. intros Heq.
  injection Heq as Heq. pose proof ln_2_pos. lra.
Qed.

End S6Facts.

(** *** The Mamba block *)

Section MambaFacts.

Import Tensor.
Local Open Scope R_scope.

Lemma along2_total {X Y Z : Type} (f : X → Y → Z)
    (m1 : list (list X)) (m2 : list (list Y)) :
  Forall2 (fun r1 r2 => length r1 = length r2) m1 m2 →
  Broadcast.along
    (fun (r1 : list X) (r2 : list Y) =>
       Broadcast.along (fun a b => Some (f a b)) r1 r2) m1 m2
  = Some (zip_with (zip_with f) m1 m2).
Proof.
  intros H2. rewrite along_same_length by (by eapply Forall2_length).
  induction H2 as [|r1 r2 m1 m2 Hr _ IH]; [done|].
  cbn [zip zip_with mapM fst snd]. rewrite along_total by done.
  rewrite bind_Some. change (zip_with pair m1 m2) with (zip m1 m2).
  by rewrite IH.
Qed.

(** The entry [(t, j)] of the convolution stage on a well-shaped input:
    it reads column [j - 1 .. j + 1] of every row of the input, that is of
    every time step. *)
Lemma conv_stage_entry (self : MambaBlock.t) (x_proj : list (list R))
    (t j : nat) (w_t : list (list R)) (b_t : R) :
  length x_proj = MambaBlock.seq_len self →
  MambaBlock.seq_len self = Hyper.seq_len →
  length (MambaBlock.conv_weight self) = Hyper.seq_len →
  length (MambaBlock.conv_bias self) = Hyper.seq_len →
  length (default [] (x_proj !! 0%nat)) = (2 * Hyper.d_model)%nat →
  MambaBlock.conv_weight self !! t = Some w_t →
  MambaBlock.conv_bias self !! t = Some b_t →
  (j < 2 * Hyper.d_model)%nat →
  ∃ y, MambaBlock.conv_stage self x_proj = Some y
       ∧ (y !! t) ≫= (fun row => row !! j)
         = Some ((b_t + sum (zip_with
                               (fun w_tc x_c =>
                                  MambaBlock.tap w_tc (MambaBlock.pad x_c) j)
                               w_t x_proj))
                 * (if bool_decide (j <= t)%nat then 1 else 0)).
Proof.
  intros Hx Hs Hw Hb HL Hwt Hbt Hj.
  unfold MambaBlock.conv_stage, MambaBlock.conv.
  rewrite decide_True by done. rewrite bind_Some, HL.
  unfold MambaBlock.masked. rewrite along2_total.
  - eexists. split; [reflexivity|].
    assert (Ht : (t < Hyper.seq_len)%nat)
      by (rewrite <- Hw; by eapply lookup_lt_Some).
    rewrite lookup_zip_with, lookup_zip_with, Hwt, Hbt. cbn [mbind option_bind].
    unfold MambaBlock.mask at 1.
    rewrite list_lookup_fmap, lookup_seq_lt by done.
    cbn [fmap option_fmap option_map mbind option_bind].
    rewrite lookup_zip_with, !list_lookup_fmap, !lookup_seq_lt by done.
    reflexivity.
  - apply Forall2_same_length_lookup_2.
    + rewrite length_zip_with, Hw, Hb. unfold MambaBlock.mask.
      rewrite length_fmap, length_seq. lia.
    + intros i r m Hr Hm. apply lookup_zip_with_Some in Hr as (w & b & -> & _ & _).
      unfold MambaBlock.mask in Hm. rewrite list_lookup_fmap in Hm.
      destruct (seq 0 Hyper.seq_len !! i); [|done]. injection Hm as <-.
      by rewrite !length_fmap, !length_seq.
Qed.

Lemma example_kernel_row_0 :
  MambaBlock.conv_weight MambaExample.block !! 0%nat
  = Some ((fun c : nat =>
             if bool_decide (0 = 0 ∧ c = 1)%nat then [0; 1; 0] else [0; 0; 0])
          <$> seq 0 Hyper.seq_len).
Proof. reflexivity. Qed.

Lemma example_quiet_sum :
  sum (zip_with (fun w_tc x_c => MambaBlock.tap w_tc (MambaBlock.pad x_c) 0)
         ((fun c : nat =>
             if bool_decide (0 = 0 ∧ c = 1)%nat then [0; 1; 0] else [0; 0; 0])
          <$> seq 0 Hyper.seq_len)
         MambaExample.quiet) = 0.
Proof.
  unfold MambaBlock.tap, MambaBlock.pad, sum. vm_compute. lra.
Qed.

Lemma example_pulse_sum :
  sum (zip_with (fun w_tc x_c => MambaBlock.tap w_tc (MambaBlock.pad x_c) 0)
         ((fun c : nat =>
             if bool_decide (0 = 0 ∧ c = 1)%nat then [0; 1; 0] else [0; 0; 0])
          <$> seq 0 Hyper.seq_len)
         MambaExample.pulse_at_1) = 1.
Proof.
  unfold MambaBlock.tap, MambaBlock.pad, sum. vm_compute. lra.
Qed.

(** C9.  The convolution of the block is not causal over time.  On the
    block of the example, two inputs of the convolution that agree at time
    step 0 and differ at time step 1 give different outputs at time step 0
    (0 and 1 in column 0): [nn.Conv1d(seq_len, seq_len, ..)] takes the time steps as
    its channels and sums over all of them, and the triangular mask that
    follows compares the column with the time step, not two time steps. *)
Theorem Mamba_conv_reads_later_steps :
  MambaExample.quiet !! 0%nat = MambaExample.pulse_at_1 !! 0%nat
  ∧ ∃ y y',
      MambaBlock.conv_stage MambaExample.block MambaExample.quiet = Some y
      ∧ MambaBlock.conv_stage MambaExample.block MambaExample.pulse_at_1
        = Some y'
      ∧ (y !! 0%nat) ≫= (fun row => row !! 0%nat) = Some 0
      ∧ (y' !! 0%nat) ≫= (fun row => row !! 0%nat) = Some 1.
Proof.
  split; [reflexivity|].
  destruct (conv_stage_entry MambaExample.block MambaExample.quiet 0 0 _ 0
              eq_refl eq_refl eq_refl eq_refl eq_refl example_kernel_row_0
              eq_refl ltac:(vm_compute; lia)) as (y & Hy & Hy0).
  destruct (conv_stage_entry MambaExample.block MambaExample.pulse_at_1 0 0 _ 0
              eq_refl eq_refl eq_refl eq_refl eq_refl example_kernel_row_0
              eq_refl ltac:(vm_compute; lia)) as (y' & Hy' & Hy0').
  exists y, y'. split; [exact Hy|split; [exact Hy'|split]].
  - rewrite Hy0, example_quiet_sum. rewrite bool_decide_true by lia.
    f_equal. lra.
  - rewrite Hy0', example_pulse_sum. rewrite bool_decide_true by lia.
    f_equal. lra.
Qed.

End MambaFacts.

(** *** Blockwise ring attention against standard attention *)

Section RingFacts.

Import Tensor FlaxLLaMAAttention AttentionSpec RingSpec.
Local Open Scope R_scope.

Lemma sum_cons (x : R) (l : list R) : sum (x :: l) = x + sum l.
Proof. reflexivity. Qed.

Lemma wsum_app (m : R) (E1 E2 : list (R * bool * list R)) :
  wsum m (E1 ++ E2) = wsum m E1 + wsum m E2.
Proof. unfold wsum. by rewrite fmap_app, sum_app. Qed.

Lemma vsum_app (m : R) (k : nat) (E1 E2 : list (R * bool * list R)) :
  vsum m k (E1 ++ E2) = vsum m k E1 + vsum m k E2.
Proof. unfold vsum. by rewrite fmap_app, sum_app. Qed.

(** Moving the reference maximum rescales every weight alike. *)
Lemma weight_shift (m m' : R) (e : R * bool * list R) :
  weight m e * exp (m - m') = weight m' e.
Proof.
  unfold weight. destruct (e.1.2); [|lra].
  rewrite <- exp_plus. f_equal. lra.
Qed.

Lemma wsum_shift (m m' : R) (E : list (R * bool * list R)) :
  wsum m E * exp (m - m') = wsum m' E.
Proof.
  unfold wsum. induction E as [|e E IH]; [simpl; lra|].
  rewrite !fmap_cons, !sum_cons, <- IH, <- (weight_shift m m' e). lra.
Qed.

Lemma vsum_shift (m m' : R) (k : nat) (E : list (R * bool * list R)) :
  vsum m k E * exp (m - m') = vsum m' k E.
Proof.
  unfold vsum. induction E as [|e E IH]; [simpl; lra|].
  rewrite !fmap_cons, !sum_cons, <- IH, <- (weight_shift m m' e). lra.
Qed.

Lemma wsum_hidden (m : R) (E : list (R * bool * list R)) :
  Forall (fun e => e.1.2 = false) E → wsum m E = 0.
Proof.
  unfold wsum. induction 1 as [|e E He _ IH]; [done|].
  rewrite fmap_cons, sum_cons, IH. unfold weight. rewrite He. lra.
Qed.

Lemma vsum_hidden (m : R) (k : nat) (E : list (R * bool * list R)) :
  Forall (fun e => e.1.2 = false) E → vsum m k E = 0.
Proof.
  unfold vsum. induction 1 as [|e E He _ IH]; [done|].
  rewrite fmap_cons, sum_cons, IH. unfold weight. rewrite He. lra.
Qed.

(** The sums that [absorb] adds are those of the entries of the chunk. *)
Lemma chunk_wsum (m : R) (s : list R) (allowed : list bool)
    (vs : list (list R)) :
  length s = length allowed → length allowed = length vs →
  sum (zip_with (fun (sj : R) (a : bool) => if a then exp (sj - m) else 0)
         s allowed)
  = wsum m (entries s allowed vs).
Proof.
  unfold wsum, entries. revert allowed vs.
  induction s as [|sj s IH]; intros [|a al] [|v vs] H1 H2; try done.
  simpl in H1, H2. cbn [zip_with]. rewrite fmap_cons, !sum_cons.
  rewrite (IH al vs) by lia. done.
Qed.

Lemma chunk_vsum (m : R) (k : nat) (s : list R) (allowed : list bool)
    (vs : list (list R)) :
  sum (zip_with (fun (wj : R) (vj : list R) => wj * default 0 (vj !! k))
         (zip_with (fun (sj : R) (a : bool) => if a then exp (sj - m) else 0)
            s allowed) vs)
  = vsum m k (entries s allowed vs).
Proof.
  unfold vsum, entries. revert allowed vs.
  induction s as [|sj s IH]; intros [|a al] [|v vs]; try done.
  cbn [zip_with]. rewrite fmap_cons, !sum_cons.
  rewrite (IH al vs). done.
Qed.

Lemma chunk_max_None (s : list R) (allowed : list bool) (vs : list (list R)) :
  chunk_max s allowed = None →
  Forall (fun e : R * bool * list R => e.1.2 = false) (entries s allowed vs).
Proof.
  unfold chunk_max, entries. revert allowed vs.
  induction s as [|sj s IH]; intros [|a al] [|v vs] Hm; try constructor.
  - simpl in Hm. simpl. by destruct a.
  - apply IH. simpl in Hm. by destruct a.
Qed.

(** [absorb] keeps the statistics in step with the entries seen. *)
Lemma absorb_tracks (d : nat) (c : carry) (E : list (R * bool * list R))
    (s : list R) (allowed : list bool) (vs : list (list R)) :
  tracks d c E →
  length s = length allowed → length allowed = length vs →
  tracks d (absorb d c s allowed vs) (E ++ entries s allowed vs).
Proof.
  intros Ht H1 H2. unfold absorb, tracks in *.
  destruct (run_max c) as [m|] eqn:Hm.
  - destruct Ht as [Hs Ho].
    assert (Hnew : ∀ m' : R,
      tracks d
        (mk_carry (Some m')
           (run_sum c * exp (m - m')
            + sum (zip_with (fun (sj : R) (a : bool) =>
                               if a then exp (sj - m') else 0) s allowed))
           ((fun k : nat =>
               default 0 (run_out c !! k) * exp (m - m')
               + sum (zip_with (fun (wj : R) (vj : list R) =>
                                  wj * default 0 (vj !! k))
                        (zip_with (fun (sj : R) (a : bool) =>
                                     if a then exp (sj - m') else 0) s allowed)
                        vs)) <$> seq 0 d))
        (E ++ entries s allowed vs)).
    { intros m'. unfold tracks. simpl. split.
      - by rewrite wsum_app, <- (chunk_wsum m' s allowed vs), Hs, wsum_shift.
      - apply list_fmap_ext. intros j k Hk.
        apply lookup_seq in Hk as [-> Hj]. simpl.
        rewrite Ho, list_lookup_fmap, lookup_seq_lt by done. simpl.
        by rewrite vsum_app, <- chunk_vsum, vsum_shift. }
    destruct (chunk_max s allowed) as [mc|]; simpl; apply Hnew.
  - destruct Ht as (Hs & Ho & Hh).
    destruct (chunk_max s allowed) as [mc|] eqn:Hc; simpl.
    + split.
      * rewrite wsum_app, <- (chunk_wsum mc s allowed vs), Hs,
          (wsum_hidden mc E) by done. lra.
      * apply list_fmap_ext. intros j k Hk.
        apply lookup_seq in Hk as [-> Hj]. simpl.
        rewrite vsum_app, <- chunk_vsum, (vsum_hidden mc _ E) by done.
        rewrite Ho. unfold zeros. rewrite lookup_replicate_2 by done.
        simpl. lra.
    + rewrite Hm. split; [done|split; [done|]].
      apply Forall_app. split; [done|]. by apply chunk_max_None.
Qed.

Lemma chunk_entries (n kc : nat) (s : list R) (allowed : list bool)
    (vs : list (list R)) :
  entries (chunk n kc s) (chunk n kc allowed) (chunk n kc vs)
  = chunk n kc (entries s allowed vs).
Proof.
  unfold entries, chunk.
  by rewrite !zip_with_drop, !zip_with_take.
Qed.

(** After the chunks [visits], the statistics summarise their entries. *)
Lemma fold_tracks (d n : nat) (s : list R) (allowed : list bool)
    (vs : list (list R)) (visits : list nat) :
  length s = length allowed → length allowed = length vs →
  ∀ (c : carry) (E : list (R * bool * list R)),
    tracks d c E →
    tracks d
      (foldl (fun (c : carry) (kc : nat) =>
                absorb d c (chunk n kc s) (chunk n kc allowed) (chunk n kc vs))
         c visits)
      (E ++ (visits ≫= fun kc => chunk n kc (entries s allowed vs))).
Proof.
  intros H1 H2. induction visits as [|kc visits IH]; intros c E Ht.
  - simpl. by rewrite app_nil_r.
  - cbn [foldl]. rewrite bind_cons, app_assoc. apply IH.
    rewrite <- chunk_entries. apply absorb_tracks; [done| |];
      unfold chunk; rewrite !length_take, !length_drop; lia.
Qed.

Lemma sum_bind {A B : Type} (f : B → R) (g : A → list B) (l : list A) :
  sum (f <$> (l ≫= g)) = sum ((fun x => sum (f <$> g x)) <$> l).
Proof.
  induction l as [|x l IH]; [done|].
  rewrite bind_cons, fmap_app, sum_app, fmap_cons, sum_cons, IH. done.
Qed.

Lemma sum_Permutation (l k : list R) : l ≡ₚ k → sum l = sum k.
Proof.
  induction 1 as [|x l k _ IH|x y l|l k j _ IH1 _ IH2];
    rewrite ?sum_cons; try lra; congruence.
Qed.

Lemma sum_filter {A : Type} (h : A → R) (P : A → Prop)
    `{∀ x, Decision (P x)} (l : list A) :
  (∀ x, x ∈ l → ¬ P x → h x = 0) →
  sum (h <$> filter P l) = sum (h <$> l).
Proof.
  induction l as [|x l IH]; intros Hz; [done|].
  rewrite fmap_cons, sum_cons.
  destruct (decide (P x)) as [Hp|Hp].
  - rewrite filter_cons_True by done. rewrite fmap_cons, sum_cons, IH; [done|].
    intros y Hy. apply Hz. by right.
  - rewrite filter_cons_False by done. rewrite IH, (Hz x); [lra|by left|done|].
    intros y Hy. apply Hz. by right.
Qed.

Lemma chunks_in_order {A : Type} (n N : nat) (l : list A) :
  seq 0 N ≫= (fun kc => chunk n kc l) = take (N * n)%nat l.
Proof.
  induction N as [|N IH]; [by rewrite take_0|].
  rewrite seq_S, bind_app, IH. cbn [mbind list_bind app]. rewrite app_nil_r.
  unfold chunk. rewrite take_take_drop. f_equal. lia.
Qed.

Lemma blocks_in_order (sp cps : nat) :
  seq 0 sp ≫= (fun sh : nat => (fun c : nat => sh * cps + c)%nat <$> seq 0 cps)
  = seq 0 (sp * cps)%nat.
Proof.
  induction sp as [|sp IH]; [done|].
  rewrite seq_S, bind_app, IH. cbn [mbind list_bind app]. rewrite app_nil_r.
  replace (S sp * cps)%nat with (sp * cps + cps)%nat by lia.
  rewrite seq_app. f_equal. simpl.
  rewrite fmap_add_seq. f_equal. lia.
Qed.

(** Every key chunk passes once by every processing unit. *)
Lemma ring_chunks_all (sp cps dev : nat) :
  ring_chunks sp cps dev ≡ₚ seq 0 (sp * cps)%nat.
Proof.
  unfold ring_chunks. rewrite <- blocks_in_order.
  apply bind_Permutation. unfold rotate.
  rewrite Permutation_app_comm. by rewrite take_drop.
Qed.

(** Once every entry has been seen the output is the quotient of the two
    sums, whatever the running maximum was. *)
Lemma finish_tracks (d : nat) (c : carry) (E : list (R * bool * list R)) :
  tracks d c E →
  finish c = (fun k : nat => vsum 0 k E / wsum 0 E) <$> seq 0 d.
Proof.
  unfold tracks, finish. destruct (run_max c) as [m|].
  - intros [-> ->]. rewrite <- list_fmap_compose.
    apply list_fmap_ext. intros _ k _. simpl.
    rewrite <- (wsum_shift 0 m E), <- (vsum_shift 0 m k E).
    unfold Rdiv. rewrite Rinv_mult.
    pose proof (exp_pos (0 - m)) as He. revert He.
    generalize (exp (0 - m)), (vsum 0 k E), (/ wsum 0 E). intros e a b He.
    transitivity (a * b * (e * / e)); [ring|].
    rewrite Rinv_r by lra. ring.
  - intros (-> & -> & Hh). unfold zeros. rewrite fmap_replicate.
    rewrite (wsum_hidden 0 E Hh).
    transitivity ((fun _ : nat => 0 / 0) <$> seq 0 d).
    + clear. generalize 0%nat. induction d as [|d IH]; intros j; [done|].
      cbn [replicate seq]. rewrite fmap_cons. f_equal. apply IH.
    + apply list_fmap_ext. intros _ k _. by rewrite (vsum_hidden 0 k E Hh).
Qed.

(** Standard attention in terms of the entries. *)
Lemma attend_entries (d : nat) (scale : R) (q : list R) (ks vs : list (list R))
    (row : list bool) :
  length ks = length row → length row = length vs →
  attend d scale q ks vs row
  = (fun k : nat =>
       vsum 0 k (entries ((fun k : list R => dot q k / scale) <$> ks) row vs)
       / wsum 0 (entries ((fun k : list R => dot q k / scale) <$> ks) row vs))
    <$> seq 0 d.
Proof.
  intros Hk Hv. unfold attend. apply list_fmap_ext. intros _ c _.
  f_equal.
  - unfold vsum, scores, entries. revert row vs Hk Hv.
    induction ks as [|k ks IH]; intros [|b row] [|v vs] Hk Hv;
      try done; simpl in *.
    f_equal; [|apply IH; lia]. unfold weight. simpl.
    destruct b; [|done]. by rewrite Rminus_0_r.
  - unfold wsum, scores, entries. revert row vs Hk Hv.
    induction ks as [|k ks IH]; intros [|b row] [|v vs] Hk Hv;
      try done; simpl in *.
    f_equal; [|apply IH; lia]. unfold weight. simpl.
    destruct b; [|done]. by rewrite Rminus_0_r.
Qed.

Lemma entries_length (s : list R) (allowed : list bool) (vs : list (list R)) :
  length s = length allowed → length allowed = length vs →
  length (entries s allowed vs) = length s.
Proof. intros H1 H2. unfold entries. rewrite !length_zip. lia. Qed.

Lemma entries_hidden (n : nat) (s : list R) (allowed : list bool)
    (vs : list (list R)) :
  Forall (fun b => b = false) (drop n allowed) →
  Forall (fun e : R * bool * list R => e.1.2 = false)
    (drop n (entries s allowed vs)).
Proof.
  intros Hh. apply Forall_lookup. intros j e He.
  rewrite lookup_drop in He. unfold entries in He.
  apply lookup_zip_with_Some in He as (sa & v & -> & Hsa & _).
  apply lookup_zip_with_Some in Hsa as (x & b & -> & _ & Hb).
  simpl. eapply Forall_lookup_1 in Hh; [exact Hh|].
  rewrite lookup_drop. exact Hb.
Qed.

(** The sum over the chunks that a query visits, in the order of the ring
    and without the chunks that lie after it, is the sum over all keys. *)
Lemma visits_sum (f : R * bool * list R → R) (sp k_chunk dev i last_q : nat)
    (E : list (R * bool * list R)) :
  (∀ e, e.1.2 = false → f e = 0) →
  sp ≠ O → k_chunk ≠ O →
  (length E `mod` sp = 0)%nat → ((length E / sp) `mod` k_chunk = 0)%nat →
  (i <= last_q)%nat →
  Forall (fun e : R * bool * list R => e.1.2 = false) (drop (S i) E) →
  sum (f <$> (filter (fun kc : nat => (kc * k_chunk <= last_q)%nat)
                (ring_chunks sp (length E / sp / k_chunk) dev)
              ≫= fun kc => chunk k_chunk kc E))
  = sum (f <$> E).
Proof.
  intros Hf Hsp Hk Hd1 Hd2 Hi Hh.
  rewrite sum_bind, sum_filter.
  - rewrite (sum_Permutation _ _
               (fmap_Permutation _ _ _ (ring_chunks_all sp _ dev))).
    rewrite <- sum_bind, chunks_in_order, take_ge; [done|].
    apply Nat.Div0.div_exact in Hd1, Hd2. nia.
  - intros kc _ Hkc. apply sum_zero, Forall_fmap.
    unfold chunk. apply Forall_take.
    replace (kc * k_chunk)%nat with (S i + (kc * k_chunk - S i))%nat by lia.
    rewrite <- drop_drop. apply Forall_drop.
    eapply Forall_impl; [exact Hh|]. simpl. intros e He. by apply Hf.
Qed.

(** Blockwise attention of one query equals standard attention with the
    same mask row, when the row hides the keys after the query. *)
Lemma blockwise_row_attend (d : nat) (scale : R) (sp q_chunk k_chunk i : nat)
    (q : list R) (ks vs : list (list R)) (allowed : list bool) :
  sp ≠ O → q_chunk ≠ O → k_chunk ≠ O →
  (length ks `mod` sp = 0)%nat → ((length ks / sp) `mod` k_chunk = 0)%nat →
  length vs = length ks → length allowed = length ks →
  Forall (fun b => b = false) (drop (S i) allowed) →
  blockwise_row d scale sp q_chunk k_chunk i q ks vs allowed
  = attend d scale q ks vs allowed.
Proof.
  intros Hsp Hq Hk Hd1 Hd2 Hv Ha Hh.
  rewrite attend_entries by lia. unfold blockwise_row.
  set (s := (fun k : list R => dot q k / scale) <$> ks).
  set (E := entries s allowed vs).
  assert (Hs : length s = length ks) by (unfold s; by rewrite length_fmap).
  assert (HE : length E = length ks)
    by (unfold E; rewrite entries_length; lia).
  set (last_q := (i / q_chunk * q_chunk + q_chunk - 1)%nat).
  assert (Hlast : (i <= last_q)%nat).
  { unfold last_q. pose proof (Nat.div_mod_eq i q_chunk) as Hdm.
    pose proof (Nat.mod_upper_bound i q_chunk Hq). lia. }
  set (visits := filter (fun kc : nat => (kc * k_chunk <= last_q)%nat)
                   (ring_chunks sp (length ks / sp / k_chunk)
                      (i / (length ks / sp)))).
  assert (Htr : tracks d (mk_carry None 0 (zeros d)) []).
  { unfold tracks. simpl. done. }
  pose proof (fold_tracks d k_chunk s allowed vs visits
                ltac:(lia) ltac:(lia) _ _ Htr) as Hfold.
  rewrite (finish_tracks d _ _ Hfold). rewrite app_nil_l.
  fold E. unfold visits. rewrite <- HE.
  apply list_fmap_ext. intros _ k _. f_equal.
  - unfold vsum. apply (visits_sum _ sp k_chunk _ i last_q);
      try done; try (by rewrite HE).
    + intros e He. unfold weight. rewrite He. lra.
    + by apply entries_hidden.
  - unfold wsum. apply (visits_sum _ sp k_chunk _ i last_q);
      try done; try (by rewrite HE).
    + intros e He. unfold weight. by rewrite He.
    + by apply entries_hidden.
Qed.

Lemma blockwise_allowed_length (am : list bool) (segs : list Z) (i : nat) :
  length segs = length am →
  length (blockwise_allowed am segs i) = length am.
Proof.
  intros Hs. unfold blockwise_allowed.
  rewrite !length_zip_with, !length_fmap, length_seq. lia.
Qed.

(** The mask row of a query hides every later key. *)
Lemma blockwise_allowed_hidden (am : list bool) (segs : list Z) (i : nat) :
  Forall (fun b => b = false) (drop (S i) (blockwise_allowed am segs i)).
Proof.
  apply Forall_lookup. intros j b Hb. rewrite lookup_drop in Hb.
  unfold blockwise_allowed in Hb.
  apply lookup_zip_with_Some in Hb as (x & y & -> & Hx & _).
  apply lookup_zip_with_Some in Hx as (a & c & -> & _ & Hc).
  rewrite list_lookup_fmap in Hc.
  destruct (seq 0 (length am) !! (S i + j)%nat) as [k|] eqn:Hk; [|done].
  apply lookup_seq in Hk as [-> _]. simpl in Hc. injection Hc as <-.
  rewrite bool_decide_false by lia. by rewrite andb_false_r.
Qed.

(** With the mask rows of the blockwise path, standard attention gives
    what blockwise ring attention gives. *)
Lemma ring_standard (d sp q_chunk k_chunk : nat) (xq xk xv : list slice)
    (am : list bool) (segs : list Z) :
  sp ≠ O → q_chunk ≠ O → k_chunk ≠ O →
  (length xk `mod` sp = 0)%nat →
  ((length xk / sp) `mod` q_chunk = 0)%nat →
  ((length xk / sp) `mod` k_chunk = 0)%nat →
  length xq = length xk → length xv = length xk →
  length am = length xk → length segs = length xk →
  ring_attention d sp q_chunk k_chunk xq xk xv am segs
  = ring_attention_standard d xq xk xv
      (blockwise_allowed am segs <$> seq 0 (length xq)).
Proof.
  intros Hsp Hq Hk Hd1 Hd2 Hd3 Hlq Hlv Ham Hsg.
  unfold ring_attention, ring_attention_standard.
  rewrite decide_True by done. rewrite decide_True.
  - f_equal. rewrite zip_with_seq. apply imap_ext. intros i heads _.
    apply imap_ext. intros h q _. simpl.
    unfold head. apply blockwise_row_attend; rewrite ?length_fmap; try done.
    + rewrite blockwise_allowed_length; lia.
    + apply blockwise_allowed_hidden.
  - split; [by rewrite length_fmap, length_seq|]. split; [|done].
    apply Forall_fmap, Forall_true. intros i. simpl.
    rewrite blockwise_allowed_length; lia.
Qed.

Lemma zip_with_seq_lookup {B C : Type} (H : nat → B → C) (dflt : B)
    (l : list B) :
  zip_with H (seq 0 (length l)) l
  = (fun q : nat => H q (default dflt (l !! q))) <$> seq 0 (length l).
Proof.
  apply list_eq. intros j. rewrite lookup_zip_with, list_lookup_fmap.
  destruct (decide (j < length l)%nat) as [Hj|Hj].
  - rewrite lookup_seq_lt by done. simpl.
    destruct (lookup_lt_is_Some_2 l j Hj) as [x Hx]. by rewrite Hx.
  - by rewrite lookup_seq_ge by lia.
Qed.

End RingFacts.

(** *** The two paths of the attention call *)

Section ScanPath.

Import Tensor FlaxLLaMAAttention AttentionSpec.

Variable self : t.
Hypothesis Hwf : well_formed self.

(** The mask of a call without cache over [n] tokens: row [q] is the
    attention mask, the causal order and the segment of query [q]. *)
Lemma full_mask_segments (am : list bool) (segs : list Z) (n : nat) :
  n <= max_sequence_length self → length am = n → length segs = n →
  full_mask self am segs n n
  = Some (blockwise_allowed am segs <$> seq 0 n).
Proof.
  intros Hn Ham Hsg. unfold full_mask, broadcast_to_rows.
  rewrite Nat.min_l by done. rewrite decide_True by done.
  rewrite bind_Some.
  assert (Hcm : take n <$> take n (causal_mask self) = causal_upto n <$> seq 0 n).
  { unfold causal_mask, make_causal_mask.
    rewrite <- fmap_take, take_seq, Nat.min_l by done.
    rewrite <- list_fmap_compose. apply list_fmap_ext. intros _ q _. simpl.
    by apply (causal_upto_take (max_sequence_length self)). }
  rewrite Hcm.
  rewrite combine_masks_spec
    by (apply rows_same_length; intros q; unfold causal_upto;
        by rewrite length_fmap, length_seq).
  rewrite bind_Some.
  rewrite zip_with_replicate_l by (rewrite length_fmap, length_seq; lia).
  rewrite <- list_fmap_compose.
  rewrite combine_masks_spec.
  - f_equal. rewrite zip_with_fmap_l, zip_with_fmap_r.
    rewrite <- Hsg at 1. rewrite (zip_with_seq_lookup _ 0%Z).
    rewrite Hsg. apply list_fmap_ext. intros _ q _. simpl.
    unfold blockwise_allowed, causal_upto. by rewrite Ham.
  - apply Forall2_same_length_lookup_2.
    + by rewrite !length_fmap, length_seq.
    + intros j r1 r2 H1 H2.
      rewrite list_lookup_fmap in H1. rewrite list_lookup_fmap in H2.
      destruct (seq 0 n !! j) as [q|]; [|done].
      destruct (segs !! j) as [sq|]; [|done].
      simpl in *. injection H1 as <-. injection H2 as <-.
      rewrite length_zip_with. unfold causal_upto.
      rewrite !length_fmap, length_seq. lia.
Qed.


End ScanPath.


(** *** Further properties of the dataset index *)

Section DatasetIndex.

Import PileRandomIODataset.
Local Open Scope Z_scope.

Lemma before_total (counts : list Z) (k : nat) :
  Forall (fun c => 0 <= c) counts →
  Shards.before counts k <= Shards.sumZ counts.
Proof.
  intros Hn. unfold Shards.before.
  rewrite <- (take_drop k counts) at 2. rewrite sumZ_app.
  assert (0 <= Shards.sumZ (drop k counts)); [|lia].
  apply sumZ_nonneg. by apply Forall_drop.
Qed.

Lemma cumulative_step (counts : list Z) (k : nat) (c : Z) :
  counts !! k = Some c →
  Shards.cumulative counts k = Shards.before counts k + c.
Proof.
  intros Hk. unfold Shards.cumulative, Shards.before.
  rewrite (take_S_r _ _ _ Hk), sumZ_app. simpl. lia.
Qed.

(** Every row of every shard is reached by exactly the global index that
    counts the rows before it: row [r] of shard [k] is found at the sum of
    the row counts of the shards before [k], plus [r]. *)
Theorem every_row_is_reached (shards : list (string * Z)) (msl pid : Z)
    (k : nat) (fpath : string) (c r : Z) :
  Forall (fun s => 0 <= s.2) shards →
  shards !! k = Some (fpath, c) →
  0 <= r < c →
  _get_db_and_idx (__init__ shards msl pid) (Shards.before (shards.*2) k + r)
  = Some (fpath, r).
Proof.
  intros Hn Hk Hr.
  assert (Hc : Forall (fun c => 0 <= c) (shards.*2))
    by (apply Forall_fmap; exact Hn).
  assert (Hck : shards.*2 !! k = Some c)
    by (by rewrite list_lookup_fmap, Hk).
  pose proof (cumulative_step _ _ _ Hck) as Hcum.
  pose proof (before_total (shards.*2) (S k) Hc) as Htot.
  rewrite before_succ in Htot.
  pose proof (before_mono (shards.*2) 0 k Hc ltac:(lia)) as H0.
  change (Shards.before (shards.*2) 0) with 0 in H0.
  assert (Hg : 0 <= Shards.before (shards.*2) k + r
               < Shards.sumZ (shards.*2)) by lia.
  destruct (resolve_in_range shards msl pid _ Hn Hg)
    as (k' & fpath' & Hres & Hf & Hhi & Hlo).
  assert (k' = k) as ->.
  { destruct (Nat.lt_trichotomy k' k) as [Hlt|[Heq|Hgt]]; [|done|].
    - pose proof (before_mono (shards.*2) (S k') k Hc ltac:(lia)) as Hm.
      rewrite before_succ in Hm. lia.
    - specialize (Hlo k Hgt). lia. }
  rewrite Hres. rewrite list_lookup_fmap, Hk in Hf. simpl in Hf.
  injection Hf as <-. do 2 f_equal. lia.
Qed.

Lemma every_row_is_reached_witness :
  _get_db_and_idx (__init__ Shards.example 8 0)
    (Shards.before (Shards.example.*2) 1 + 4)
  = Some ("shard1"%string, 4).
Proof.
  apply (every_row_is_reached Shards.example 8 0 1 "shard1" 5 4).
  - repeat constructor; simpl; lia.
  - reflexivity.
  - lia.
Defined.

(** A negative index is neither wrapped around nor refused: on a dataset
    with at least one shard it resolves to the first shard, with the
    negative index itself as row id. *)
Theorem negative_index_goes_to_first_shard (shards : list (string * Z))
    (msl pid idx : Z) (fpath : string) (c : Z) :
  Forall (fun s => 0 <= s.2) shards →
  shards !! 0%nat = Some (fpath, c) →
  idx < 0 →
  _get_db_and_idx (__init__ shards msl pid) idx = Some (fpath, idx).
Proof.
  intros Hn H0 Hidx.
  destruct (init_fields shards msl pid Hn) as (Hi & Hk & _).
  destruct shards as [|[f0 c0] rest]; [done|].
  simpl in H0. injection H0 as -> ->.
  inversion Hn as [|? ? Hc0 _]; subst. simpl in Hc0.
  unfold _get_db_and_idx. rewrite Hi, Hk. simpl.
  destruct (Z.ltb_spec (0 + c) (idx + 1)) as [Hlt|Hge]; [lia|].
  simpl. do 2 f_equal. lia.
Qed.

Lemma negative_index_goes_to_first_shard_witness :
  _get_db_and_idx (__init__ Shards.example 8 0) (-1)
  = Some ("shard0"%string, -1).
Proof.
  apply (negative_index_goes_to_first_shard Shards.example 8 0 (-1)
           "shard0" 3).
  - repeat constructor; simpl; lia.
  - reflexivity.
  - lia.
Defined.

(** The length of the dataset is the sum of the row counts, and
    [__getitem__] at an index from the length on raises, whatever the
    shards hold. *)
Theorem getitem_past_the_end_fails {Seq : Type}
    (rows : string → Z → option (string * Seq * Z))
    (decode : Seq → option (list Z))
    (shards : list (string * Z)) (msl pid idx : Z) :
  Forall (fun s => 0 <= s.2) shards →
  __len__ (__init__ shards msl pid) <= idx →
  __len__ (__init__ shards msl pid) = Shards.sumZ (shards.*2)
  ∧ __getitem__ rows decode (__init__ shards msl pid) idx = None.
Proof.
  intros Hn Hidx.
  destruct (init_fields shards msl pid Hn) as (_ & _ & Hl).
  split; [exact Hl|]. unfold __getitem__.
  rewrite resolve_past_end; [done|exact Hn|lia].
Qed.

Lemma getitem_past_the_end_fails_witness :
  __len__ (__init__ Shards.example 8 0) = Shards.sumZ (Shards.example.*2)
  ∧ __getitem__ (fun _ _ => Some ("pile"%string, tt, 1)) (fun _ => Some [1; 2])
      (__init__ Shards.example 8 0) 10 = None.
Proof.
  apply (getitem_past_the_end_fails (fun _ _ => Some ("pile"%string, tt, 1))
           (fun _ => Some [1; 2]) Shards.example 8 0 10).
  - repeat constructor; simpl; lia.
  - vm_compute. discriminate.
Defined.

End DatasetIndex.

(** *** A padded row through the batch hook *)

Section RowToBatch.

Import PileRandomIODataset.
Local Open Scope Z_scope.

(** A row padded by [__getitem__] and passed through
    [on_after_batch_transfer] gives an input row, a target row and a
    weight row of the same length [max_seq_len]; wherever the loss weight
    is 1 the input is a token of the row and the target is the token that
    follows it, so padding is never scored. *)
Theorem scored_positions_hold_real_tokens (self : t) (tokens : list Z)
    (pred_start : Z) (dataset : string) :
  1 <= pred_start <= max_seq_len self + 1 →
  Py.len tokens <= max_seq_len self + 1 →
  let '(tokens', weights) := pad_row self tokens pred_start in
  let '(x, y, mask, weights', dataset') :=
    Pile.on_after_batch_transfer ([tokens'], [weights], dataset) in
  ∃ xr yr : list Z,
    x = [xr] ∧ y = [yr] ∧ weights' = [weights]
    ∧ Py.len xr = max_seq_len self
    ∧ Py.len yr = max_seq_len self
    ∧ Py.len weights = max_seq_len self
    ∧ (∀ i : nat, weights !! i = Some 1 →
         ∃ a b : Z,
           tokens !! i = Some a ∧ tokens !! (i + 1)%nat = Some b
           ∧ xr !! i = Some a ∧ yr !! i = Some b).
Proof.
  intros Hp Hl.
  destruct (pad_row_lengths self tokens pred_start Hp Hl) as (Hw & Ht).
  pose proof (pad_row_weight_at self tokens pred_start) as Hat.
  destruct (pad_row self tokens pred_start) as [tokens' weights] eqn:Hrow.
  assert (Htok : tokens' = tokens ++ Py.repeat (pad_id self)
                              (max_seq_len self + 1 - Py.len tokens))
    by (unfold pad_row in Hrow; by injection Hrow as <- _).
  simpl in Hw, Ht, Hat. simpl.
  unfold Py.len in *.
  eexists _, _. repeat split; try reflexivity.
  - rewrite drop_last_length. lia.
  - unfold Py.from_1. rewrite length_drop. lia.
  - exact Hw.
  - intros i Hi.
    assert (Hilt : Z.of_nat i < max_seq_len self)
      by (apply lookup_lt_Some in Hi; lia).
    rewrite (Hat i Hp Hl Hilt) in Hi.
    destruct (decide (pred_start - 1 <= Z.of_nat i < Z.of_nat (length tokens) - 1))
      as [Hin|]; [|done].
    destruct (lookup_lt_is_Some_2 tokens i ltac:(lia)) as [a Ha].
    destruct (lookup_lt_is_Some_2 tokens (i + 1) ltac:(lia)) as [b Hb].
    exists a, b. split; [exact Ha|]. split; [exact Hb|]. split.
    + rewrite drop_last_lookup by lia.
      rewrite Htok, lookup_app_l by lia. exact Ha.
    + unfold Py.from_1. rewrite lookup_drop.
      rewrite Htok, lookup_app_l by lia.
      rewrite Nat.add_comm. exact Hb.
Qed.

Lemma scored_positions_hold_real_tokens_witness :
  let '(tokens', weights) := pad_row (Rows.dataset 8 0) [5; 6; 7; 8; 9] 2 in
  let '(x, y, mask, weights', dataset') :=
    Pile.on_after_batch_transfer ([tokens'], [weights], "pile"%string) in
  ∃ xr yr : list Z,
    x = [xr] ∧ y = [yr] ∧ weights' = [weights]
    ∧ Py.len xr = 8 ∧ Py.len yr = 8 ∧ Py.len weights = 8
    ∧ (∀ i : nat, weights !! i = Some 1 →
         ∃ a b : Z,
           [5; 6; 7; 8; 9] !! i = Some a
           ∧ [5; 6; 7; 8; 9] !! (i + 1)%nat = Some b
           ∧ xr !! i = Some a ∧ yr !! i = Some b).
Proof.
  apply (scored_positions_hold_real_tokens (Rows.dataset 8 0) [5; 6; 7; 8; 9]
           2 "pile").
  - simpl. lia.
  - vm_compute. discriminate.
Defined.

End RowToBatch.

(** *** The tokenizer's special tokens *)

Section TokenizerFacts.

Import LLaMATokenizer.
Local Open Scope Z_scope.

Lemma repeat_length {A : Type} (x : A) (l : list Z) :
  length (Py.repeat x (Py.len l)) = length l.
Proof. unfold Py.repeat, Py.len. rewrite length_replicate. lia. Qed.

(** The special tokens mask always counts one leading and one closing
    special token per sequence, whether or not the tokenizer adds them:
    for one sequence it has the length of the built input exactly when both
    [add_bos_token] and [add_eos_token] are set (and then its zeros sit on
    the tokens of the sequence), and for a pair of sequences it is always
    at least two entries longer than the built input. *)
Theorem special_tokens_mask_against_built_input
    (super : list Z → option (list Z) → list Z) (self : t)
    (ids0 ids1 : list Z) :
  (length (get_special_tokens_mask super ids0 None false)
   = length (build_inputs_with_special_tokens self ids0 None)
   ↔ add_bos_token self = true ∧ add_eos_token self = true)
  ∧ (add_bos_token self = true → add_eos_token self = true →
     ∀ i : nat,
       get_special_tokens_mask super ids0 None false !! i = Some 0
       ↔ (1 <= i <= length ids0)%nat)
  ∧ (add_bos_token self = true →
     ∀ (i : nat) (tok : Z),
       ids0 !! i = Some tok →
       build_inputs_with_special_tokens self ids0 None !! (S i) = Some tok)
  ∧ (length (build_inputs_with_special_tokens self ids0 (Some ids1)) + 2
     <= length (get_special_tokens_mask super ids0 (Some ids1) false))%nat.
Proof.
  unfold get_special_tokens_mask, build_inputs_with_special_tokens.
  split; [|split; [|split]].
  - destruct (add_bos_token self), (add_eos_token self); simpl;
      rewrite ?length_app, ?repeat_length; simpl; split;
      try (intros [? ?]; done); try (intros; lia); done.
  - intros _ _ i. cbn [app]. destruct i as [|i]; simpl.
    + split; [done|lia].
    + destruct (decide (i < length ids0)%nat) as [Hi|Hi].
      * rewrite lookup_app_l by (by rewrite repeat_length).
        unfold Py.repeat. rewrite lookup_replicate_2
          by (unfold Py.len; lia).
        split; [lia|done].
      * rewrite lookup_app_r by (rewrite repeat_length; lia).
        rewrite repeat_length. split; [|lia].
        destruct (i - length ids0)%nat; simpl; done.
  - intros -> i tok Hi. simpl.
    destruct (add_eos_token self); [|done].
    rewrite lookup_cons.
    by rewrite lookup_app_l by (by eapply lookup_lt_Some).
  - destruct (add_bos_token self), (add_eos_token self); simpl;
      rewrite ?length_app, ?repeat_length; simpl;
      rewrite ?length_app, ?repeat_length; simpl; lia.
Qed.

Lemma special_tokens_mask_against_built_input_witness :
  (get_special_tokens_mask (fun _ _ => []) [5; 6] None false !! 1%nat = Some 0
   ↔ (1 <= 1 <= length [5; 6])%nat)
  ∧ build_inputs_with_special_tokens (mk true true 1 2) [5; 6] None !! 2%nat
    = Some 6.
Proof.
  pose proof (special_tokens_mask_against_built_input (fun _ _ => [])
                (mk true true 1 2) [5; 6] [7]) as (_ & Hmask & Hbuilt & _).
  split.
  - apply (Hmask eq_refl eq_refl 1%nat).
  - apply (Hbuilt eq_refl 1%nat 6). reflexivity.
Defined.

End TokenizerFacts.

(** *** The configuration class *)

Section ConfigFacts.

Import LLaMAConfig ConfigSpec.
Local Open Scope Z_scope.

(** With at least one local device [get_ranks_and_size] succeeds, the
    model-parallel node size is at least 1, and the two ranks are the
    quotient and the remainder of the process index by it.  The
    data-parallel rank stays below the data-parallel size when the node
    size divides the process count; when it does not, the last processes
    get a rank equal to the size (3 processes on nodes of 2: process 2 has
    rank 1 of 1).  Without a local device the call raises. *)
Theorem ranks_split_the_process_index
    (tp sp local_device_count process_count process_index : Z) :
  local_device_count ≠ 0 →
  (∃ r : ranks,
     get_ranks_and_size tp sp local_device_count process_count process_index
     = Some r
     ∧ 1 <= mp_node_size r
     ∧ process_index = dp_node_rank r * mp_node_size r + mp_node_rank r
     ∧ 0 <= mp_node_rank r < mp_node_size r
     ∧ (0 <= process_index < process_count →
        0 <= dp_node_rank r <= dp_node_size r)
     ∧ (0 <= process_index < process_count →
        process_count `mod` mp_node_size r = 0 →
        dp_node_rank r < dp_node_size r))
  ∧ get_ranks_and_size 2 1 1 3 2 = Some (mk_ranks 2 1 1 0)
  ∧ get_ranks_and_size tp sp 0 process_count process_index = None.
Proof.
  intros Hl. split; [|split; reflexivity].
  unfold get_ranks_and_size, floordiv, pymod.
  rewrite (decide_False (P := local_device_count = 0)) by done. simpl.
  set (m := Z.max 1 (tp * sp / local_device_count)).
  assert (Hm : 1 <= m) by (unfold m; lia).
  destruct (decide (m = 0)) as [|_]; [lia|]. simpl.
  eexists. split; [reflexivity|]. simpl.
  pose proof (Z.div_mod process_index m ltac:(lia)) as Hdm.
  pose proof (Z.mod_pos_bound process_index m ltac:(lia)) as Hmod.
  pose proof (Z.div_mod process_count m ltac:(lia)) as Hdc.
  pose proof (Z.mod_pos_bound process_count m ltac:(lia)) as Hmc.
  split; [exact Hm|]. split; [lia|]. split; [exact Hmod|]. split.
  - intros Hp. split; [apply Z.div_pos; lia|].
    apply Z.div_le_mono; lia.
  - intros Hp Hdiv. rewrite Hdiv in Hdc.
    apply Z.div_lt_upper_bound; [lia|]. lia.
Qed.

Lemma ranks_split_the_process_index_witness :
  ∃ r : ranks,
    get_ranks_and_size 4 2 4 6 5 = Some r
    ∧ 1 <= mp_node_size r
    ∧ 5 = dp_node_rank r * mp_node_size r + mp_node_rank r
    ∧ 0 <= mp_node_rank r < mp_node_size r
    ∧ (0 <= 5 < 6 → 0 <= dp_node_rank r <= dp_node_size r)
    ∧ (0 <= 5 < 6 → 6 `mod` mp_node_size r = 0 →
       dp_node_rank r < dp_node_size r).
Proof.
  apply (proj1 (ranks_split_the_process_index 4 2 4 6 5 ltac:(lia))).
Defined.

(** With scanned layers the rules are those of the unscanned layers with
    one more unsharded axis, at position [scan_axis], in the specification
    of every parameter inside the stack of layers; the other rules are
    unchanged.  Only a scan axis other than 0 and 1 raises, and only with
    scanned layers.  Every rule list ends with the catch-all pattern. *)
Theorem scanned_rules_add_the_scan_axis (scan_layers : bool) (scan_axis : Z) :
  (get_partition_rules scan_layers scan_axis = None
   ↔ scan_layers = true ∧ scan_axis ≠ 0 ∧ scan_axis ≠ 1)
  ∧ (scan_axis = 0 ∨ scan_axis = 1 →
     get_partition_rules true scan_axis
     = fmap (M:=list)
         (fun rule : string * list axis =>
            (rule.1, if in_layer rule.1
                     then with_axis_at (Z.to_nat scan_axis) rule.2
                     else rule.2))
       <$> get_partition_rules false scan_axis)
  ∧ (∀ rules : list (string * list axis),
       get_partition_rules scan_layers scan_axis = Some rules →
       last rules = Some (".*"%string, [Unsharded])).
Proof.
  split; [|split].
  - unfold get_partition_rules. destruct scan_layers.
    + destruct (decide (scan_axis = 0)) as [H0|H0];
        [split; [done|intros (_ & ? & _); done]|].
      destruct (decide (scan_axis = 1)) as [H1|H1];
        [split; [done|intros (_ & _ & ?); done]|].
      done.
    + split; [done|intros (? & _); done].
  - intros [-> | ->]; reflexivity.
  - intros rules. unfold get_partition_rules. destruct scan_layers.
    + destruct (decide (scan_axis = 0)); [by intros [= <-]|].
      destruct (decide (scan_axis = 1)); [by intros [= <-]|done].
    + by intros [= <-].
Qed.

Lemma scanned_rules_add_the_scan_axis_witness :
  get_partition_rules true 1
  = fmap (M:=list)
      (fun rule : string * list axis =>
         (rule.1, if in_layer rule.1
                  then with_axis_at (Z.to_nat 1) rule.2
                  else rule.2))
    <$> get_partition_rules false 1.
Proof.
  apply (proj1 (proj2 (scanned_rules_add_the_scan_axis true 1))).
  right. reflexivity.
Defined.

Lemma split_once_typed (ty p : string) :
  has_colon ty = false →
  split_once (ty ++ "::" ++ p) = Some (ty, p).
Proof.
  induction ty as [|a ty IH]; intros Hc; [reflexivity|].
  simpl in Hc. apply orb_false_elim in Hc as [Ha Hty].
  specialize (IH Hty).
  change ((String a ty ++ "::" ++ p)%string)
    with (String a (ty ++ "::" ++ p)%string).
  cbn [split_once]. rewrite IH.
  destruct ty as [|b ty]; simpl; rewrite Ha; reflexivity.
Qed.

Lemma split_once_plain (path : string) :
  has_colon path = false → split_once path = None.
Proof.
  induction path as [|a path IH]; intros Hc; [reflexivity|].
  simpl in Hc. apply orb_false_elim in Hc as [Ha Hp].
  cbn [split_once]. rewrite (IH Hp). destruct path; [done|].
  by rewrite Ha.
Qed.

Lemma has_colon_typed (ty p : string) :
  has_colon (ty ++ "::" ++ p) = true.
Proof.
  induction ty as [|a ty IH]; [reflexivity|].
  simpl. rewrite orb_true_iff. right. exact IH.
Qed.

Lemma lookup_colon (path : string) :
  has_colon path = true → lookup path LLAMA_STANDARD_CONFIGS = None.
Proof.
  intros Hc. unfold LLAMA_STANDARD_CONFIGS. cbn [lookup].
  repeat match goal with
         | |- context [String.eqb path ?k] =>
             destruct (String.eqb_spec path k) as [->|_];
             [vm_compute in Hc; discriminate Hc|]
         end.
  reflexivity.
Qed.

(** A path [type::rest] is split at its first ['::'] only: the type
    ['pickle'] or ['json'] selects the reader and everything after the
    separator, separators included, is the path of the file; any other
    type raises.  A path without colon that is not a standard name raises
    as well. *)
Theorem load_config_reads_type_and_path (ty p : string) :
  has_colon ty = false →
  load_config (ty ++ "::" ++ p)
  = (if String.eqb ty "pickle" then Some (Pickle p)
     else if String.eqb ty "json" then Some (Json p)
     else None)
  ∧ (lookup ty LLAMA_STANDARD_CONFIGS = None → load_config ty = None).
Proof.
  intros Hc. split.
  - unfold load_config.
    rewrite lookup_colon by apply has_colon_typed.
    by rewrite split_once_typed.
  - intros Hl. unfold load_config. rewrite Hl.
    by rewrite split_once_plain.
Qed.

Lemma load_config_reads_type_and_path_witness :
  load_config ("json" ++ "::" ++ "gs::bucket/config.json")
  = Some (Json "gs::bucket/config.json")
  ∧ load_config "pickel" = None.
Proof.
  destruct (load_config_reads_type_and_path "json" "gs::bucket/config.json"
              eq_refl) as [Hj _].
  destruct (load_config_reads_type_and_path "pickel" "" eq_refl) as [_ Hp].
  split; [exact Hj|]. apply Hp. reflexivity.
Defined.

(** Every standard configuration is loaded under its own name, and an
    attention module built on its hidden size and number of heads has
    heads that tile the hidden size, with an even head dimension as the
    rotary embedding needs. *)
Theorem standard_configs_fit_the_attention (name : string)
    (d : standard_config) (self : FlaxLLaMAAttention.t) :
  In (name, d) LLAMA_STANDARD_CONFIGS →
  Z.of_nat (FlaxLLaMAAttention.hidden_size self) = hidden_size d →
  Z.of_nat (FlaxLLaMAAttention.num_attention_heads self)
  = num_attention_heads d →
  load_config name = Some (Standard d)
  ∧ (FlaxLLaMAAttention.num_heads self * FlaxLLaMAAttention.head_dim self
     = FlaxLLaMAAttention.embed_dim self)%nat
  ∧ Nat.Even (FlaxLLaMAAttention.head_dim self).
Proof.
  intros Hin Hh Hn.
  unfold FlaxLLaMAAttention.head_dim, FlaxLLaMAAttention.embed_dim,
    FlaxLLaMAAttention.num_heads.
  unfold LLAMA_STANDARD_CONFIGS in Hin. simpl in Hin.
  repeat (destruct Hin as [Hin|Hin];
          [injection Hin as <- <-; simpl in Hh, Hn;
           apply (f_equal Z.to_nat) in Hh, Hn;
           rewrite Nat2Z.id in Hh, Hn; rewrite Hh, Hn;
           split; [reflexivity|split; [reflexivity|]];
           apply Nat.even_spec; reflexivity|]).
  destruct Hin.
Qed.

Lemma standard_configs_fit_the_attention_witness :
  load_config "debug"
  = Some (Standard (mk_standard 32000 256 256 2 2 2048 (2 / 100) (/ 1000000)
                      true false))
  ∧ (2 * (256 / 2) = 256)%nat
  ∧ Nat.Even (256 / 2).
Proof.
  apply (standard_configs_fit_the_attention "debug"
           (mk_standard 32000 256 256 2 2 2048 (2 / 100) (/ 1000000) true false)
           (FlaxLLaMAAttention.mk 256 2 2048 10000 1 [] [] [] [])).
  - unfold LLAMA_STANDARD_CONFIGS. do 7 right. left. reflexivity.
  - reflexivity.
  - reflexivity.
Defined.

End ConfigFacts.

(** *** The default inputs of the model and the inputs of generation *)

Section InputFacts.

Import Inputs.
Local Open Scope Z_scope.

Lemma sumZ_01 (l : list Z) :
  Forall (fun m => m = 0 ∨ m = 1) l →
  0 <= Shards.sumZ l <= Z.of_nat (length l).
Proof.
  induction 1 as [|m l [-> | ->] _ IH]; simpl; lia.
Qed.

(** The running sums of a mask of zeros and ones, without wrap-around. *)
Lemma cumsum_from_spec (acc : Z) (l : list Z) :
  Forall (fun m => m = 0 ∨ m = 1) l →
  0 <= acc → acc + Z.of_nat (length l) < 2 ^ 31 →
  cumsum_from acc l
  = (fun i : nat => acc + Shards.sumZ (take (S i) l)) <$> seq 0 (length l).
Proof.
  intros Hl. revert acc.
  induction Hl as [|m l Hm Hl IH]; intros acc H0 Hb; [done|].
  cbn [cumsum_from length seq]. rewrite fmap_cons.
  cbn [length] in Hb.
  rewrite int32_small by (destruct Hm as [-> | ->]; lia).
  rewrite IH by (destruct Hm as [-> | ->]; lia).
  f_equal; [simpl; lia|].
  rewrite <- fmap_S_seq, <- list_fmap_compose.
  apply list_fmap_ext. intros _ i _. simpl. lia.
Qed.

Lemma cumsum_lookup (l : list Z) (i : nat) (c : Z) :
  Forall (fun m => m = 0 ∨ m = 1) l →
  Z.of_nat (length l) < 2 ^ 31 →
  cumsum l !! i = Some c →
  c = Shards.sumZ (take (S i) l) ∧ (i < length l)%nat.
Proof.
  intros Hl Hb Hc. unfold cumsum in Hc.
  rewrite cumsum_from_spec in Hc by (done || lia).
  rewrite list_lookup_fmap in Hc.
  destruct (seq 0 (length l) !! i) as [j|] eqn:Hj; [|done].
  apply lookup_seq in Hj as [-> Hj]. simpl in Hc. injection Hc as <-.
  split; [lia|done].
Qed.

Lemma cumsum_length (acc : Z) (l : list Z) :
  length (cumsum_from acc l) = length l.
Proof. revert acc. induction l; intros; simpl; auto. Qed.

(** The position ids that the module derives from a mask of zeros and
    ones. *)
Lemma module_position_ids (input_ids am : list Z) :
  Forall (fun m => m = 0 ∨ m = 1) am →
  length am = length input_ids →
  Z.of_nat (length am) < 2 ^ 31 →
  ∃ position_ids : list Z,
    FlaxLLaMAForCausalLMModule.call_inputs input_ids (Some am) None None
    = Some (am, replicate (length input_ids) 0, position_ids)
    ∧ length position_ids = length am
    ∧ (∀ (i : nat) (p : Z),
         position_ids !! i = Some p →
         p = Z.max (Shards.sumZ (take (S i) am) - 1) 0 ∧ 0 <= p <= Z.of_nat i)
    ∧ (∀ k n : nat,
         am = replicate k 0 ++ replicate n 1 →
         position_ids = replicate k 0 ++ (Z.of_nat <$> seq 0 n)).
Proof.
  intros Ham Hlen Hb.
  set (ps := (fun c : Z => Z.max (Array.int32 (c - 1)) 0) <$> cumsum am).
  assert (Hps : length ps = length am)
    by (unfold ps, cumsum; by rewrite length_fmap, cumsum_length).
  assert (Hat : ∀ (i : nat) (p : Z), ps !! i = Some p →
            p = Z.max (Shards.sumZ (take (S i) am) - 1) 0 ∧ 0 <= p <= Z.of_nat i).
  { intros i p Hp. unfold ps in Hp. rewrite list_lookup_fmap in Hp.
    destruct (cumsum am !! i) as [c|] eqn:Hc; [|done].
    simpl in Hp. injection Hp as <-.
    destruct (cumsum_lookup am i c Ham Hb Hc) as [-> Hi].
    pose proof (sumZ_01 (take (S i) am) (Forall_take _ _ _ Ham)) as Hs.
    rewrite length_take in Hs.
    rewrite int32_small by lia. split; [done|lia]. }
  exists ps. split; [|split; [exact Hps|split; [exact Hat|]]].
  - unfold FlaxLLaMAForCausalLMModule.call_inputs, broadcast_to. simpl.
    fold ps. rewrite decide_True by lia. done.
  - intros k n Heq. apply list_eq. intros i.
    destruct (ps !! i) as [p|] eqn:Hp.
    + destruct (Hat i p Hp) as [-> _].
      assert (Hi : (i < k + n)%nat).
      { apply lookup_lt_Some in Hp. rewrite Hps, Heq in Hp.
        by rewrite length_app, !length_replicate in Hp. }
      rewrite Heq. symmetry.
      destruct (decide (i < k)%nat) as [Hik|Hik].
      * rewrite lookup_app_l by (by rewrite length_replicate).
        rewrite lookup_replicate_2 by done. f_equal.
        rewrite take_app_le by (rewrite length_replicate; lia).
        rewrite take_replicate.
        assert (Hz : ∀ j : nat, Shards.sumZ (replicate j 0) = 0)
          by (induction j; simpl; lia).
        rewrite Hz. lia.
      * rewrite lookup_app_r by (rewrite length_replicate; lia).
        rewrite length_replicate, list_lookup_fmap, lookup_seq_lt by lia.
        simpl. f_equal.
        rewrite take_app_ge by (rewrite length_replicate; lia).
        rewrite length_replicate, sumZ_app, take_replicate.
        assert (Hz : ∀ j : nat, Shards.sumZ (replicate j 0) = 0)
          by (induction j; simpl; lia).
        assert (Ho : ∀ j : nat, Shards.sumZ (replicate j 1) = Z.of_nat j)
          by (induction j; simpl; lia).
        rewrite Hz, Ho. lia.
    + symmetry. apply lookup_ge_None_2. apply lookup_ge_None_1 in Hp.
      rewrite Hps, Heq in Hp.
      rewrite length_app, !length_replicate in Hp.
      rewrite length_app, length_replicate, length_fmap, length_seq. lia.
Qed.

(** Left out, the position ids of [FlaxLLaMAForCausalLMModule.__call__]
    count the attended positions: for a mask of zeros and ones the
    position id of position [i] is at least 0 and at most [i], so it stays
    inside a rotary table with one row per position, and on a left-padded
    mask ([k] zeros, then [n] ones) the padding gets position 0 and the
    tokens get the positions 0, 1, ..., n - 1. *)
Theorem module_position_ids_count_attended_positions (input_ids am : list Z) :
  Forall (fun m => m = 0 ∨ m = 1) am →
  length am = length input_ids →
  Z.of_nat (length am) < 2 ^ 31 →
  ∃ position_ids : list Z,
    FlaxLLaMAForCausalLMModule.call_inputs input_ids (Some am) None None
    = Some (am, replicate (length input_ids) 0, position_ids)
    ∧ length position_ids = length am
    ∧ (∀ (i : nat) (p : Z),
         position_ids !! i = Some p →
         p = Z.max (Shards.sumZ (take (S i) am) - 1) 0 ∧ 0 <= p <= Z.of_nat i)
    ∧ (∀ k n : nat,
         am = replicate k 0 ++ replicate n 1 →
         position_ids = replicate k 0 ++ (Z.of_nat <$> seq 0 n)).
Proof.
  intros Ham Hlen Hb.
  destruct (module_position_ids input_ids am Ham Hlen Hb)
    as (ps & Hcall & Hps & Hat & Hpad).
  exists ps. split; [exact Hcall|]. split; [exact Hps|].
  split; [exact Hat|exact Hpad].
Qed.

Lemma module_position_ids_count_attended_positions_witness :
  ∃ position_ids : list Z,
    FlaxLLaMAForCausalLMModule.call_inputs [0; 0; 7; 8; 9] (Some [0; 0; 1; 1; 1])
      None None
    = Some ([0; 0; 1; 1; 1], replicate 5 0, position_ids)
    ∧ position_ids = replicate 2 0 ++ (Z.of_nat <$> seq 0 3).
Proof.
  destruct (module_position_ids_count_attended_positions [0; 0; 7; 8; 9]
              [0; 0; 1; 1; 1]) as (ps & Hcall & _ & _ & Hpad).
  - repeat (apply Forall_cons_2; [first [by left|by right]|]).
    apply Forall_nil_2.
  - reflexivity.
  - simpl. lia.
  - exists ps. split; [exact Hcall|]. apply (Hpad 2%nat 3%nat). reflexivity.
Defined.

Lemma arange_small (n : nat) :
  Z.of_nat n < 2 ^ 31 → arange n = Z.of_nat <$> seq 0 n.
Proof.
  intros Hn. unfold arange. apply list_fmap_ext.
  intros i j Hj. apply lookup_seq in Hj as [-> Hj].
  apply int32_small. lia.
Qed.

(** Left out, the position ids of [FlaxLLaMAPreTrainedModel.__call__] are
    0, 1, ..., n - 1 whatever the attention mask is, and leaving them out
    together with [past_key_values] raises.  Without attention mask the
    module would pick the same position ids; with a left-padded mask it
    would not (for the mask [0, 1, 1]: 0, 0, 1 against 0, 1, 2). *)
Theorem wrapper_position_ids_ignore_the_mask (input_ids : list Z)
    (am segs : option (list Z)) :
  Z.of_nat (length input_ids) < 2 ^ 31 →
  let n := length input_ids in
  FlaxLLaMAPreTrainedModel.call_inputs n am segs None false
  = Some (default (replicate n 1) am, default (replicate n 0) segs,
          Z.of_nat <$> seq 0 n)
  ∧ FlaxLLaMAPreTrainedModel.call_inputs n am segs None true = None
  ∧ FlaxLLaMAForCausalLMModule.call_inputs input_ids None segs None
    = Some (replicate n 1, default (replicate n 0) segs, Z.of_nat <$> seq 0 n)
  ∧ FlaxLLaMAForCausalLMModule.call_inputs [5; 6; 7] (Some [0; 1; 1]) None None
    = Some ([0; 1; 1], [0; 0; 0], [0; 0; 1])
  ∧ FlaxLLaMAPreTrainedModel.call_inputs 3 (Some [0; 1; 1]) None None false
    = Some ([0; 1; 1], [0; 0; 0], [0; 1; 2]).
Proof.
  intros Hn n. split; [|split; [reflexivity|split; [|split; reflexivity]]].
  - unfold FlaxLLaMAPreTrainedModel.call_inputs, broadcast_to.
    rewrite decide_True by (unfold arange; by rewrite length_fmap, length_seq).
    simpl. by rewrite arange_small.
  - destruct (module_position_ids input_ids
                (replicate n 1)) as (ps & Hcall & _ & _ & Hpad).
    + apply Forall_replicate. by right.
    + by rewrite length_replicate.
    + by rewrite length_replicate.
    + specialize (Hpad 0%nat n eq_refl). simpl in Hpad. subst ps.
      unfold n in *. clear n.
      unfold FlaxLLaMAForCausalLMModule.call_inputs in *. simpl in *.
      destruct (broadcast_to _ (length input_ids)) as [ps|]; [|done].
      simpl in *. by injection Hcall as ->.
Qed.

Lemma wrapper_position_ids_ignore_the_mask_witness :
  FlaxLLaMAPreTrainedModel.call_inputs 3 (Some [0; 1; 1]) None None false
  = Some ([0; 1; 1], replicate 3 0, Z.of_nat <$> seq 0 3).
Proof.
  apply (wrapper_position_ids_ignore_the_mask [5; 6; 7] (Some [0; 1; 1]) None).
  simpl. lia.
Defined.

(** [prepare_inputs_for_generation] with an attention mask that fits in
    [max_length] extends the mask with ones up to [max_length]; a longer
    mask raises.  Its position ids are the counts of attended positions
    minus one, not clipped: they are those that the module would pick by
    itself when the mask starts with 1, and the padding of a left-padded
    mask gets the position id -1. *)
Theorem generation_inputs_from_the_mask (input_ids am : list Z)
    (max_length : nat) :
  Forall (fun m => m = 0 ∨ m = 1) am →
  length am = length input_ids →
  Z.of_nat (length am) < 2 ^ 31 →
  ((max_length < length am)%nat →
   FlaxLLaMAForCausalLM.prepare_inputs_for_generation input_ids max_length
     (Some am) = None)
  ∧ ((length am <= max_length)%nat →
     ∃ position_ids : list Z,
       FlaxLLaMAForCausalLM.prepare_inputs_for_generation input_ids max_length
         (Some am)
       = Some (am ++ replicate (max_length - length am) 1, position_ids)
       ∧ (∀ (i : nat) (p : Z),
            position_ids !! i = Some p →
            p = Shards.sumZ (take (S i) am) - 1)
       ∧ (am !! 0%nat = Some 1 →
          FlaxLLaMAForCausalLMModule.call_inputs input_ids (Some am) None None
          = Some (am, replicate (length input_ids) 0, position_ids))
       ∧ (am !! 0%nat = Some 0 → position_ids !! 0%nat = Some (-1))).
Proof.
  intros Ham Hlen Hb. split.
  - intros Hlong. unfold FlaxLLaMAForCausalLM.prepare_inputs_for_generation,
      Array.dynamic_update_slice.
    rewrite decide_False by (rewrite length_replicate; lia). done.
  - intros Hfit.
    set (ps := (fun c : Z => Array.int32 (c - 1)) <$> cumsum am).
    assert (Hat : ∀ (i : nat) (p : Z), ps !! i = Some p →
              p = Shards.sumZ (take (S i) am) - 1).
    { intros i p Hp. unfold ps in Hp. rewrite list_lookup_fmap in Hp.
      destruct (cumsum am !! i) as [c|] eqn:Hc; [|done].
      simpl in Hp. injection Hp as <-.
      destruct (cumsum_lookup am i c Ham Hb Hc) as [-> Hi].
      pose proof (sumZ_01 (take (S i) am) (Forall_take _ _ _ Ham)) as Hs.
      rewrite length_take in Hs. apply int32_small. lia. }
    exists ps. split; [|split; [exact Hat|split]].
    + unfold FlaxLLaMAForCausalLM.prepare_inputs_for_generation,
        Array.dynamic_update_slice.
      fold ps. rewrite decide_True by (rewrite length_replicate; lia).
      rewrite length_replicate. simpl.
      replace (Z.to_nat (0 `max` (0 `min` (Z.of_nat max_length
                                           - Z.of_nat (length am)))))
        with 0%nat by lia.
      rewrite take_0, drop_replicate. simpl. done.
    + intros H1.
      destruct (module_position_ids input_ids am
                  Ham Hlen Hb) as (qs & Hcall & Hql & Hq & _).
      rewrite Hcall. do 3 f_equal.
      apply list_eq. intros i.
      assert (Hpl : length ps = length am)
        by (unfold ps, cumsum; by rewrite length_fmap, cumsum_length).
      destruct (decide (i < length am)%nat) as [Hi|Hi].
      * destruct (lookup_lt_is_Some_2 qs i ltac:(lia)) as [q Hqi].
        destruct (lookup_lt_is_Some_2 ps i ltac:(lia)) as [p Hpi].
        rewrite Hqi, Hpi. f_equal.
        destruct (Hq i q Hqi) as [-> _]. rewrite (Hat i p Hpi).
        destruct am as [|a r]; [done|]. simpl in H1. injection H1 as ->.
        inversion Ham as [|? ? _ Hr]; subst.
        pose proof (sumZ_01 (take i r) (Forall_take _ _ _ Hr)) as Hs.
        simpl. lia.
      * rewrite !lookup_ge_None_2 by lia. done.
    + intros H0. destruct am as [|a r]; [done|].
      simpl in H0. injection H0 as ->.
      unfold ps, cumsum. reflexivity.
Qed.

Lemma generation_inputs_from_the_mask_witness :
  ∃ position_ids : list Z,
    FlaxLLaMAForCausalLM.prepare_inputs_for_generation [0; 7; 8] 5
      (Some [0; 1; 1])
    = Some ([0; 1; 1] ++ replicate (5 - 3) 1, position_ids)
    ∧ position_ids !! 0%nat = Some (-1).
Proof.
  destruct (generation_inputs_from_the_mask [0; 7; 8] [0; 1; 1] 5)
    as (_ & Hfit).
  - repeat (apply Forall_cons_2; [first [by left|by right]|]).
    apply Forall_nil_2.
  - reflexivity.
  - simpl. lia.
  - destruct Hfit as (ps & Hcall & _ & _ & Hneg); [simpl; lia|].
    exists ps. split; [exact Hcall|]. apply Hneg. reflexivity.
Defined.

(** Generation from a prompt of [L >= 1] tokens without attention mask
    starts at the position ids 0, ..., L - 1, and after [k + 1] calls of
    [update_inputs_for_generation] the only position id is [L + k]; the
    cache of the model outputs is passed on.  From an empty prompt the
    position ids stay empty. *)
Theorem generation_positions_advance {K : Type} (input_ids : list Z)
    (max_length k : nat) (cache0 cache : K) :
  input_ids ≠ [] →
  Z.of_nat (length input_ids + k) < 2 ^ 31 - 1 →
  FlaxLLaMAForCausalLM.prepare_inputs_for_generation input_ids max_length None
  = Some (replicate max_length 1, Z.of_nat <$> seq 0 (length input_ids))
  ∧ Nat.iter (S k) (FlaxLLaMAForCausalLM.update_inputs_for_generation cache)
      (cache0, Z.of_nat <$> seq 0 (length input_ids))
    = (cache, [Z.of_nat (length input_ids + k)])
  ∧ (Nat.iter k (FlaxLLaMAForCausalLM.update_inputs_for_generation cache)
       (cache0, [])).2 = [].
Proof.
  intros Hne Hb. split; [|split].
  - unfold FlaxLLaMAForCausalLM.prepare_inputs_for_generation, broadcast_to.
    rewrite decide_True by (unfold arange; by rewrite length_fmap, length_seq).
    simpl. rewrite arange_small by lia. done.
  - induction k as [|k IH].
    + simpl. unfold FlaxLLaMAForCausalLM.update_inputs_for_generation. simpl.
      rewrite length_fmap, length_seq. f_equal.
      destruct input_ids as [|a r] using rev_ind; [done|].
      rewrite length_app. simpl.
      replace (length r + 1 - 1)%nat with (length r) by lia.
      rewrite Nat.add_1_r, seq_S, fmap_app, drop_app_length'
        by (by rewrite length_fmap, length_seq).
      simpl. rewrite int32_small by (rewrite length_app in Hb; simpl in Hb; lia).
      do 2 f_equal. lia.
    + rewrite Nat.iter_succ, IH by lia.
      unfold FlaxLLaMAForCausalLM.update_inputs_for_generation. simpl.
      rewrite int32_small by lia. do 3 f_equal. lia.
  - induction k as [|k IH]; [done|].
    rewrite Nat.iter_succ.
    unfold FlaxLLaMAForCausalLM.update_inputs_for_generation at 1.
    cbn [snd]. by rewrite IH by lia.
Qed.

Lemma generation_positions_advance_witness :
  Nat.iter 3 (FlaxLLaMAForCausalLM.update_inputs_for_generation 1%nat)
    (0%nat, Z.of_nat <$> seq 0 (length [5; 6; 7; 8]))
  = (1%nat, [Z.of_nat (length [5; 6; 7; 8] + 2)]).
Proof.
  apply (generation_positions_advance [5; 6; 7; 8] 16 2 0%nat 1%nat).
  - discriminate.
  - simpl. lia.
Defined.

End InputFacts.

(** *** Further properties of the attention module *)

Section AttentionShapes.

Import Tensor FlaxLLaMAAttention.

(** [_merge_heads] undoes [_split_heads] when the heads tile the hidden
    size; when they do not ([hidden_size] is not a multiple of the number
    of heads), nothing that [_split_heads] returns for a sequence that is
    not empty can be merged back. *)
Theorem merge_heads_undoes_split_heads (self : t) (hs : list (list R))
    (xs : list (list (list R))) :
  _split_heads self hs = Some xs →
  (num_heads self * head_dim self = embed_dim self →
   _merge_heads self xs = Some hs)
  ∧ (num_heads self * head_dim self ≠ embed_dim self → hs ≠ [] →
     _merge_heads self xs = None).
Proof.
  unfold _split_heads, _merge_heads. intros Hs.
  apply mapM_Some in Hs.
  assert (Hrow : ∀ (h : list R) (x : list (list R)),
            Array.reshape (num_heads self) (head_dim self) h = Some x →
            concat x = h ∧ length h = num_heads self * head_dim self).
  { intros h x Hx. unfold Array.reshape in Hx.
    destruct (decide (length h = num_heads self * head_dim self)) as [Hl|];
      [|done].
    injection Hx as <-. split; [by apply chunks_concat|done]. }
  split.
  - intros Htile. apply mapM_Some.
    induction Hs as [|h x hs xs Hx _ IH]; constructor; [|exact IH].
    destruct (Hrow h x Hx) as [-> Hl].
    rewrite decide_True by lia. done.
  - intros Htile Hne. destruct Hs as [|h x hs xs Hx _]; [done|].
    destruct (Hrow h x Hx) as [Hc Hl].
    cbn [mapM]. rewrite Hc. rewrite decide_False by lia. done.
Qed.

Lemma merge_heads_undoes_split_heads_witness :
  _merge_heads AttentionExample.self [[[1; 0]]; [[0; 1]]]%R
  = Some [[1; 0]; [0; 1]]%R.
Proof.
  apply (merge_heads_undoes_split_heads AttentionExample.self
           [[1; 0]; [0; 1]]%R [[[1; 0]]; [[0; 1]]]%R).
  - reflexivity.
  - reflexivity.
Defined.

End AttentionShapes.

Section AttentionReads.

Import Tensor FlaxLLaMAAttention AttentionSpec.

Variable self : t.
Hypothesis Hwf : well_formed self.

(** Keys and values under a false mask entry take no part in the
    attention of a query. *)
Lemma attend_masked_ext (d : nat) (scale : R) (q : list R)
    (ks ks' vs vs' : list (list R)) (row : list bool) :
  length ks = length ks' → length vs = length vs' →
  (∀ j : nat, row !! j = Some true →
     ks !! j = ks' !! j ∧ vs !! j = vs' !! j) →
  attend d scale q ks vs row = attend d scale q ks' vs' row.
Proof.
  intros Hk Hv Hsame. unfold attend.
  assert (Hw : scores scale q ks row = scores scale q ks' row).
  { unfold scores. apply list_eq. intros j. rewrite !lookup_zip_with.
    destruct (row !! j) as [[|]|] eqn:Hr.
    - by rewrite (proj1 (Hsame j Hr)).
    - destruct (ks !! j) as [k|] eqn:Hkj.
      + destruct (lookup_lt_is_Some_2 ks' j) as [k' Hk'];
          [rewrite <- Hk; by eapply lookup_lt_Some|].
        by rewrite Hk'.
      + rewrite (lookup_ge_None_2 ks' j);
          [done|rewrite <- Hk; by apply lookup_ge_None_1].
    - by destruct (ks !! j), (ks' !! j). }
  rewrite <- Hw. apply list_fmap_ext. intros _ c _. f_equal. f_equal.
  apply list_eq. intros j. rewrite !lookup_zip_with.
  unfold scores. rewrite lookup_zip_with.
  destruct (ks !! j) as [k|]; [|done]. simpl.
  destruct (row !! j) as [[|]|] eqn:Hr; simpl; [| |done].
  - by rewrite (proj2 (Hsame j Hr)).
  - destruct (vs !! j) as [v|] eqn:Hvj.
    + destruct (lookup_lt_is_Some_2 vs' j) as [v' Hv'];
        [rewrite <- Hv; by eapply lookup_lt_Some|].
      rewrite Hv'. simpl. f_equal. lra.
    + rewrite (lookup_ge_None_2 vs' j);
        [done|rewrite <- Hv; by apply lookup_ge_None_1].
Qed.

(** The causal attention of a query does not change when the tokens
    that it cannot see are replaced. *)
Lemma causal_row_visible (toks toks' : list (list R * nat)) (am : list bool)
    (i : nat) (tok : list R * nat) :
  length toks' = length toks →
  (∀ j : nat, j <= i → am !! j = Some true → toks !! j = toks' !! j) →
  causal_row self am toks i tok = causal_row self am toks' i tok.
Proof.
  intros Hlen Hsame. unfold causal_row, attended. do 2 f_equal.
  apply imap_ext. intros h q _. simpl.
  apply attend_masked_ext.
  - unfold head. rewrite !length_fmap, !length_take. lia.
  - unfold head. rewrite !length_fmap, !length_take. lia.
  - intros j Hj. apply lookup_take_Some in Hj as [Hj Hji].
    assert (Heq : take (S i) toks !! j = take (S i) toks' !! j).
    { rewrite !lookup_take_lt by lia. apply Hsame; [lia|done]. }
    unfold head. rewrite !list_lookup_fmap, Heq. done.
Qed.


End AttentionReads.


Section AttentionPrefix.

Import Tensor FlaxLLaMAAttention AttentionSpec.

Variable self : t.
Hypothesis Hwf : well_formed self.


End AttentionPrefix.


Section MaskEntries.

Import Tensor FlaxLLaMAAttention AttentionSpec.

Variable self : t.

(** The mask of a call without cache lets the query at position [q] see
    the key at position [k] exactly when the attention mask keeps [k], [k]
    is not after [q], and both positions carry the same segment id: the
    documents packed in one sequence do not attend one another. *)
Theorem full_mask_entries (am : list bool) (segs : list Z) (n q k : nat)
    (a : bool) (sq sk : Z) :
  n <= max_sequence_length self → length am = n → length segs = n →
  am !! k = Some a → segs !! q = Some sq → segs !! k = Some sk →
  ∃ (m : list (list bool)) (row : list bool),
    full_mask self am segs n n = Some m
    ∧ length m = n
    ∧ m !! q = Some row
    ∧ row !! k = Some (a && bool_decide (k <= q) && bool_decide (sq = sk)).
Proof.
  intros Hn Ham Hsg Ha Hq Hk.
  assert (Hqn : q < n) by (rewrite <- Hsg; by eapply lookup_lt_Some).
  assert (Hkn : k < n) by (rewrite <- Hsg; by eapply lookup_lt_Some).
  eexists _, _. split; [by apply full_mask_segments|].
  split; [by rewrite length_fmap, length_seq|]. split.
  - rewrite list_lookup_fmap, lookup_seq_lt by done. reflexivity.
  - unfold blockwise_allowed. rewrite !lookup_zip_with, Ha. simpl.
    rewrite !list_lookup_fmap, lookup_seq_lt by lia. simpl.
    rewrite Hk, Hq. simpl. done.
Qed.

End MaskEntries.

Lemma full_mask_entries_witness :
  ∃ (m : list (list bool)) (row : list bool),
    FlaxLLaMAAttention.full_mask AttentionExample.self
      AttentionExample.no_mask [0; 0; 1; 1]%Z 4 4 = Some m
    ∧ length m = 4
    ∧ m !! 2 = Some row
    ∧ row !! 1 = Some (true && bool_decide (1 <= 2) && bool_decide (1 = 0)%Z).
Proof.
  apply (full_mask_entries AttentionExample.self AttentionExample.no_mask
           [0; 0; 1; 1]%Z 4 2 1 true 1%Z 0%Z).
  - vm_compute. lia.
  - reflexivity.
  - reflexivity.
  - reflexivity.
  - reflexivity.
  - reflexivity.
Defined.

(** *** The size of what RMSNorm returns *)

Section RMSNormSize.

Import Tensor RMSNorm.
Local Open Scope R_scope.

(** [_norm] brings the mean square of a vector to
    [ms / (ms + eps)], where [ms] is the mean square of the input: at most
    1, and 1 exactly when [eps] is 0. *)
Theorem norm_mean_square (self : t) (x : list R) :
  0 <= eps self →
  0 < mean (Rsqr <$> x) + eps self →
  mean (Rsqr <$> _norm self x)
  = mean (Rsqr <$> x) / (mean (Rsqr <$> x) + eps self)
  ∧ 0 <= mean (Rsqr <$> _norm self x) <= 1
  ∧ (mean (Rsqr <$> _norm self x) = 1 ↔ eps self = 0).
Proof.
  intros He Hpos.
  pose proof (mean_sqr_nonneg x) as Hms.
  set (ms := mean (Rsqr <$> x)) in *.
  assert (Hn : mean (Rsqr <$> _norm self x) = ms / (ms + eps self)).
  { unfold _norm. fold ms.
    replace ((fun xi : R => xi * rsqrt (ms + eps self)) <$> x)
      with (scale (rsqrt (ms + eps self)) x)
      by (unfold scale; apply list_fmap_ext; intros; simpl; lra).
    rewrite mean_sqr_scale. fold ms. unfold rsqrt.
    rewrite <- Rinv_mult, sqrt_sqrt by lra. unfold Rdiv. lra. }
  rewrite Hn.
  assert (Hq : ms / (ms + eps self) = 1 - eps self / (ms + eps self))
    by (field; lra).
  assert (He' : 0 <= eps self / (ms + eps self)).
  { unfold Rdiv. apply Rmult_le_pos; [done|].
    left. by apply Rinv_0_lt_compat. }
  split; [done|]. split.
  - split; [|lra]. unfold Rdiv. apply Rmult_le_pos; [done|].
    left. by apply Rinv_0_lt_compat.
  - split.
    + intros H1. rewrite Hq in H1.
      assert (Hz : eps self / (ms + eps self) = 0) by lra.
      unfold Rdiv in Hz. apply Rmult_integral in Hz as [Hz|Hz]; [done|].
      pose proof (Rinv_0_lt_compat _ Hpos). lra.
    + intros H0. rewrite H0 in *. field. lra.
Qed.

Lemma norm_mean_square_witness :
  mean (Rsqr <$> _norm (mk 2 0 [1; 1]) [3; 4])
  = mean (Rsqr <$> [3; 4]) / (mean (Rsqr <$> [3; 4]) + 0)
  ∧ 0 <= mean (Rsqr <$> _norm (mk 2 0 [1; 1]) [3; 4]) <= 1
  ∧ (mean (Rsqr <$> _norm (mk 2 0 [1; 1]) [3; 4]) = 1 ↔ 0 = 0).
Proof.
  apply (norm_mean_square (mk 2 0 [1; 1]) [3; 4]).
  - simpl. lra.
  - unfold mean, Rsqr. simpl. lra.
Defined.

End RMSNormSize.

(** *** Rotary embedding and the scores of the attention *)

Section RotaryScores.

Import Tensor Rotary RotarySpec.
Local Open Scope R_scope.

(** Rotating two vectors by the same angles keeps their dot product. *)
Lemma rotate_pairs_dot (ts x y : list R) :
  length x = (2 * length ts)%nat → length y = (2 * length ts)%nat →
  dot (rotate_pairs ts x) (rotate_pairs ts y) = dot x y.
Proof.
  revert x y. induction ts as [|t ts IH]; intros x y Hx Hy.
  - destruct x, y; simpl in *; try lia. done.
  - destruct x as [|a [|b x]]; simpl in Hx; try lia.
    destruct y as [|c [|e y]]; simpl in Hy; try lia.
    cbn [rotate_pairs]. unfold dot in *. cbn [zip_with].
    change (sum (?u :: ?v :: ?l)) with (u + (v + sum l)).
    rewrite IH by lia.
    pose proof (sin2_cos2 t) as Hsc. unfold Rsqr in Hsc.
    assert (He : a * c * (cos t * cos t + sin t * sin t)
                 + b * e * (sin t * sin t + cos t * cos t) = a * c + b * e)
      by (rewrite (Rplus_comm (cos t * cos t)), Hsc; lra).
    lra.
Qed.

Lemma angles_pairs (dim : nat) (theta : R) (p : nat) :
  Nat.Even dim → (2 * length (angles dim theta p))%nat = dim.
Proof.
  intros [k ->]. rewrite angles_length, (Nat.mul_comm 2 k), Nat.div_mul by done.
  lia.
Qed.

Lemma rotate_tensor_lookup (dim : nat) (theta : R) (ps : list nat)
    (x : list (list (list R))) (i h : nat) (hs : list (list R)) (a : list R) :
  rotate_tensor dim theta ps x !! i = Some hs → hs !! h = Some a →
  ∃ (heads : list (list R)) (v : list R) (p : nat),
    x !! i = Some heads ∧ heads !! h = Some v ∧ ps !! i = Some p
    ∧ a = rotate_pairs (angles dim theta p) v.
Proof.
  unfold rotate_tensor. intros Hi Hh.
  apply lookup_zip_with_Some in Hi as (heads & p & -> & Hx & Hp).
  rewrite list_lookup_fmap in Hh.
  destruct (heads !! h) as [v|] eqn:Hv; [|done].
  simpl in Hh. injection Hh as <-. by exists heads, v, p.
Qed.



End RotaryScores.

(** *** The discretisation of the S6 block *)

Section S6Discretization.

Import Tensor.
Local Open Scope R_scope.

Lemma softplus_pos (x : R) : 0 < softplus x.
Proof.
  unfold softplus. rewrite <- ln_1. apply ln_increasing; [lra|].
  pose proof (exp_pos x). lra.
Qed.

(** [inverse_softplus] is the inverse of [softplus]: on every positive
    step size [y], as those that [__init__] samples,
    [softplus(inverse_softplus(y)) = y], and
    [inverse_softplus(softplus(x)) = x] for every [x]. *)
Theorem inverse_softplus_inverts_softplus (x y : R) :
  0 < y →
  softplus (S6Init.inverse_softplus y) = y
  ∧ S6Init.inverse_softplus (softplus x) = x.
Proof.
  intros Hy. unfold softplus, S6Init.inverse_softplus. split.
  - assert (H1 : 1 < exp y) by (rewrite <- exp_0; by apply exp_increasing).
    rewrite exp_ln by lra.
    replace (1 + (exp y - 1)) with (exp y) by lra. apply ln_exp.
  - pose proof (exp_pos x) as Hx. rewrite exp_ln by lra.
    replace (1 + exp x - 1) with (exp x) by lra. apply ln_exp.
Qed.

Lemma inverse_softplus_inverts_softplus_witness :
  softplus (S6Init.inverse_softplus 1) = 1
  ∧ S6Init.inverse_softplus (softplus 0) = 0.
Proof. apply (inverse_softplus_inverts_softplus 0 1). lra. Defined.


End S6Discretization.

(** *** The length of the sequences of a Mamba block *)

Section MambaLength.

Import Tensor.

(** A Mamba block accepts only sequences of exactly [seq_len] time steps:
    if one element of the batch has another length the convolution, whose
    channels are the time steps, raises. *)
Theorem Mamba_forward_needs_seq_len (self : MambaBlock.t)
    (x : list (list (list R))) (xb : list (list R)) :
  xb ∈ x → length xb ≠ MambaBlock.seq_len self →
  MambaBlock.forward self x None = None.
Proof.
  intros Hin Hlen. unfold MambaBlock.forward. simpl.
  rewrite (mapM_None_2 (MambaBlock.conv_stage self)); [done|].
  apply Exists_exists.
  exists ((fun xl : list R =>
             linear (MambaBlock.inp_proj self)
               (RMSNorm.__call__ (MambaBlock.norm self) xl)) <$> xb).
  split.
  - rewrite <- list_fmap_compose. apply list_elem_of_fmap.
    exists xb. split; [|done]. simpl. by rewrite <- list_fmap_compose.
  - unfold MambaBlock.conv_stage, MambaBlock.conv.
    rewrite decide_False by (by rewrite length_fmap). done.
Qed.

Lemma Mamba_forward_needs_seq_len_witness :
  MambaBlock.forward MambaExample.block [[[0%R]]] None = None.
Proof.
  apply (Mamba_forward_needs_seq_len MambaExample.block [[[0%R]]] [[0%R]]).
  - by left.
  - vm_compute. lia.
Defined.

End MambaLength.

(** *** The transformer block *)

Section BlockFacts.

Import Tensor FlaxLLaMAAttention AttentionSpec.

Variable self : FlaxLLaMABlock.t.
Hypothesis Hwf : well_formed (FlaxLLaMABlock.attention self).

Lemma add2_total (a b : list (list R)) :
  Forall2 (fun r1 r2 => length r1 = length r2) a b →
  FlaxLLaMABlock.add2 a b = Some (zip_with (zip_with Rplus) a b).
Proof. intros H2. unfold FlaxLLaMABlock.add2. by apply along2_total. Qed.

(** A call of the block without cache, position by position: the
    residual sum of the hidden state and of the causal attention of its
    normalised version, then the feed-forward half. *)
Lemma block_without_cache (toks : list (list R * nat)) (am : list bool)
    (s : Z) (init : bool) :
  length toks <= max_sequence_length (FlaxLLaMABlock.attention self) →
  (length toks `mod` sp (FlaxLLaMABlock.attention self) = 0)%nat →
  length am = length toks →
  Forall (fun tok => tok.2 < max_sequence_length (FlaxLLaMABlock.attention self))
    toks →
  Forall (fun tok => length tok.1 = length (wo (FlaxLLaMABlock.attention self)))
    toks →
  length (FlaxLLaMAMLP.w2 (FlaxLLaMABlock.feed_forward self))
  = length (wo (FlaxLLaMABlock.attention self)) →
  ∃ st : option cache,
    FlaxLLaMABlock.__call__ self None (toks.*1) am
      (replicate (length toks) s) (toks.*2) init
    = Some (BlockSpec.fed self <$> zip_with (zip_with Rplus) (toks.*1)
                      (causal_attention (FlaxLLaMABlock.attention self) am
                         (BlockSpec.normed self toks)), st).
Proof.
  intros Hn Hsp Ham Hp Hh Hw2.
  set (att := FlaxLLaMABlock.attention self) in *.
  unfold FlaxLLaMABlock.__call__. fold att.
  assert (H1 : RMSNorm.__call__ (FlaxLLaMABlock.attention_norm self) <$> toks.*1
               = (BlockSpec.normed self toks).*1)
    by (unfold BlockSpec.normed; by rewrite <- !list_fmap_compose).
  assert (H2 : toks.*2 = (BlockSpec.normed self toks).*2)
    by (unfold BlockSpec.normed; by rewrite <- !list_fmap_compose).
  assert (Hln : length (BlockSpec.normed self toks) = length toks)
    by (unfold BlockSpec.normed; by rewrite length_fmap).
  rewrite H1, H2, <- Hln.
  rewrite (call_without_cache att Hwf (BlockSpec.normed self toks) am s init);
    [|lia|lia|by rewrite Hln|unfold BlockSpec.normed; by apply Forall_fmap].
  rewrite bind_Some. cbn [fst snd].
  set (a := causal_attention att am (BlockSpec.normed self toks)).
  assert (Ha : Forall2 (fun r1 r2 : list R => length r1 = length r2) (toks.*1) a).
  { apply Forall2_same_length_lookup_2.
    - unfold a, causal_attention. by rewrite length_imap, length_fmap.
    - intros j r1 r2 Hr1 Hr2. rewrite list_lookup_fmap in Hr1.
      destruct (toks !! j) as [t|] eqn:Ht; [|done].
      simpl in Hr1. injection Hr1 as <-.
      eapply Forall_lookup_1 in Hh; [|exact Ht]. rewrite Hh.
      unfold a, causal_attention in Hr2. rewrite list_lookup_imap in Hr2.
      destruct (BlockSpec.normed self toks !! j) as [tn|]; [|done].
      simpl in Hr2. injection Hr2 as <-.
      unfold causal_row. by rewrite dense_length. }
  rewrite add2_total, bind_Some by exact Ha.
  set (h1 := zip_with (zip_with Rplus) (toks.*1) a).
  rewrite add2_total.
  - rewrite bind_Some. eexists. do 2 f_equal.
    rewrite <- list_fmap_compose, zip_with_fmap_r, zip_with_diag.
    apply list_fmap_ext. intros _ h _. done.
  - apply Forall2_same_length_lookup_2; [by rewrite !length_fmap|].
    intros j r1 r2 Hr1 Hr2. rewrite !list_lookup_fmap, Hr1 in Hr2.
    simpl in Hr2. injection Hr2 as <-.
    unfold FlaxLLaMAMLP.__call__. rewrite dense_length, Hw2.
    unfold h1 in Hr1.
    apply lookup_zip_with_Some in Hr1 as (x & y & -> & Hx & Hy).
    rewrite length_zip_with.
    eapply Forall2_lookup_lr in Ha; [|exact Hx|exact Hy].
    rewrite list_lookup_fmap in Hx.
    destruct (toks !! j) as [t|] eqn:Ht; [|done].
    simpl in Hx. injection Hx as <-.
    eapply Forall_lookup_1 in Hh; [|exact Ht]. lia.
Qed.

(** The output of the block at a position where the two sequences agree
    on what the position sees. *)
Lemma block_output_at (toks toks' : list (list R * nat)) (am : list bool)
    (j : nat) :
  length toks' = length toks →
  (∀ j' : nat, j' <= j → am !! j' = Some true → toks !! j' = toks' !! j') →
  toks !! j = toks' !! j →
  (BlockSpec.fed self <$> zip_with (zip_with Rplus) (toks.*1)
     (causal_attention (FlaxLLaMABlock.attention self) am
        (BlockSpec.normed self toks))) !! j
  = (BlockSpec.fed self <$> zip_with (zip_with Rplus) (toks'.*1)
       (causal_attention (FlaxLLaMABlock.attention self) am
          (BlockSpec.normed self toks'))) !! j.
Proof.
  intros Hlen Hsame Hj.
  rewrite !list_lookup_fmap, !lookup_zip_with, !list_lookup_fmap, <- Hj.
  destruct (toks !! j) as [tok|] eqn:Htok; [|done]. simpl.
  unfold causal_attention. rewrite !list_lookup_imap.
  assert (Hnj : BlockSpec.normed self toks !! j
                = BlockSpec.normed self toks' !! j)
    by (unfold BlockSpec.normed; by rewrite !list_lookup_fmap, <- Hj, Htok).
  rewrite <- Hnj.
  destruct (BlockSpec.normed self toks !! j) as [tn|]; [|done]. simpl.
  rewrite (causal_row_visible (FlaxLLaMABlock.attention self)
             (BlockSpec.normed self toks) (BlockSpec.normed self toks')
             am j tn); [done| |].
  - unfold BlockSpec.normed. by rewrite !length_fmap.
  - intros j' Hj' Hvis. unfold BlockSpec.normed.
    by rewrite !list_lookup_fmap, (Hsame j' Hj' Hvis).
Qed.

(** The rows that the block returns have the features of its input. *)
Lemma block_output_shape (H : nat) (toks : list (list R * nat))
    (am : list bool) :
  length (wo (FlaxLLaMABlock.attention self)) = H →
  length (FlaxLLaMAMLP.w2 (FlaxLLaMABlock.feed_forward self)) = H →
  Forall (fun tok : list R * nat => length tok.1 = H) toks →
  Forall (fun r : list R => length r = H)
    (BlockSpec.fed self <$> zip_with (zip_with Rplus) (toks.*1)
       (causal_attention (FlaxLLaMABlock.attention self) am
          (BlockSpec.normed self toks))).
Proof.
  intros Hwo Hw2 Hh. apply Forall_lookup. intros j r Hr.
  rewrite list_lookup_fmap in Hr.
  destruct (zip_with _ _ _ !! j) as [h1|] eqn:Hh1; [|done].
  simpl in Hr. injection Hr as <-.
  apply lookup_zip_with_Some in Hh1 as (h & a & -> & Hx & Ha).
  rewrite list_lookup_fmap in Hx.
  destruct (toks !! j) as [t|] eqn:Ht; [|done].
  simpl in Hx. injection Hx as <-.
  eapply Forall_lookup_1 in Hh; [|exact Ht].
  unfold causal_attention in Ha. rewrite list_lookup_imap in Ha.
  destruct (BlockSpec.normed self toks !! j) as [tn|]; [|done].
  simpl in Ha. injection Ha as <-.
  unfold BlockSpec.fed, FlaxLLaMAMLP.__call__, causal_row.
  rewrite !length_zip_with, !dense_length. lia.
Qed.


(** One block of a stack: the outputs agree wherever the inputs do. *)
Lemma block_step (H : nat) (toks toks' : list (list R * nat))
    (am : list bool) (s : Z) (init : bool) (i : nat) :
  BlockSpec.fits H toks self → BlockSpec.fits H toks' self →
  length am = length toks →
  BlockSpec.agree i am toks toks' →
  ∃ (out out' : list (list R)) (st st' : option cache),
    FlaxLLaMABlock.__call__ self None (toks.*1) am
      (replicate (length toks) s) (toks.*2) init = Some (out, st)
    ∧ FlaxLLaMABlock.__call__ self None (toks'.*1) am
        (replicate (length toks') s) (toks'.*2) init = Some (out', st')
    ∧ length out = length toks ∧ length out' = length toks'
    ∧ Forall (fun r : list R => length r = H) out
    ∧ Forall (fun r : list R => length r = H) out'
    ∧ (∀ j : nat, j <= i → am !! j = Some true → out !! j = out' !! j)
    ∧ out !! i = out' !! i.
Proof.
  intros (_ & Hwo & Hw2 & _ & _ & Hsp & Hn & Hp)
    (_ & _ & _ & _ & _ & Hsp' & Hn' & Hp') Ham (Hlen & Hsame & Hi).
  apply Forall_and in Hp as [Hp Hh]. apply Forall_and in Hp' as [Hp' Hh'].
  assert (Hh0 : Forall (fun tok : list R * nat =>
                          length tok.1
                          = length (wo (FlaxLLaMABlock.attention self))) toks)
    by (by rewrite Hwo).
  assert (Hh0' : Forall (fun tok : list R * nat =>
                           length tok.1
                           = length (wo (FlaxLLaMABlock.attention self))) toks')
    by (by rewrite Hwo).
  destruct (block_without_cache toks am s init Hn Hsp Ham Hp Hh0 ltac:(lia))
    as [st Hc].
  destruct (block_without_cache toks' am s init Hn' Hsp' ltac:(lia) Hp' Hh0'
              ltac:(lia)) as [st' Hc'].
  assert (Hlo : ∀ t : list (list R * nat),
            length (BlockSpec.fed self <$> zip_with (zip_with Rplus) (t.*1)
                      (causal_attention (FlaxLLaMABlock.attention self) am
                         (BlockSpec.normed self t))) = length t).
  { intros t. rewrite length_fmap, length_zip_with, length_fmap.
    unfold causal_attention, BlockSpec.normed.
    rewrite length_imap, length_fmap. lia. }
  eexists _, _, st, st'. split; [exact Hc|]. split; [exact Hc'|].
  split; [apply Hlo|]. split; [apply Hlo|].
  split; [by apply block_output_shape|].
  split; [by apply block_output_shape|]. split.
  - intros j Hj Hvis. apply block_output_at; [done| |by apply Hsame].
    intros j' Hj' Hv'. apply Hsame; [lia|done].
  - by apply block_output_at.
Qed.

End BlockFacts.


Section MambaSizes.

Import Tensor.

Lemma along_mismatch {X Y Z : Type} (f : X → Y → option Z)
    (a : list X) (b : list Y) :
  length a ≠ length b → length a ≠ 1 → length b ≠ 1 →
  Broadcast.along f a b = None.
Proof.
  intros Hab Ha Hb. unfold Broadcast.along.
  rewrite decide_False by done.
  destruct a as [|x [|x' a]], b as [|y [|y' b]]; simpl in *; done.
Qed.

(** The mask that follows the convolution is built on the module-level
    [seq_len = 100], not on the [seq_len] of the block: a block built for
    another number of time steps (other than 1, which broadcasts) raises
    on every batch that is not empty. *)
Theorem Mamba_forward_needs_the_module_seq_len (self : MambaBlock.t)
    (x : list (list (list R))) :
  x ≠ [] →
  length (MambaBlock.conv_weight self) = MambaBlock.seq_len self →
  length (MambaBlock.conv_bias self) = MambaBlock.seq_len self →
  MambaBlock.seq_len self ≠ 1 →
  MambaBlock.seq_len self ≠ Hyper.seq_len →
  MambaBlock.forward self x None = None.
Proof.
  intros Hx Hw Hb H1 H100. destruct x as [|xb x]; [done|].
  unfold MambaBlock.forward. simpl.
  set (xp := (fun xl : list R => linear (MambaBlock.inp_proj self) xl)
             <$> ((fun xl : list R =>
                     RMSNorm.__call__ (MambaBlock.norm self) xl) <$> xb)).
  assert (Hstage : MambaBlock.conv_stage self xp = None).
  { unfold MambaBlock.conv_stage, MambaBlock.conv.
    destruct (decide (length xp = MambaBlock.seq_len self)); [|done].
    rewrite bind_Some. unfold MambaBlock.masked. apply along_mismatch.
    - rewrite length_zip_with, Hw, Hb. unfold MambaBlock.mask.
      rewrite length_fmap, length_seq. lia.
    - rewrite length_zip_with, Hw, Hb. lia.
    - unfold MambaBlock.mask. rewrite length_fmap, length_seq.
      unfold Hyper.seq_len. lia. }
  by rewrite Hstage.
Qed.

End MambaSizes.

Lemma Mamba_forward_needs_the_module_seq_len_witness :
  MambaBlock.forward ShortMambaExample.block ShortMambaExample.x None = None.
Proof.
  apply (Mamba_forward_needs_the_module_seq_len ShortMambaExample.block
           ShortMambaExample.x).
  - discriminate.
  - reflexivity.
  - reflexivity.
  - vm_compute. lia.
  - vm_compute. lia.
Defined.

(** *** The stack of transformer blocks *)

Section StackFacts.

Import Tensor FlaxLLaMAAttention AttentionSpec.

Lemma fits_next (H : nat) (toks : list (list R * nat)) (out : list (list R))
    (b : FlaxLLaMABlock.t) :
  length out = length toks →
  Forall (fun r : list R => length r = H) out →
  BlockSpec.fits H toks b → BlockSpec.fits H (zip out (toks.*2)) b.
Proof.
  intros Hl Ho (Hwf & Hwo & Hw2 & Hn1 & Hn2 & Hsp & Hn & Hp).
  assert (Hz : length (zip out (toks.*2)) = length toks)
    by (rewrite length_zip_with, length_fmap; lia).
  split; [done|]. split; [done|]. split; [done|]. split; [done|].
  split; [done|]. split; [by rewrite Hz|]. split.
  - by rewrite Hz.
  - apply Forall_lookup. intros j [r p] Hj.
    apply lookup_zip_with_Some in Hj as (r' & p' & [= <- <-] & Hr & Hpj).
    rewrite list_lookup_fmap in Hpj.
    destruct (toks !! j) as [t|] eqn:Ht; [|done].
    simpl in Hpj. injection Hpj as <-.
    eapply Forall_lookup_1 in Hp; [|exact Ht].
    eapply Forall_lookup_1 in Ho; [|exact Hr]. simpl. split; [apply Hp|done].
Qed.

Lemma zip_lookup_eq (out out' : list (list R)) (toks toks' : list (list R * nat))
    (j : nat) :
  out !! j = out' !! j → toks !! j = toks' !! j →
  zip out (toks.*2) !! j = zip out' (toks'.*2) !! j.
Proof.
  intros Ho Ht. rewrite !lookup_zip_with, !list_lookup_fmap.
  by rewrite Ho, Ht.
Qed.



End StackFacts.

(** *** Shapes that the decoding branch of the attention refuses *)

Section DecodingShapes.

Import Tensor FlaxLLaMAAttention.

Lemma decode_mask_mismatch (c : cache) (am : list bool) (qlen : nat) :
  length am ≠ length (cached_key c) → length am ≠ 1 →
  decode_mask c am qlen = None.
Proof.
  intros Hk H1. unfold decode_mask, broadcast_to_rows.
  rewrite decide_False by done.
  destruct am as [|a [|a' am]]; simpl in *; done.
Qed.

(** With a cache, the attention mask must span the whole cache (or have a
    single entry, which broadcasts): a mask of any other length, such as
    one that spans the new tokens only, makes the call raise. *)
Theorem decoding_needs_a_mask_over_the_cache (self : t) (c : cache)
    (hidden_states : list (list R)) (am : list bool) (segs : list Z)
    (position_ids : list nat) (init : bool) :
  length am ≠ length (cached_key c) → length am ≠ 1 →
  __call__ self (Some c) hidden_states am segs position_ids init = None.
Proof.
  intros Hk H1. unfold __call__.
  destruct (_split_heads self (dense (wq self) <$> hidden_states)) as [xq|];
    [|done].
  destruct (_split_heads self (dense (wk self) <$> hidden_states)) as [xk|];
    [|done].
  destruct (_split_heads self (dense (wv self) <$> hidden_states)) as [xv|];
    [|done].
  rewrite !bind_Some.
  destruct (Rotary.apply (freqs_cis self) xq xk position_ids) as [qk|];
    [|done].
  rewrite bind_Some. unfold attention_bias_mask.
  by rewrite decode_mask_mismatch.
Qed.

Lemma decoding_needs_a_mask_over_the_cache_witness :
  __call__ AttentionExample.self (Some AttentionExample.empty_cache)
    [[1; 0]%R; [0; 1]%R] [true; true] [0; 0]%Z [0; 1] false = None.
Proof.
  apply (decoding_needs_a_mask_over_the_cache AttentionExample.self
           AttentionExample.empty_cache).
  - vm_compute. lia.
  - simpl. lia.
Defined.

Lemma shard_map_uneven {A : Type} (sp : nat) (f : nat → list A → list A)
    (x : list A) :
  (length x `mod` sp ≠ 0)%nat → Array.shard_map sp f x = None.
Proof.
  intros Hsp. unfold Array.shard_map.
  rewrite decide_False by (intros [_ ?]; done). done.
Qed.

(** The single-token branch of [_concatenate_to_cache] goes through the
    sharded write and raises when the mesh axis ['sp'] does not divide the
    length of the cache; the branch for several tokens does not read the
    mesh at all. *)
Theorem single_token_write_needs_even_shards {M : Type} (self self' : t)
    (c : cache) (key value query : list (list (list R))) (mask : M) :
  (length (cached_key c) `mod` sp self ≠ 0)%nat →
  (length query = 1 →
   _concatenate_to_cache self (Some c) key value query mask = None)
  ∧ (length query ≠ 1 →
     _concatenate_to_cache self (Some c) key value query mask
     = _concatenate_to_cache self' (Some c) key value query mask).
Proof.
  intros Hsp. unfold _concatenate_to_cache. split.
  - intros Hq. rewrite decide_True by done.
    destruct key as [|k [|k' key]]; [done| |done].
    destruct value as [|v [|v' value]]; [done| |done].
    rewrite (shard_map_uneven (sp self) _ (cached_key c)) by done. done.
  - intros Hq. by rewrite !decide_False by done.
Qed.

Lemma single_token_write_needs_even_shards_witness :
  _concatenate_to_cache RingExample.self
    (Some (mk_cache [[[0; 0]]; [[0; 0]]; [[0; 0]]]%R
             [[[0; 0]]; [[0; 0]]; [[0; 0]]]%R 0))
    [[[1; 1]]]%R [[[2; 2]]]%R [[[3; 3]]]%R tt = None.
Proof.
  apply (single_token_write_needs_even_shards RingExample.self
           AttentionExample.self).
  - vm_compute. lia.
  - reflexivity.
Defined.

End DecodingShapes.
